(** * Book converter: structure extraction and footnote resolution

    A shallow embedding of the two converters of the repository:
    - [src/converter.js]   (CommonJS converter: [cleanupArtifacts],
                            [extractDocumentStructure]);
    - [src/unnamed/part_000] (ES-module converter: [escapeHTML],
                            [normalizeRefs], [extractFootnotes],
                            [processConlangInText], [parseAndCleanFootnotes],
                            [parseChapters], [generateId] and the footnote
                            merge and UI pass of the main pipeline).

    Text is a list of code units ([list ascii], code units 0..255; the
    patterns of the source only name ASCII characters, the en dash of one
    character class apart).  The regular expressions of the source are kept
    as syntax trees and run by a backtracking matcher with the priority
    order of ECMAScript (greedy and lazy stars, ordered alternation, capture
    groups, back-references, anchors), so that every pattern below can be
    compared with its literal in the source.

    The document cheerio parses is a tree of text nodes and elements
    ([node]).  A document written out by [$.html()] and parsed again by
    [cheerio.load] is taken to be the same tree.  For converter.js, whose
    partition only looks at the elements [h1], [h2], [h3], [p] and at the
    previous sibling of each, the document is the flat stream of the
    children of [body] ([block]). *)

From Stdlib Require Import Ascii String List Arith Bool Lia DecimalString.
From stdpp Require Import base list gmap.
Import ListNotations.

Set Default Proof Using "Type".

(* ------------------------------------------------------------------ *)
(** ** Text and character classes *)

Abbreviation txt := (list ascii).

Definition str (s : string) : txt := list_ascii_of_string s.

(** The double quote, written apart from the literals. *)
Definition dq : ascii := ascii_of_nat 34.

Definition chr_eq (a b : ascii) : bool := Ascii.eqb a b.

(** [\d] *)
Definition is_digit (c : ascii) : bool :=
  (48 <=? nat_of_ascii c) && (nat_of_ascii c <=? 57).

(** [\s] on code units below 256: TAB, LF, VT, FF, CR, space, NBSP. *)
Definition is_space (c : ascii) : bool :=
  let n := nat_of_ascii c in
  ((9 <=? n) && (n <=? 13)) || (n =? 32) || (n =? 160).

Definition is_upper (c : ascii) : bool :=
  (65 <=? nat_of_ascii c) && (nat_of_ascii c <=? 90).

Definition is_lower (c : ascii) : bool :=
  (97 <=? nat_of_ascii c) && (nat_of_ascii c <=? 122).

(** [\w] = [A-Za-z0-9_] *)
Definition is_word (c : ascii) : bool :=
  is_upper c || is_lower c || is_digit c || chr_eq c "_".

(** Case folding of one code unit, as [toLowerCase] does on A..Z. *)
Definition lower (c : ascii) : ascii :=
  if is_upper c then ascii_of_nat (nat_of_ascii c + 32) else c.

Definition toLowerCase (s : txt) : txt := map lower s.

(** [String.prototype.trim] *)
Fixpoint drop_while (p : ascii -> bool) (s : txt) : txt :=
  match s with
  | [] => []
  | c :: t => if p c then drop_while p t else s
  end.

Definition trimStart (s : txt) : txt := drop_while is_space s.
Definition trimEnd (s : txt) : txt := rev (drop_while is_space (rev s)).
Definition trim (s : txt) : txt := trimEnd (trimStart s).

(* ------------------------------------------------------------------ *)
(** ** Regular expressions *)

Module Rx.

Inductive regex : Type :=
| Eps
| Chr (p : ascii -> bool)
| Seq (r1 r2 : regex)
| Alt (r1 r2 : regex)
| Star (r : regex)
| StarLazy (r : regex)
| Grp (i : nat) (r : regex)
| Ref (i : nat)
| Bol
| Eol.

(** A matcher state: the index reached in the subject, the captures made so
    far (latest first) and the rest of the subject. *)
Record mstate : Type := MS { pos : nat; caps : list (nat * txt); rest : txt }.

Fixpoint cap (i : nat) (cs : list (nat * txt)) : option txt :=
  match cs with
  | [] => None
  | (j, t) :: cs' => if Nat.eqb i j then Some t else cap i cs'
  end.

Fixpoint strip_prefix (p s : txt) : option txt :=
  match p, s with
  | [], _ => Some s
  | a :: p', b :: s' => if chr_eq a b then strip_prefix p' s' else None
  | _ :: _, [] => None
  end.

(** Greedy iteration: one more round first, then stop.  A round that
    consumes nothing is rejected, as in ECMAScript. *)
Fixpoint star_loop (step : mstate -> list mstate) (n : nat) (st : mstate)
  : list mstate :=
  match n with
  | 0 => [st]
  | S n' =>
      flat_map (fun st' =>
                  if length (rest st') <? length (rest st)
                  then star_loop step n' st' else [])
               (step st) ++ [st]
  end.

(** Lazy iteration: stop first, then one more round. *)
Fixpoint lazy_loop (step : mstate -> list mstate) (n : nat) (st : mstate)
  : list mstate :=
  match n with
  | 0 => [st]
  | S n' =>
      st :: flat_map (fun st' =>
                  if length (rest st') <? length (rest st)
                  then lazy_loop step n' st' else [])
               (step st)
  end.

(** All the ways [r] matches at [st], best first. *)
Fixpoint run (r : regex) (st : mstate) : list mstate :=
  match r with
  | Eps => [st]
  | Chr p =>
      match rest st with
      | c :: t => if p c then [MS (S (pos st)) (caps st) t] else []
      | [] => []
      end
  | Seq r1 r2 => flat_map (run r2) (run r1 st)
  | Alt r1 r2 => run r1 st ++ run r2 st
  | Star r1 => star_loop (run r1) (length (rest st)) st
  | StarLazy r1 => lazy_loop (run r1) (length (rest st)) st
  | Grp i r1 =>
      map (fun st' =>
             MS (pos st')
                ((i, take (pos st' - pos st) (rest st)) :: caps st')
                (rest st'))
          (run r1 st)
  | Ref i =>
      match cap i (caps st) with
      | None => [st]
      | Some t =>
          match strip_prefix t (rest st) with
          | Some s' => [MS (pos st + length t) (caps st) s']
          | None => []
          end
      end
  | Bol => if pos st =? 0 then [st] else []
  | Eol => match rest st with [] => [st] | _ :: _ => [] end
  end.

(** The match ECMAScript reports when the pattern is tried at index [p] of a
    subject whose remaining part is [s]. *)
Definition at_pos (r : regex) (p : nat) (s : txt) : option mstate :=
  head (run r (MS p [] s)).

(** Derived forms. *)
Definition Plus (r : regex) : regex := Seq r (Star r).
Definition Opt (r : regex) : regex := Alt r Eps.
Definition Lit1 (c : ascii) : regex := Chr (chr_eq c).
Definition LitCi1 (c : ascii) : regex := Chr (fun x => chr_eq (lower x) (lower c)).
Fixpoint seqs (rs : list regex) : regex :=
  match rs with
  | [] => Eps
  | [r] => r
  | r :: rs' => Seq r (seqs rs')
  end.
Definition Lit (s : string) : regex := seqs (map Lit1 (str s)).
Definition LitCi (s : string) : regex := seqs (map LitCi1 (str s)).
Definition Digit : regex := Chr is_digit.
Definition Space : regex := Chr is_space.
Definition Word : regex := Chr is_word.
(** [.] matches everything but the line terminators LF and CR. *)
Definition Dot : regex :=
  Chr (fun c => negb (chr_eq c (ascii_of_nat 10) || chr_eq c (ascii_of_nat 13))).

(** [RegExp.prototype.exec] without the g flag: the leftmost match. *)
Fixpoint search_from (r : regex) (p : nat) (s : txt) : option (nat * mstate) :=
  match at_pos r p s with
  | Some st' => Some (p, st')
  | None =>
      match s with
      | [] => None
      | _ :: t => search_from r (S p) t
      end
  end.

Definition exec (r : regex) (s : txt) : option (nat * mstate) := search_from r 0 s.

(** [re.test(s)] *)
Definition test (r : regex) (s : txt) : bool :=
  match exec r s with Some _ => true | None => false end.

(** [s.match(re)[i]] for a pattern without the g flag. *)
Definition group (r : regex) (i : nat) (s : txt) : option txt :=
  match exec r s with
  | Some (_, st') => cap i (caps st')
  | None => None
  end.

(** What a pattern reports at index [p] for the remaining subject [s]: the
    captures and the length of the match. *)
Definition matcher : Type := nat -> txt -> option (list (nat * txt) * nat).

Definition match_at (r : regex) : matcher := fun p s =>
  match at_pos r p s with
  | Some st' => Some (caps st', pos st' - p)
  | None => None
  end.

(** The loop of a global replacement.  [f] receives the captures and the
    matched text; [skip] counts the code units of the subject that belong to
    the match just replaced.  After an empty match the next attempt is one
    code unit further, as [lastIndex] is advanced. *)
Fixpoint scan (m : matcher) (f : list (nat * txt) -> txt -> txt)
    (skip p : nat) (s : txt) : txt :=
  match s with
  | [] =>
      match skip with
      | 0 => match m p [] with
             | Some (cs, _) => f cs []
             | None => []
             end
      | S _ => []
      end
  | c :: t =>
      match skip with
      | S k => scan m f k (S p) t
      | 0 =>
          match m p s with
          | Some (cs, len) =>
              f cs (take len s) ++
                match len with
                | 0 => c :: scan m f 0 (S p) t
                | S k => scan m f k (S p) t
                end
          | None => c :: scan m f 0 (S p) t
          end
      end
  end.

(** [s.replace(re, f)] with the g flag. *)
Definition replace_all (r : regex) (f : list (nat * txt) -> txt -> txt)
    (s : txt) : txt :=
  scan (match_at r) f 0 0 s.

(** [s.replace(re, f)] without the g flag: the leftmost match only. *)
Definition replace_first (r : regex) (f : list (nat * txt) -> txt -> txt)
    (s : txt) : txt :=
  match exec r s with
  | Some (p, st') =>
      take p s ++ f (caps st') (take (pos st' - p) (drop p s)) ++ drop (pos st') s
  | None => s
  end.

(** The replacement string [''] (the empty string). *)
Definition erase_all : list (nat * txt) -> txt -> txt := fun _ _ => [].

(** [$1] in a replacement string. *)
Definition dollar (i : nat) (cs : list (nat * txt)) : txt :=
  match cap i cs with Some t => t | None => [] end.

End Rx.

(* ------------------------------------------------------------------ *)
(** ** part_000: utilities *)

(** [escapeHTML]: five global replacements in sequence. *)
Definition escapeHTML (s : txt) : txt :=
  let s1 := Rx.replace_all (Rx.Lit "&") (fun _ _ => str "&amp;") s in
  let s2 := Rx.replace_all (Rx.Lit "<") (fun _ _ => str "&lt;") s1 in
  let s3 := Rx.replace_all (Rx.Lit ">") (fun _ _ => str "&gt;") s2 in
  let s4 := Rx.replace_all (Rx.Lit1 dq) (fun _ _ => str "&quot;") s3 in
  Rx.replace_all (Rx.Lit "'") (fun _ _ => str "&#39;") s4.

(** A conlang span as the template literals of [processConlangInText] write
    it: [<span class="CLS" data-tr="PAYLOAD">VISIBLE</span>]. *)
Definition span_html (cls payload visible : txt) : txt :=
  str "<span class=" ++ [dq] ++ cls ++ [dq] ++ str " data-tr=" ++ [dq]
    ++ payload ++ [dq] ++ str ">" ++ visible ++ str "</span>".

(** [NORMALIZE_RX = /(\d+)F\1F/g] *)
Definition NORMALIZE_RX : Rx.regex :=
  Rx.seqs [Rx.Grp 1 (Rx.Plus Rx.Digit); Rx.Lit "F"; Rx.Ref 1; Rx.Lit "F"].

(** [normalizeRefs = txt => txt.replace(NORMALIZE_RX, '$1F')] *)
Definition normalizeRefs (t : txt) : txt :=
  Rx.replace_all NORMALIZE_RX (fun cs _ => Rx.dollar 1 cs ++ str "F") t.

(** The footnote mapping, a [Map] from numeral to annotation. *)
Abbreviation footmap := (gmap txt txt).

(** [/\[(\d+)F?\]|(\d+)F/g] *)
Definition MARKER_RX : Rx.regex :=
  Rx.Alt
    (Rx.seqs [Rx.Lit "["; Rx.Grp 1 (Rx.Plus Rx.Digit); Rx.Opt (Rx.Lit "F"); Rx.Lit "]"])
    (Rx.seqs [Rx.Grp 2 (Rx.Plus Rx.Digit); Rx.Lit "F"]).

(** JavaScript truthiness of a string that may be undefined. *)
Definition truthy (o : option txt) : option txt :=
  match o with
  | Some (c :: t) => Some (c :: t)
  | _ => None
  end.

(** [a || b] on strings that may be undefined, when the result is only
    tested for truthiness or used when truthy. *)
Definition or_else (a b : option txt) : option txt :=
  match truthy a with Some x => Some x | None => b end.

(** The replacement callback of [processConlangInText]. *)
Definition conlang_callback (footMap : footmap) (cs : list (nat * txt)) : txt :=
  let num := match or_else (Rx.cap 1 cs) (Rx.cap 2 cs) with
             | Some n => n
             | None => []
             end in
  match truthy (footMap !! num) with
  | None =>
      span_html (str "conlang missing")
                (str "[translation missing for " ++ num ++ str "]")
                (num ++ str "F")
  | Some trans =>
      span_html (str "conlang") (escapeHTML trans) (num ++ str "F")
  end.

Definition processConlangInText (text : txt) (footMap : footmap) : txt :=
  let processed :=
    Rx.replace_all NORMALIZE_RX (fun cs _ => Rx.dollar 1 cs ++ str "F") text in
  Rx.replace_all MARKER_RX (fun cs _ => conlang_callback footMap cs) processed.

(** The UI pass of the main loop, on the inner HTML of one paragraph:
    [/\[.*?\]/] guards, [/\[([^\]]+)\]/g] is replaced by a callback whose
    result is inserted as it is (a replacement function's result is not
    scanned for [$1]). *)
Definition UI_GUARD_RX : Rx.regex :=
  Rx.seqs [Rx.Lit "["; Rx.StarLazy Rx.Dot; Rx.Lit "]"].

Definition UI_RX : Rx.regex :=
  Rx.seqs [Rx.Lit "[";
           Rx.Grp 1 (Rx.Plus (Rx.Chr (fun c => negb (chr_eq c "]"))));
           Rx.Lit "]"].

(** [/^\d+F?$/] *)
Definition FOOTREF_RX : Rx.regex :=
  Rx.seqs [Rx.Bol; Rx.Plus Rx.Digit; Rx.Opt (Rx.Lit "F"); Rx.Eol].

Definition ui_span_literal : txt :=
  str "<span class=" ++ [dq] ++ str "ui" ++ [dq] ++ str ">[$1]</span>".

Definition ui_callback (cs : list (nat * txt)) (matched : txt) : txt :=
  if Rx.test FOOTREF_RX (Rx.dollar 1 cs) then matched else ui_span_literal.

Definition tagUI (html : txt) : txt :=
  match html with
  | [] => html
  | _ :: _ =>
      if Rx.test UI_GUARD_RX html
      then Rx.replace_all UI_RX ui_callback html
      else html
  end.

(* ------------------------------------------------------------------ *)
(** ** converter.js: artifacts *)

(** [/(\d+)F\1F(?:\[\d+\])?/g] *)
Definition ARTIFACT_RX : Rx.regex :=
  Rx.seqs [Rx.Grp 1 (Rx.Plus Rx.Digit); Rx.Lit "F"; Rx.Ref 1; Rx.Lit "F";
           Rx.Opt (Rx.seqs [Rx.Lit "["; Rx.Plus Rx.Digit; Rx.Lit "]"])].

(** What a pass over the text nodes does with one of them: it leaves the
    node as it is, or it calls [replaceWith] on it with a string, which
    cheerio parses as HTML and puts in the place of the node. *)
Inductive node_edit : Type :=
  | Untouched
  | ReplaceWith (markup : txt).

(** [original.replace(pattern, '')], the value [cleaned]. *)
Definition cleaned (original : txt) : txt :=
  Rx.replace_all ARTIFACT_RX Rx.erase_all original.

(** [cleanupArtifacts] on one text node whose text is [original]: the
    callback of [each], with [if (cleaned !== original)] and the call
    [$(this).replaceWith(cleaned)]. *)
Definition cleanupArtifacts (original : txt) : node_edit :=
  if decide (cleaned original = original) then Untouched
  else ReplaceWith (cleaned original).

(* ------------------------------------------------------------------ *)
(** ** The parsed document

    What cheerio hands to the code: text nodes and elements with a tag name
    (lower case), the [id] and [class] attributes when present, and children
    in document order.  A document is the list of the children of [body]. *)

Unset Elimination Schemes.
Inductive node : Type :=
| TextN (data : txt)
| Elem (tag : txt) (id cls : option txt) (kids : list node).
Set Elimination Schemes.

(** [$(el).text()] *)
Fixpoint text (n : node) : txt :=
  match n with
  | TextN d => d
  | Elem _ _ _ ks => flat_map text ks
  end.

Definition texts (ns : list node) : txt := flat_map text ns.

Definition txt_eqb (a b : txt) : bool := bool_decide (a = b).

Fixpoint starts_with (p s : txt) : bool :=
  match p, s with
  | [], _ => true
  | a :: p', b :: s' => chr_eq a b && starts_with p' s'
  | _ :: _, [] => false
  end.

(** [s.includes(sub)] *)
Fixpoint includes (sub s : txt) : bool :=
  starts_with sub s ||
  match s with
  | [] => false
  | _ :: t => includes sub t
  end.

(** Attribute selectors [[a^="v"]] and [[a*="v"]]. *)
Definition attr_prefix (v : string) (a : option txt) : bool :=
  match a with Some x => starts_with (str v) x | None => false end.

Definition attr_contains (v : string) (a : option txt) : bool :=
  match a with Some x => includes (str v) x | None => false end.

(** The words of a [class] attribute. *)
Fixpoint words_go (cur : txt) (s : txt) : list txt :=
  match s with
  | [] => match cur with [] => [] | _ :: _ => [rev cur] end
  | c :: t =>
      if is_space c
      then match cur with [] => words_go [] t | _ :: _ => rev cur :: words_go [] t end
      else words_go (c :: cur) t
  end.

(** The class selector [.name]. *)
Definition has_class (name : string) (a : option txt) : bool :=
  match a with
  | Some x => existsb (txt_eqb (str name)) (words_go [] x)
  | None => false
  end.

Definition tag_is (name : string) (t : txt) : bool := txt_eqb (str name) t.

(** A selector, as a test on the tag and the two attributes. *)
Definition selector : Type := txt -> option txt -> option txt -> bool.

(** [$(selector)]: the matching elements of a document, in document order,
    each with the text of its parent. *)
Fixpoint select_in (sel : selector) (parentText : txt) (n : node)
  : list (node * txt) :=
  match n with
  | TextN _ => []
  | Elem t i c ks =>
      (if sel t i c then [(n, parentText)] else [])
        ++ flat_map (select_in sel (flat_map text ks)) ks
  end.

Definition select (sel : selector) (doc : list node) : list node :=
  map fst (flat_map (select_in sel (texts doc)) doc).

Definition select_with_parent (sel : selector) (doc : list node)
  : list (node * txt) :=
  flat_map (select_in sel (texts doc)) doc.

(** [$el.find(selector)]: matching descendants, the element itself apart. *)
Definition find (sel : selector) (n : node) : list node :=
  match n with
  | TextN _ => []
  | Elem _ _ _ ks => select sel ks
  end.

Definition attr_id (n : node) : txt :=
  match n with
  | Elem _ (Some i) _ _ => i
  | _ => []
  end.

(* ------------------------------------------------------------------ *)
(** ** part_000: footnote discovery *)

(** [/(\d+)/] *)
Definition ID_NUM_RX : Rx.regex := Rx.Grp 1 (Rx.Plus Rx.Digit).

Definition space_dot_paren (c : ascii) : bool :=
  is_space c || chr_eq c "." || chr_eq c ")".

(** [/^(\d+)[\s\.\)]/] *)
Definition LEAD_NUM_RX : Rx.regex :=
  Rx.seqs [Rx.Bol; Rx.Grp 1 (Rx.Plus Rx.Digit); Rx.Chr space_dot_paren].

(** [/\[(\d+)\]|^(\d+)$/] *)
Definition REF_NUM_RX : Rx.regex :=
  Rx.Alt (Rx.seqs [Rx.Lit "["; Rx.Grp 1 (Rx.Plus Rx.Digit); Rx.Lit "]"])
         (Rx.seqs [Rx.Bol; Rx.Grp 2 (Rx.Plus Rx.Digit); Rx.Eol]).

(** [/^[\[\(]?\d+[\]\)]?[\s\.\)]*/] *)
Definition STRIP_NUM_RX : Rx.regex :=
  Rx.seqs [Rx.Bol;
           Rx.Opt (Rx.Chr (fun c => chr_eq c "[" || chr_eq c "("));
           Rx.Plus Rx.Digit;
           Rx.Opt (Rx.Chr (fun c => chr_eq c "]" || chr_eq c ")"));
           Rx.Star (Rx.Chr space_dot_paren)].

(** [/^\d+\s*/] *)
Definition STRIP_PLAIN_RX : Rx.regex :=
  Rx.seqs [Rx.Bol; Rx.Plus Rx.Digit; Rx.Star Rx.Space].

(** [/^\d+$/] *)
Definition ALL_DIGITS_RX : Rx.regex :=
  Rx.seqs [Rx.Bol; Rx.Plus Rx.Digit; Rx.Eol].

(** [new RegExp(`${num}[\\s\\.:]*(.+)`)], for a [num] made of digits. *)
Definition NEARBY_RX (num : txt) : Rx.regex :=
  Rx.seqs [Rx.seqs (map Rx.Lit1 num);
           Rx.Star (Rx.Chr (fun c => is_space c || chr_eq c "." || chr_eq c ":"));
           Rx.Grp 1 (Rx.Plus Rx.Dot)].

(** The selectors of [parseAndCleanFootnotes]. *)
Definition footnoteSections : selector := fun t i c =>
  (tag_is "div" t && attr_contains "footnote" i)
  || (tag_is "div" t && attr_contains "footnote" c)
  || (tag_is "section" t && attr_contains "footnote" i)
  || (tag_is "section" t && attr_contains "footnote" c).

Definition sel_p_div_span : selector := fun t _ _ =>
  tag_is "p" t || tag_is "div" t || tag_is "span" t.

Definition sel_footnote_ref_sup : selector := fun t _ c =>
  has_class "footnote-ref" c || tag_is "sup" t.

(** [map.set(num, text)] when the callback reaches it, nothing otherwise. *)
Definition set_entry (map : footmap) (e : option (txt * txt)) : footmap :=
  match e with
  | Some (num, text) => <[num := text]> map
  | None => map
  end.

(** The body of the inner [each] of [parseAndCleanFootnotes]: the entry one
    child of a footnote section writes, if any. *)
Definition child_entry (el : node) : option (txt * txt) :=
  let text := trim (text el) in
  let idMatch := Rx.group ID_NUM_RX 1 (attr_id el) in
  let textMatch := Rx.group LEAD_NUM_RX 1 text in
  match or_else idMatch textMatch with
  | Some num =>
      let cleanText := trim (Rx.replace_first STRIP_NUM_RX Rx.erase_all text) in
      match cleanText with
      | [] => None
      | _ :: _ => Some (num, cleanText)
      end
  | None => None
  end.

Definition scan_child (footnotes : footmap) (el : node) : footmap :=
  set_entry footnotes (child_entry el).

(** The body of the outer [each]: scan the children of one section. *)
Definition scan_section (footnotes : footmap) (section : node) : footmap :=
  foldl scan_child footnotes (find sel_p_div_span section).

(** [$section.remove()] for every selected section. *)
Fixpoint remove_sections (n : node) : list node :=
  match n with
  | TextN d => [TextN d]
  | Elem t i c ks =>
      if footnoteSections t i c then []
      else [Elem t i c (flat_map remove_sections ks)]
  end.

(** The second [each]: a [.footnote-ref] or [sup] whose trimmed text is a
    numeral is replaced by the text [[nF]]. *)
Fixpoint replace_refs (n : node) : node :=
  match n with
  | TextN d => TextN d
  | Elem t i c ks =>
      if sel_footnote_ref_sup t i c && Rx.test ALL_DIGITS_RX (trim (flat_map text ks))
      then TextN (str "[" ++ trim (flat_map text ks) ++ str "F]")
      else Elem t i c (map replace_refs ks)
  end.

(** [parseAndCleanFootnotes]: the cleaned document and the footnotes found
    in the footnote sections. *)
Definition parseAndCleanFootnotes (doc : list node) : list node * footmap :=
  let footnotes := foldl scan_section ∅ (select footnoteSections doc) in
  let removed := flat_map remove_sections doc in
  (map replace_refs removed, footnotes).

(** The ten selectors of [extractFootnotes], joined. *)
Definition footnoteSelectors : selector := fun t i c =>
  attr_prefix "footnote-" i
  || attr_prefix "sdfootnote" i
  || attr_prefix "_ftn" i
  || attr_prefix "fn" i
  || has_class "footnote" c
  || has_class "MsoFootnoteText" c
  || attr_contains "footnote" c
  || (tag_is "div" t && attr_contains "footnote" i)
  || (tag_is "p" t && attr_contains "footnote" i)
  || (tag_is "span" t && attr_contains "footnote" i).

Definition sel_sup_sub : selector := fun t _ _ => tag_is "sup" t || tag_is "sub" t.

(** The body of the first [each] of [extractFootnotes]: the entry one
    selected element writes, if any. *)
Definition footnote_entry (el : node) : option (txt * txt) :=
  let id := attr_id el in
  let text := trim (text el) in
  let num1 := match id with
              | [] => None
              | _ :: _ => Rx.group ID_NUM_RX 1 id
              end in
  let num2 := match truthy num1 with
              | Some n => Some n
              | None => Rx.group LEAD_NUM_RX 1 text
              end in
  let num3 := match truthy num2 with
              | Some n => Some n
              | None => or_else (Rx.group REF_NUM_RX 1 text) (Rx.group REF_NUM_RX 2 text)
              end in
  match truthy num3, text with
  | Some num, _ :: _ =>
      let cleanText :=
        trim (Rx.replace_first STRIP_PLAIN_RX Rx.erase_all
                (Rx.replace_first STRIP_NUM_RX Rx.erase_all text)) in
      match cleanText with
      | [] => None
      | _ :: _ => Some (num, cleanText)
      end
  | _, _ => None
  end.

Definition scan_footnote (map : footmap) (el : node) : footmap :=
  set_entry map (footnote_entry el).

(** The body of the second [each] of [extractFootnotes]: the entry a [sup]
    or [sub] writes, if any; [elp.2] is the text of its parent. *)
Definition supsub_entry (elp : node * txt) : option (txt * txt) :=
  let text := trim (text elp.1) in
  if Rx.test ALL_DIGITS_RX text then
    let num := text in
    match Rx.group (NEARBY_RX num) 1 elp.2 with
    | Some m => Some (num, trim m)
    | None => None
    end
  else None.

Definition scan_supsub (map : footmap) (elp : node * txt) : footmap :=
  set_entry map (supsub_entry elp).

Definition extractFootnotes (doc : list node) : footmap :=
  let map := foldl scan_footnote ∅ (select footnoteSelectors doc) in
  foldl scan_supsub map (select_with_parent sel_sup_sub doc).

(** [new Map(entries)] *)
Definition Map_of_entries (entries : list (txt * txt)) : footmap :=
  foldl (fun m kv => <[kv.1 := kv.2]> m) ∅ entries.

(** The footnote map of the main pipeline:
    [new Map([...extractedFootnotes, ...additionalFootnotes])]. *)
Definition footMap_of (rawDoc : list node) : footmap :=
  let '(cleaned, extractedFootnotes) := parseAndCleanFootnotes rawDoc in
  let additionalFootnotes := extractFootnotes cleaned in
  Map_of_entries (map_to_list extractedFootnotes ++ map_to_list additionalFootnotes).

(* ------------------------------------------------------------------ *)
(** ** part_000: chapters *)

Definition is_alpha (c : ascii) : bool := is_upper c || is_lower c.

(** [/chapter\s+(\d+|[a-z]+)/i] *)
Definition CHAPTER_MATCH_RX : Rx.regex :=
  Rx.seqs [Rx.LitCi "chapter"; Rx.Plus Rx.Space;
           Rx.Grp 1 (Rx.Alt (Rx.Plus Rx.Digit) (Rx.Plus (Rx.Chr is_alpha)))].

(** [/^(\d+)\s*[:.–-]?\s*.*/]; of the class only [:], [.] and [-] are code
    units of the model (the en dash is U+2013). *)
Definition NUMBER_MATCH_RX : Rx.regex :=
  Rx.seqs [Rx.Bol; Rx.Grp 1 (Rx.Plus Rx.Digit); Rx.Star Rx.Space;
           Rx.Opt (Rx.Chr (fun c => chr_eq c ":" || chr_eq c "." || chr_eq c "-"));
           Rx.Star Rx.Space; Rx.Star Rx.Dot].

(** One entry of the array [parseChapters] returns; [sec_content] holds the
    cloned siblings, which the source keeps written out as HTML. *)
Record section : Type := Section_ {
  sec_title : txt;
  isChapter : bool;
  chapterNum : option txt;
  sec_heading : node;
  sec_content : list node;
  sec_index : nat
}.

(** The classification at the head of the [forEach] of [parseChapters]. *)
Definition classify_title (titleText : txt) : bool * option txt :=
  let chapterMatch := Rx.group CHAPTER_MATCH_RX 1 titleText in
  let '(isChapter, chapterNum) :=
    match Rx.exec CHAPTER_MATCH_RX titleText with
    | Some _ => (true, chapterMatch)
    | None => (false, None)
    end in
  match Rx.exec NUMBER_MATCH_RX titleText with
  | Some (_, st') =>
      if negb isChapter then (true, Rx.cap 1 (Rx.caps st')) else (isChapter, chapterNum)
  | None => (isChapter, chapterNum)
  end.

Definition is_h1h2 (n : node) : bool :=
  match n with
  | Elem t _ _ _ => tag_is "h1" t || tag_is "h2" t
  | TextN _ => false
  end.

Definition is_elem (n : node) : bool :=
  match n with Elem _ _ _ _ => true | TextN _ => false end.

(** The [while] loop: the element siblings after the heading, up to the
    next [h1] or [h2] ([next()] steps over text nodes). *)
Fixpoint collect_content (after : list node) : list node :=
  match after with
  | [] => []
  | n :: after' =>
      if is_elem n
      then if is_h1h2 n then [] else n :: collect_content after'
      else collect_content after'
  end.

(** [$('h1, h2').toArray()], each heading with the siblings after it. *)
Fixpoint headings_in (n : node) (after : list node) : list (node * list node) :=
  match n with
  | TextN _ => []
  | Elem _ _ _ ks =>
      (if is_h1h2 n then [(n, after)] else [])
        ++ (fix walk (l : list node) : list (node * list node) :=
              match l with
              | [] => []
              | k :: l' => headings_in k l' ++ walk l'
              end) ks
  end.

Fixpoint headings (doc : list node) : list (node * list node) :=
  match doc with
  | [] => []
  | n :: doc' => headings_in n doc' ++ headings doc'
  end.

Fixpoint sections_from (index : nat) (hs : list (node * list node)) : list section :=
  match hs with
  | [] => []
  | (heading, after) :: hs' =>
      let titleText := trim (text heading) in
      let '(isCh, num) := classify_title titleText in
      Section_ titleText isCh num heading (collect_content after) index
        :: sections_from (S index) hs'
  end.

Definition parseChapters (doc : list node) : list section :=
  match sections_from 0 (headings doc) with
  | [] =>
      [Section_ (str "Full Document") false None
                (Elem (str "h1") None None [TextN (str "Full Document")])
                doc 0]
  | chapters => chapters
  end.

(** The decimal digits of an index, as a template literal writes them. *)
Definition nat_to_txt (n : nat) : txt :=
  str (NilEmpty.string_of_uint (Nat.to_uint n)).

(** [generateId(chapter, index)] *)
Definition generateId (chapter : section) (index : nat) : txt :=
  match truthy (chapterNum chapter) with
  | Some num => str "chapter-" ++ num
  | None =>
      let lowerTitle := toLowerCase (sec_title chapter) in
      if includes (str "preface") lowerTitle then str "preface"
      else if includes (str "prologue") lowerTitle then str "prologue"
      else if includes (str "epilogue") lowerTitle then str "epilogue"
      else if includes (str "acknowledgment") lowerTitle then str "acknowledgments"
      else if includes (str "dedication") lowerTitle then str "dedication"
      else if includes (str "contents") lowerTitle then str "toc"
      else if index =? 0 then str "front-matter"
      else str "section-" ++ nat_to_txt index
  end.

(* ------------------------------------------------------------------ *)
(** ** converter.js: extractDocumentStructure *)

Inductive tagname : Type := H1 | H2 | H3 | P | OtherTag.

(** One element of the flat stream under [body]: its tag, [$(el).text()]
    and [$(el).html()]. *)
Record block : Type := Block { b_tag : tagname; b_text : txt; b_html : txt }.

(** [$(el).prop('tagName').toLowerCase()]; an [OtherTag] is never selected,
    its name is not used. *)
Definition tag_lower (t : tagname) : txt :=
  match t with
  | H1 => str "h1" | H2 => str "h2" | H3 => str "h3" | P => str "p"
  | OtherTag => str "div"
  end.

(** [$('h1, h2, h3, p')] *)
Definition selected (b : block) : bool :=
  match b_tag b with H1 | H2 | H3 | P => true | OtherTag => false end.

(** [$(el).is('h1, h2')] and [$(el).is('h1')] *)
Definition is_h1_h2 (b : block) : bool :=
  match b_tag b with H1 | H2 => true | _ => false end.
Definition is_h1 (b : block) : bool :=
  match b_tag b with H1 => true | _ => false end.

(** [/appendix|one pagers|persons of interest|charts, maps/i] *)
Definition APPENDIX_RX : Rx.regex :=
  Rx.Alt (Rx.LitCi "appendix")
    (Rx.Alt (Rx.LitCi "one pagers")
       (Rx.Alt (Rx.LitCi "persons of interest") (Rx.LitCi "charts, maps"))).

(** [/chapter\s+\w+/i] *)
Definition CHAPTER_RX : Rx.regex :=
  Rx.seqs [Rx.LitCi "chapter"; Rx.Plus Rx.Space; Rx.Plus Rx.Word].

(** [/chapter\s+(\w+(?:-\w+)?)/i] *)
Definition CHAPTER_NUM_RX : Rx.regex :=
  Rx.seqs [Rx.LitCi "chapter"; Rx.Plus Rx.Space;
           Rx.Grp 1 (Rx.Seq (Rx.Plus Rx.Word)
                            (Rx.Opt (Rx.Seq (Rx.Lit "-") (Rx.Plus Rx.Word))))].

(** [/chapter\s+/i] *)
Definition CHAPTER_WORD_RX : Rx.regex :=
  Rx.seqs [Rx.LitCi "chapter"; Rx.Plus Rx.Space].

(** [/book\s+\w+/i] *)
Definition BOOK_RX : Rx.regex :=
  Rx.seqs [Rx.LitCi "book"; Rx.Plus Rx.Space; Rx.Plus Rx.Word].

(** [/\[(\d+)\]/] *)
Definition BRACKET_ID_RX : Rx.regex :=
  Rx.seqs [Rx.Lit "["; Rx.Grp 1 (Rx.Plus Rx.Digit); Rx.Lit "]"].

Record item : Type := Item { type : txt; html : txt }.

Record chapter : Type := Chapter {
  ch_title : txt; ch_id : txt; numericId : txt; referenceId : txt;
  ch_content : list item
}.

Record appendix : Type := Appendix {
  ap_title : txt; ap_id : txt; ap_content : list item
}.

(** A book holds its chapters by reference: positions in [chapters]. *)
Record book : Type := Book { bk_title : txt; bk_chapters : list nat }.

(** The [structure] object; its [title], read from the [title] element,
    takes no part in the partition and is left out. *)
Record structure : Type := Structure {
  frontMatter : list item;
  books : list book;
  chapters : list chapter;
  appendices : list appendix
}.

(** The variables of the loop. *)
Record pstate : Type := PState {
  st_structure : structure;
  currentBook : option nat;
  inFrontMatter : bool
}.

Definition item_of (b : block) : item := Item (tag_lower (b_tag b)) (b_html b).

(** [xs[xs.length - 1].content.push(it)] *)
Fixpoint on_last {A : Type} (f : A -> A) (xs : list A) : list A :=
  match xs with
  | [] => []
  | [x] => [f x]
  | x :: xs' => x :: on_last f xs'
  end.

Definition push_chapter_content (it : item) (c : chapter) : chapter :=
  Chapter (ch_title c) (ch_id c) (numericId c) (referenceId c) (ch_content c ++ [it]).

Definition push_appendix_content (it : item) (a : appendix) : appendix :=
  Appendix (ap_title a) (ap_id a) (ap_content a ++ [it]).

Definition push_book_chapter (k : nat) (b : book) : book :=
  Book (bk_title b) (bk_chapters b ++ [k]).

Fixpoint on_nth {A : Type} (n : nat) (f : A -> A) (xs : list A) : list A :=
  match xs, n with
  | [], _ => []
  | x :: xs', 0 => f x :: xs'
  | x :: xs', S n' => x :: on_nth n' f xs'
  end.

(** [text.toLowerCase().replace(/[\s,]/g, '-').replace(/[^\w-]/g, '')] *)
Definition appendixId (text : txt) : txt :=
  Rx.replace_all (Rx.Chr (fun c => negb (is_word c || chr_eq c "-"))) Rx.erase_all
    (Rx.replace_all (Rx.Chr (fun c => is_space c || chr_eq c ","))
       (fun _ _ => str "-") (toLowerCase text)).

(** The [chapterNum] of a chapter heading, by the [if]/[else] of the source. *)
Definition chapterNum_of (text : txt) : txt :=
  if Rx.test CHAPTER_NUM_RX text
  then match Rx.group CHAPTER_NUM_RX 1 text with Some n => n | None => [] end
  else trim (Rx.replace_first CHAPTER_WORD_RX Rx.erase_all text).

(** [`chapter-${chapterNum.toLowerCase().replace(/\s+/g, '-')}`] *)
Definition chapterId_of (chapterNum : txt) : txt :=
  str "chapter-" ++
    Rx.replace_all (Rx.Plus Rx.Space) (fun _ _ => str "-") (toLowerCase chapterNum).

(** The callback of [$('h1, h2, h3, p').each]; [prev] is [$(el).prev()]. *)
Definition step (prev : option block) (el : block) (s : pstate) : pstate :=
  let st := st_structure s in
  let text := trim (b_text el) in
  if is_h1_h2 el && Rx.test APPENDIX_RX text then
    let appendix := Appendix text (str "appendix-" ++ appendixId text) [] in
    PState (Structure (frontMatter st) (books st) (chapters st)
                      (appendices st ++ [appendix]))
           (currentBook s) false
  else if is_h1_h2 el && Rx.test CHAPTER_RX text then
    let chapterNum := chapterNum_of text in
    let referenceId :=
      match Rx.group BRACKET_ID_RX 1 (b_html el) with Some i => i | None => [] end in
    let chapter := Chapter text (chapterId_of chapterNum) chapterNum referenceId [] in
    let k := length (chapters st) in
    let '(books1, currentBook1) :=
      match books st with
      | [] => ([Book (str "Book One") []], Some 0)
      | _ :: _ => (books st, currentBook s)
      end in
    let books2 :=
      match currentBook1 with
      | Some i => on_nth i (push_book_chapter k) books1
      | None => books1
      end in
    PState (Structure (frontMatter st) books2 (chapters st ++ [chapter]) (appendices st))
           currentBook1 false
  else if is_h1 el && Rx.test BOOK_RX text then
    PState (Structure (frontMatter st) (books st ++ [Book text []]) (chapters st)
                      (appendices st))
           (Some (length (books st))) false
  else if inFrontMatter s then
    PState (Structure (frontMatter st ++ [item_of el]) (books st) (chapters st)
                      (appendices st))
           (currentBook s) (inFrontMatter s)
  else
    let to_appendix :=
      PState (Structure (frontMatter st) (books st) (chapters st)
                        (on_last (push_appendix_content (item_of el)) (appendices st)))
             (currentBook s) (inFrontMatter s) in
    let to_chapter :=
      PState (Structure (frontMatter st) (books st)
                        (on_last (push_chapter_content (item_of el)) (chapters st))
                        (appendices st))
             (currentBook s) (inFrontMatter s) in
    match appendices st, chapters st with
    | _ :: _, [] => to_appendix
    | _ :: _, _ :: _ =>
        let inAppendixSection :=
          match prev with
          | Some lastEl => Rx.test APPENDIX_RX (trim (b_text lastEl))
          | None => false
          end in
        if inAppendixSection then to_appendix else to_chapter
    | [], _ :: _ => to_chapter
    | [], [] => s
    end.

(** The loop over the stream; a block that is not selected is only seen as
    the previous sibling of the next one. *)
Fixpoint each (prev : option block) (els : list block) (s : pstate) : pstate :=
  match els with
  | [] => s
  | el :: els' => each (Some el) els' (if selected el then step prev el s else s)
  end.

Definition extractDocumentStructure (body : list block) : structure :=
  st_structure (each None body (PState (Structure [] [] [] []) None true)).

(* ------------------------------------------------------------------ *)
(** * Further parts of the two converters

    - [src/converter.js]: [escapeRegExp], [processImageReferences] and the
      functions that write the pages ([generateFrontMatterHtml],
      [generateChapterHtml], [generateAppendixHtml], [generateHtmlFiles]),
      up to the call of [generateHtmlTemplate];
    - [src/unnamed/part_000]: the image callback of [docxToHtml] and the
      pass of the main loop on image paths. *)

From Stdlib Require Import DecimalNat.

(* ------------------------------------------------------------------ *)
(** ** converter.js: image references *)

(** The class [[.*+?^${}()|[\]\\]] of [escapeRegExp]. *)
Definition is_regexp_special (c : ascii) : bool :=
  existsb (chr_eq c) (str ".*+?^${}()|[]\").

(** [escapeRegExp]: [string.replace(/[.*+?^${}()|[\]\\]/g, '\\$&')]; the
    replacement is a backslash followed by the matched code unit. *)
Definition escapeRegExp (s : txt) : txt :=
  Rx.replace_all (Rx.Chr is_regexp_special) (fun _ matched => str "\" ++ matched) s.

(** The text a pattern source matches literally when every special code
    unit of it is escaped: an escaped code unit stands for itself, like any
    other. *)
Fixpoint unescape (source : txt) : txt :=
  match source with
  | [] => []
  | c :: t =>
      if chr_eq c "\" then
        match t with
        | [] => []
        | x :: t' => x :: unescape t'
        end
      else c :: unescape t
  end.

(** [new RegExp(source, 'g')] for such a source. *)
Definition RegExp_escaped (source : txt) : Rx.regex :=
  Rx.seqs (map Rx.Lit1 (unescape source)).

(** [GetSubstitution] for a pattern without groups: in a replacement
    string [$$] is a dollar, [$&] the matched text, [$`] the text before the
    match and [$'] the text after it; every other code unit, a dollar
    before a digit too, stands for itself. *)
Fixpoint expand (replacement matched before after : txt) : txt :=
  match replacement with
  | [] => []
  | c :: r =>
      if chr_eq c "$" then
        match r with
        | [] => [c]
        | x :: r' =>
            if chr_eq x "$" then x :: expand r' matched before after
            else if chr_eq x "&" then matched ++ expand r' matched before after
            else if chr_eq x "`" then before ++ expand r' matched before after
            else if chr_eq x "'" then after ++ expand r' matched before after
            else c :: expand r matched before after
        end
      else c :: expand r matched before after
  end.

(** The loop of [subject.replace(re, replacement)] with the g flag, for a
    pattern without groups and a replacement string; as [Rx.scan], with
    the whole subject at hand for the text before a match. *)
Fixpoint scan_string (m : Rx.matcher) (replacement subject : txt)
    (skip p : nat) (s : txt) : txt :=
  match s with
  | [] =>
      match skip with
      | 0 => match m p [] with
             | Some _ => expand replacement [] subject []
             | None => []
             end
      | S _ => []
      end
  | c :: t =>
      match skip with
      | S k => scan_string m replacement subject k (S p) t
      | 0 =>
          match m p s with
          | Some (_, len) =>
              expand replacement (take len s) (take p subject) (drop len s) ++
                match len with
                | 0 => c :: scan_string m replacement subject 0 (S p) t
                | S k => scan_string m replacement subject k (S p) t
                end
          | None => c :: scan_string m replacement subject 0 (S p) t
          end
      end
  end.

Definition replace_all_string (r : Rx.regex) (replacement subject : txt) : txt :=
  scan_string (Rx.match_at r) replacement subject 0 0 subject.

(** [/rId(\d+)/g] *)
Definition IMAGE_RX : Rx.regex :=
  Rx.seqs [Rx.Lit "rId"; Rx.Grp 1 (Rx.Plus Rx.Digit)].

(** The captures of the successive matches that
    [while ((match = re.exec(s)) !== null)] visits for a pattern with the g
    flag whose matches are never empty, as those of [IMAGE_RX]: each
    search starts where the match before ended. *)
Fixpoint exec_all (m : Rx.matcher) (skip p : nat) (s : txt)
  : list (list (nat * txt)) :=
  match s with
  | [] => []
  | c :: t =>
      match skip with
      | S k => exec_all m k (S p) t
      | 0 =>
          match m p s with
          | Some (cs, S k) => cs :: exec_all m k (S p) t
          | Some (_, 0) => []
          | None => exec_all m 0 (S p) t
          end
      end
  end.

(** The image tag of the template literal. *)
Definition img_html (file imageId : txt) : txt :=
  str "<img src=" ++ [dq] ++ str "../images/" ++ file ++ [dq]
    ++ str " class=" ++ [dq] ++ str "novel-image" ++ [dq]
    ++ str " alt=" ++ [dq] ++ str "Novel illustration" ++ [dq]
    ++ str " data-original-id=" ++ [dq] ++ imageId ++ [dq] ++ str ">".

(** The body of the [while] loop for one match; [imageMap] is a plain
    object from relationship identifier to file name. *)
Definition image_step (imageMap : gmap txt txt) (processedHtml : txt)
    (cs : list (nat * txt)) : txt :=
  let imageId := str "rId" ++ Rx.dollar 1 cs in
  match truthy (imageMap !! imageId) with
  | Some file =>
      replace_all_string (RegExp_escaped (escapeRegExp imageId))
        (img_html file imageId) processedHtml
  | None => processedHtml
  end.

(** [processImageReferences(html, imageMap)]; the map may be missing. *)
Definition processImageReferences (html : txt) (imageMap : option (gmap txt txt))
  : txt :=
  match imageMap with
  | Some m => foldl (image_step m) html (exec_all (Rx.match_at IMAGE_RX) 0 0 html)
  | None => html
  end.

(* ------------------------------------------------------------------ *)
(** ** part_000: images *)

(** [s.split(sep)] for a separator of one code unit. *)
Fixpoint split_on (sep : ascii) (cur : txt) (s : txt) : list txt :=
  match s with
  | [] => [rev cur]
  | c :: t =>
      if chr_eq c sep then rev cur :: split_on sep [] t
      else split_on sep (c :: cur) t
  end.

(** [image.contentType.split('/')[1] || 'png'] *)
Definition image_ext (contentType : txt) : txt :=
  match truthy (split_on "/" [] contentType !! 1) with
  | Some ext => ext
  | None => str "png"
  end.

(** The callback [docxToHtml] gives to [mammoth.images.imgElement], with
    the counter it shares: the new value of the counter, the name of the
    image file and the [src] of the image element. *)
Definition convertImage (value : nat) (contentType : txt) : nat * (txt * txt) :=
  let ext := image_ext contentType in
  let value' := S value in
  let imgName := str "img-" ++ nat_to_txt value' ++ str "." ++ ext in
  (value', (imgName, str "./images/" ++ imgName)).

(** The images of one document, converted in order from a counter at 0:
    the content type of each, its file name and its [src]. *)
Fixpoint convertImages (value : nat) (contentTypes : list txt)
  : list (txt * txt) :=
  match contentTypes with
  | [] => []
  | ct :: cts =>
      let '(value', named) := convertImage value ct in
      named :: convertImages value' cts
  end.

(** [/^\.\.\//] *)
Definition PARENT_DIR_RX : Rx.regex := Rx.seqs [Rx.Bol; Rx.Lit "../"].

(** The pass of the main loop that fixes image paths, on the [src]
    attribute of one [img] (absent, or a text):
    [if (src && !src.startsWith('http'))
       $img.attr('src', src.replace(/^\.\.\//, './'))]. *)
Definition fix_src (src : option txt) : option txt :=
  match truthy src with
  | Some s =>
      if starts_with (str "http") s then src
      else Some (Rx.replace_first PARENT_DIR_RX (fun _ _ => str "./") s)
  | None => src
  end.

(* ------------------------------------------------------------------ *)
(** ** converter.js: the pages

    The functions that write the pages build the content of each page and
    its navigation links, hand them to [generateHtmlTemplate] and write
    the result to a file under [outputDir].  A [page] holds what the
    template receives and the place of the file: the arguments of
    [path.join] after [outputDir].  The title of the structure, which the
    record [structure] leaves out, is a parameter. *)

Record page : Type := Page {
  pg_path : list txt;
  pg_title : txt;
  pg_content : txt;
  pg_chapter : option chapter;
  pg_appendix : option appendix;
  nav_prev : option txt;
  nav_next : option txt
}.

(** [<TAG class="CLS">INNER</TAG>] *)
Definition element_html (tag cls inner : txt) : txt :=
  str "<" ++ tag ++ str " class=" ++ [dq] ++ cls ++ [dq] ++ str ">"
    ++ inner ++ str "</" ++ tag ++ str ">".

(** The body of the loop of [generateFrontMatterHtml]. *)
Definition front_item (it : item) : txt :=
  if txt_eqb (type it) (str "h1") || txt_eqb (type it) (str "h2")
     || txt_eqb (type it) (str "h3")
  then element_html (type it) (str "front-matter-heading") (html it)
  else element_html (str "p") (str "front-matter-item") (html it).

Definition generateFrontMatterHtml (title : txt) (s : structure) : page :=
  let contentHtml :=
    str "<div class=" ++ [dq] ++ str "front-matter" ++ [dq] ++ str ">"
      ++ flat_map front_item (frontMatter s) ++ str "</div>" in
  Page [str "index.html"] title contentHtml None None
       None
       (match chapters s with
        | c :: _ => Some (str "chapters/" ++ ch_id c ++ str ".html")
        | [] => None
        end).

(** The body of the loops of [generateChapterHtml] and
    [generateAppendixHtml]; [cls] is the class of a heading. *)
Definition section_item (cls : txt) (imageMap : option (gmap txt txt)) (it : item)
  : txt :=
  let processedHtml := processImageReferences (html it) imageMap in
  if txt_eqb (type it) (str "h2") || txt_eqb (type it) (str "h3")
  then element_html (type it) cls processedHtml
  else str "<p>" ++ processedHtml ++ str "</p>".

Definition generateChapterHtml (title : txt) (ch : chapter) (s : structure)
    (imageMap : option (gmap txt txt)) (prevChapter nextChapter : option chapter)
  : page :=
  let contentHtml :=
    element_html (str "h1") (str "chapter-title") (ch_title ch)
      ++ flat_map (section_item (str "chapter-heading") imageMap) (ch_content ch) in
  Page [str "chapters"; ch_id ch ++ str ".html"]
       (ch_title ch ++ str " - " ++ title) contentHtml (Some ch) None
       (Some match prevChapter with
             | Some p => ch_id p ++ str ".html"
             | None => str "../index.html"
             end)
       (Some match nextChapter with
             | Some n => ch_id n ++ str ".html"
             | None =>
                 match appendices s with
                 | a :: _ => str "../appendices/" ++ ap_id a ++ str ".html"
                 | [] => str "../index.html"
                 end
             end).

Definition generateAppendixHtml (title : txt) (ap : appendix) (s : structure)
    (imageMap : option (gmap txt txt)) (prevAppendix nextAppendix : option appendix)
  : page :=
  let contentHtml :=
    element_html (str "h1") (str "appendix-title") (ap_title ap)
      ++ flat_map (section_item (str "appendix-heading") imageMap) (ap_content ap) in
  let lastChapter := last (chapters s) in
  Page [str "appendices"; ap_id ap ++ str ".html"]
       (ap_title ap ++ str " - " ++ title) contentHtml None (Some ap)
       (Some match prevAppendix with
             | Some p => ap_id p ++ str ".html"
             | None =>
                 match lastChapter with
                 | Some c => str "../chapters/" ++ ch_id c ++ str ".html"
                 | None => str "../index.html"
                 end
             end)
       (Some match nextAppendix with
             | Some n => ap_id n ++ str ".html"
             | None => str "../index.html"
             end).

(** [for (let i = 0; i < xs.length; i++)] with
    [i > 0 ? xs[i - 1] : null] and [i < xs.length - 1 ? xs[i + 1] : null]:
    every element with the one before it and the one after it. *)
Fixpoint with_neighbours {A : Type} (before : option A) (xs : list A)
  : list (option A * A * option A) :=
  match xs with
  | [] => []
  | x :: rest => (before, x, head rest) :: with_neighbours (Some x) rest
  end.

(** [generateHtmlFiles]: the pages, in the order they are written. *)
Definition generateHtmlFiles (title : txt) (s : structure)
    (imageMap : option (gmap txt txt)) : list page :=
  generateFrontMatterHtml title s
    :: map (fun '(p, ch, n) => generateChapterHtml title ch s imageMap p n)
         (with_neighbours None (chapters s))
    ++ map (fun '(p, ap, n) => generateAppendixHtml title ap s imageMap p n)
         (with_neighbours None (appendices s)).

(* ------------------------------------------------------------------ *)
(** ** Definitions used to state the properties *)

(** The five entities [escapeHTML] emits. *)
Definition entities : list txt :=
  [str "&amp;"; str "&lt;"; str "&gt;"; str "&quot;"; str "&#39;"].

(** What [escapeHTML] makes of one code unit. *)
Definition escape1 (c : ascii) : txt :=
  if chr_eq "&" c then str "&amp;"
  else if chr_eq "<" c then str "&lt;"
  else if chr_eq ">" c then str "&gt;"
  else if chr_eq dq c then str "&quot;"
  else if chr_eq "'" c then str "&#39;"
  else [c].

(** A code unit that can neither close a quoted attribute nor open or close
    a tag. *)
Definition inert (c : ascii) : bool :=
  negb (chr_eq c "<" || chr_eq c ">" || chr_eq c dq || chr_eq c "'").

(** Every ampersand of [s] starts one of the five entities. *)
Fixpoint amp_ok (s : txt) : bool :=
  match s with
  | [] => true
  | c :: t =>
      (if chr_eq c "&" then existsb (fun e => starts_with e s) entities else true)
        && amp_ok t
  end.

(** The value of a double-quoted attribute: the text up to the next quote. *)
Fixpoint until_quote (s : txt) : txt :=
  match s with
  | [] => []
  | c :: t => if chr_eq c dq then [] else c :: until_quote t
  end.

(** The longest prefix of [s] whose code units satisfy [q]. *)
Fixpoint take_while (q : ascii -> bool) (s : txt) : txt :=
  match s with
  | [] => []
  | c :: t => if q c then c :: take_while q t else []
  end.

(** The states a greedy [q*] reaches from index [p], longest run first. *)
Fixpoint chr_star (q : ascii -> bool) (p : nat) (cs : list (nat * txt)) (s : txt)
  : list Rx.mstate :=
  match s with
  | [] => [Rx.MS p cs []]
  | c :: t =>
      if q c then chr_star q (S p) cs t ++ [Rx.MS p cs s] else [Rx.MS p cs s]
  end.

(** [NORMALIZE_RX] at the head of [s], read off the pattern: a maximal run
    of digits [d], [F], the same digits again, [F]. *)
Definition norm_at (s : txt) : option (list (nat * txt) * nat) :=
  match take_while is_digit s, drop_while is_digit s with
  | (_ :: _) as d, c1 :: r1 =>
      if chr_eq "F" c1 then
        match Rx.strip_prefix d r1 with
        | Some (c2 :: _) =>
            if chr_eq "F" c2 then Some ([(1, d)], length d + 1 + length d + 1)
            else None
        | _ => None
        end
      else None
  | _, _ => None
  end.

(** The first branch of [MARKER_RX] at the head of [s]: [[d]] or [[dF]]. *)
Definition bracket_at (s : txt) : option (list (nat * txt) * nat) :=
  match s with
  | c :: t =>
      if chr_eq "[" c then
        match take_while is_digit t, drop_while is_digit t with
        | (_ :: _) as d, c1 :: r1 =>
            if chr_eq "F" c1 then
              match r1 with
              | c2 :: _ =>
                  if chr_eq "]" c2 then Some ([(1, d)], 1 + length d + 2)
                  else None
              | [] => None
              end
            else if chr_eq "]" c1 then Some ([(1, d)], 1 + length d + 1)
            else None
        | _, _ => None
        end
      else None
  | [] => None
  end.

(** The second branch of [MARKER_RX] at the head of [s]: [dF]. *)
Definition bare_at (s : txt) : option (list (nat * txt) * nat) :=
  match take_while is_digit s, drop_while is_digit s with
  | (_ :: _) as d, c1 :: _ =>
      if chr_eq "F" c1 then Some ([(2, d)], length d + 1) else None
  | _, _ => None
  end.

Definition marker_at (s : txt) : option (list (nat * txt) * nat) :=
  match bracket_at s with
  | Some m => Some m
  | None => bare_at s
  end.

(** The replacement string ['$1F'] of the normalisation. *)
Definition norm_repl : list (nat * txt) -> txt -> txt :=
  fun cs _ => Rx.dollar 1 cs ++ str "F".

Definition no_digit (s : txt) : bool := forallb (fun c => negb (is_digit c)) s.

(** The last code unit of [s] is a digit. *)
Definition ends_with_digit (s : txt) : bool :=
  match last s with
  | Some c => is_digit c
  | None => false
  end.

(** [x] stands at the end of [s]. *)
Definition ends_with (x s : txt) : bool := bool_decide (x `suffix_of` s).

(** The digits at the end of [s]. *)
Fixpoint trailing_digits (s : txt) : txt :=
  match s with
  | [] => []
  | _ :: t => if forallb is_digit s then s else trailing_digits t
  end.

(** A marker [nF] written after [pre] is overlapped by a duplicated marker
    that starts before it: [pre] ends with [kFx], where [x] holds digits
    only and [k] is [x] followed by [n], so that [pre] and the marker
    together end with [kFkF]. *)
Definition overlapped (pre n : txt) : bool :=
  let x := trailing_digits pre in
  ends_with ((x ++ n) ++ str "F" ++ x) pre.

(** [pre] ends with an opening bracket and [post] begins with a closing
    one: what stands between them stands in square brackets. *)
Definition bracketed (pre post : txt) : bool :=
  match last pre, post with
  | Some a, b :: _ => chr_eq a "[" && chr_eq b "]"
  | _, _ => false
  end.

(** [post] begins with a marker [kF] whose numeral [k] is an end of [n]:
    written after [nF], it doubles the end of the marker. *)
Definition tail_repeated (n post : txt) : bool :=
  match take_while is_digit post, drop_while is_digit post with
  | (_ :: _) as k, c :: _ => chr_eq "F" c && ends_with k n
  | _, _ => false
  end.

(** The span [processConlangInText] writes for the numeral [n]. *)
Definition marker_span (fm : footmap) (n : txt) : txt :=
  match truthy (fm !! n) with
  | Some trans => span_html (str "conlang") (escapeHTML trans) (n ++ str "F")
  | None =>
      span_html (str "conlang missing")
        (str "[translation missing for " ++ n ++ str "]") (n ++ str "F")
  end.

(** A bracketed marker, [[nF]] or [[n]]. *)
Definition bracket_marker (n : txt) (withF : bool) : txt :=
  str "[" ++ n ++ (if withF then str "F" else []) ++ str "]".

(** The length of a [[m]] at the head of [s], 0 when there is none: the
    optional tail of [ARTIFACT_RX]. *)
Definition bracket_num_len (s : txt) : nat :=
  match s with
  | c :: t =>
      if chr_eq "[" c then
        match take_while is_digit t, drop_while is_digit t with
        | (_ :: _) as d, c1 :: _ =>
            if chr_eq "]" c1 then 1 + length d + 1 else 0
        | _, _ => 0
        end
      else 0
  | [] => 0
  end.

(** [ARTIFACT_RX] at the head of [s], read off the pattern. *)
Definition artifact_at (s : txt) : option (list (nat * txt) * nat) :=
  match take_while is_digit s, drop_while is_digit s with
  | (_ :: _) as d, c1 :: r1 =>
      if chr_eq "F" c1 then
        match Rx.strip_prefix d r1 with
        | Some (c2 :: r3) =>
            if chr_eq "F" c2
            then Some ([(1, d)], length d + 1 + length d + 1 + bracket_num_len r3)
            else None
        | _ => None
        end
      else None
  | _, _ => None
  end.

(** The text after the first occurrence of [marker] in [s]. *)
Fixpoint after_first (marker s : txt) : txt :=
  match Rx.strip_prefix marker s with
  | Some r => r
  | None =>
      match s with
      | [] => []
      | _ :: t => after_first marker t
      end
  end.

(** The hover payload of the first span of [html]: the value of its
    [data-tr] attribute. *)
Definition payload_of (html : txt) : txt :=
  until_quote (after_first (str " data-tr=" ++ [dq]) html).

(** Every content item a structure holds, section after section. *)
Definition all_content (s : structure) : list item :=
  frontMatter s ++ flat_map ch_content (chapters s)
    ++ flat_map ap_content (appendices s).

(** The chapter [step] opens for a heading whose trimmed text is [text]. *)
Definition opened_chapter (text html : txt) : chapter :=
  Chapter text
    (str "chapter-" ++
       Rx.replace_all (Rx.Plus Rx.Space) (fun _ _ => str "-")
         (toLowerCase (chapterNum_of text)))
    (chapterNum_of text)
    (match Rx.group BRACKET_ID_RX 1 html with Some i => i | None => [] end)
    [].

(** The test under which [step] opens a chapter. *)
Definition opens_chapter (el : block) : bool :=
  is_h1_h2 el
  && negb (Rx.test APPENDIX_RX (trim (b_text el)))
  && Rx.test CHAPTER_RX (trim (b_text el)).

(** A pattern without capture groups. *)
Fixpoint nogrp (r : Rx.regex) : bool :=
  match r with
  | Rx.Grp _ _ => false
  | Rx.Seq a b | Rx.Alt a b => nogrp a && nogrp b
  | Rx.Star a | Rx.StarLazy a => nogrp a
  | _ => true
  end.

(** What follows the numeral in [NUMBER_MATCH_RX]: [\s*[:.–-]?\s*.*]. *)
Definition NUMBER_TAIL_RX : Rx.regex :=
  Rx.seqs [Rx.Star Rx.Space;
           Rx.Opt (Rx.Chr (fun c => chr_eq c ":" || chr_eq c "." || chr_eq c "-"));
           Rx.Star Rx.Space; Rx.Star Rx.Dot].

Definition starts_with_digit (s : txt) : bool :=
  match s with
  | c :: _ => is_digit c
  | [] => false
  end.



(** The value the last entry of [es] with key [n] holds. *)
Fixpoint last_for (n : txt) (es : list (txt * txt)) : option txt :=
  match es with
  | [] => None
  | (k, v) :: es' =>
      match last_for n es' with
      | Some x => Some x
      | None => if decide (k = n) then Some v else None
      end
  end.

(** The entries the three passes write, in the order they write them. *)
Definition container_entries (doc : list node) : list (txt * txt) :=
  omap child_entry (flat_map (find sel_p_div_span) (select footnoteSections doc)).

Definition selector_entries (doc : list node) : list (txt * txt) :=
  omap footnote_entry (select footnoteSelectors doc).

Definition supsub_entries (doc : list node) : list (txt * txt) :=
  omap supsub_entry (select_with_parent sel_sup_sub doc).


(** A footnote section defining 1, then an element with a footnote id
    defining 1 again. *)
Definition defined_twice : list node :=
  [Elem (str "div") (Some (str "footnotes")) None
     [Elem (str "p") None None [TextN (str "1. alpha")]];
   Elem (str "p") (Some (str "footnote-1")) None [TextN (str "1. gamma")]].

(** An element with a footnote id defining 1, then a [sub] holding 1. *)
Definition defined_by_sub : list node :=
  [Elem (str "p") (Some (str "footnote-1")) None [TextN (str "1. gamma")];
   Elem (str "p") None None
     [TextN (str "see "); Elem (str "sub") None None [TextN (str "1")];
      TextN (str " delta")]].

(** [s] begins with [p], letters compared without case. *)
Fixpoint starts_ci (p s : txt) : bool :=
  match p, s with
  | [], _ => true
  | a :: p', b :: s' => chr_eq (lower b) (lower a) && starts_ci p' s'
  | _ :: _, [] => false
  end.

(** [s] holds the word [chapter] (in any case), white space and then a code
    unit of the class [q]. *)
Definition holds_chapter (q : ascii -> bool) (s : txt) : Prop :=
  exists pre k ws w post,
    s = pre ++ k ++ ws ++ w :: post
    /\ toLowerCase k = str "chapter"
    /\ ws <> [] /\ forallb is_space ws = true
    /\ q w = true.

(** The phrases that mark an appendix heading. *)
Definition appendix_phrases : list txt :=
  [str "appendix"; str "one pagers"; str "persons of interest"; str "charts, maps"].

(** [s] holds one of the appendix phrases, in any case. *)
Definition holds_appendix_phrase (s : txt) : Prop :=
  exists pre k post,
    s = pre ++ k ++ post /\ In (toLowerCase k) appendix_phrases.

(* ------------------------------------------------------------------ *)
(** ** The partition of converter.js over a whole stream *)

(** The tests under which [step] opens an appendix or a book; the appendix
    test is tried first, then the chapter test, then the book test. *)
Definition opens_appendix (el : block) : bool :=
  is_h1_h2 el && Rx.test APPENDIX_RX (trim (b_text el)).

Definition opens_book (el : block) : bool :=
  is_h1 el && Rx.test BOOK_RX (trim (b_text el)).

(** A heading that opens an appendix, a chapter or a book. *)
Definition opens_section (el : block) : bool :=
  opens_appendix el || opens_chapter el || opens_book el.

(** The elements of a list before the first one that satisfies [p]. *)
Fixpoint before_first {A : Type} (p : A -> bool) (l : list A) : list A :=
  match l with
  | [] => []
  | x :: l' => if p x then [] else x :: before_first p l'
  end.

(** A chapter and an appendix without their content. *)
Definition chapter_heading (c : chapter) : chapter :=
  Chapter (ch_title c) (ch_id c) (numericId c) (referenceId c) [].

Definition appendix_heading (a : appendix) : appendix :=
  Appendix (ap_title a) (ap_id a) [].

(** The appendix [step] opens for a heading whose trimmed text is [text]. *)
Definition opened_appendix (text : txt) : appendix :=
  Appendix text (str "appendix-" ++ appendixId text) [].

(** Where the loop stands: in the front matter, after a book heading that
    no chapter or appendix has followed yet, or in a chapter or appendix. *)
Inductive phase : Type := Front | Limbo | Open.

Definition next_phase (ph : phase) (el : block) : phase :=
  if opens_appendix el || opens_chapter el then Open
  else if opens_book el then match ph with Front => Limbo | _ => ph end
  else ph.

(** The blocks of a stream that go into a section: the selected blocks that
    open nothing, those read in the [Limbo] phase apart. *)
Fixpoint kept (ph : phase) (els : list block) : list block :=
  match els with
  | [] => []
  | el :: els' =>
      if selected el then
        if opens_section el then kept (next_phase ph el) els'
        else match ph with
             | Limbo => kept ph els'
             | _ => el :: kept ph els'
             end
      else kept ph els'
  end.

(** What the loop keeps about the books. *)
Definition books_inv (s : pstate) : Prop :=
  flat_map bk_chapters (books (st_structure s))
    = seq 0 (length (chapters (st_structure s)))
  /\ (books (st_structure s) <> [] ->
      currentBook s = Some (length (books (st_structure s)) - 1)).

(** How a phase of the reading stands to the variables of the loop. *)
Definition phase_of (ph : phase) (s : pstate) : Prop :=
  match ph with
  | Front =>
      inFrontMatter s = true
      /\ chapters (st_structure s) = [] /\ appendices (st_structure s) = []
  | Limbo =>
      inFrontMatter s = false
      /\ chapters (st_structure s) = [] /\ appendices (st_structure s) = []
  | Open =>
      inFrontMatter s = false
      /\ (chapters (st_structure s) <> [] \/ appendices (st_structure s) <> [])
  end.

(* ------------------------------------------------------------------ *)
(** ** What a pattern can consume and capture *)

(** The code units a pattern can consume. *)
Fixpoint alphabet (r : Rx.regex) (c : ascii) : bool :=
  match r with
  | Rx.Chr p => p c
  | Rx.Seq a b | Rx.Alt a b => alphabet a c || alphabet b c
  | Rx.Star a | Rx.StarLazy a | Rx.Grp _ a => alphabet a c
  | _ => false
  end.

(** A pattern without back-references. *)
Fixpoint ref_free (r : Rx.regex) : bool :=
  match r with
  | Rx.Ref _ => false
  | Rx.Seq a b | Rx.Alt a b => ref_free a && ref_free b
  | Rx.Star a | Rx.StarLazy a | Rx.Grp _ a => ref_free a
  | _ => true
  end.

(** A lower bound of the length of a match. *)
Fixpoint min_len (r : Rx.regex) : nat :=
  match r with
  | Rx.Chr _ => 1
  | Rx.Seq a b => min_len a + min_len b
  | Rx.Alt a b => Nat.min (min_len a) (min_len b)
  | Rx.Grp _ a => min_len a
  | _ => 0
  end.

(** Every group [i] of the pattern captures a text that satisfies [P i]. *)
Fixpoint groups_ok (P : nat -> txt -> Prop) (r : Rx.regex) : Prop :=
  match r with
  | Rx.Grp i a =>
      groups_ok P a
      /\ forall c, forallb (alphabet a) c = true -> min_len a <= length c -> P i c
  | Rx.Seq a b | Rx.Alt a b => groups_ok P a /\ groups_ok P b
  | Rx.Star a | Rx.StarLazy a => groups_ok P a
  | _ => True
  end.

(** Lower-case letters, digits, underscore and hyphen: the code units of
    the identifiers converter.js builds. *)
Definition is_id_char (c : ascii) : bool :=
  is_lower c || is_digit c || chr_eq c "_" || chr_eq c "-".

(** [st'] is reached from [st] by consuming at least [n] code units, all of
    them in [q]. *)
Definition consumed (q : ascii -> bool) (n : nat) (st st' : Rx.mstate) : Prop :=
  exists c, Rx.rest st = c ++ Rx.rest st'
            /\ Rx.pos st' = Rx.pos st + length c
            /\ forallb q c = true /\ n <= length c.

(** Every capture of a state satisfies [P]. *)
Definition caps_sat (P : nat -> txt -> Prop) (cs : list (nat * txt)) : Prop :=
  forall i t, In (i, t) cs -> P i t.

(** What [appendixId] makes of one code unit of the title. *)
Definition appendix_char (c : ascii) : txt :=
  if is_space c || chr_eq c "," then str "-"
  else if is_word c || chr_eq c "-" then [lower c]
  else [].

(** The token of a chapter heading: [(\w+(?:-\w+)?)] of [CHAPTER_NUM_RX]. *)
Definition CHAPTER_TOKEN_RX : Rx.regex :=
  Rx.Seq (Rx.Plus Rx.Word) (Rx.Opt (Rx.Seq (Rx.Lit "-") (Rx.Plus Rx.Word))).

(** A numeral: a non-empty text of digits. *)
Definition numeral (n : txt) : Prop := n <> [] /\ forallb is_digit n = true.

(** The code units of the page identifiers of part_000. *)
Definition is_page_char (c : ascii) : bool :=
  is_upper c || is_lower c || is_digit c || chr_eq c "-".

(** A title that holds none of the words [generateId] looks for. *)
Definition no_keyword (title : txt) : bool :=
  let t := toLowerCase title in
  negb (includes (str "preface") t || includes (str "prologue") t
        || includes (str "epilogue") t || includes (str "acknowledgment") t
        || includes (str "dedication") t || includes (str "contents") t).

(** A chapter token of part_000: digits only, or letters only. *)
Definition chapter_token (num : txt) : Prop :=
  num <> [] /\ (forallb is_digit num = true \/ forallb is_alpha num = true).

(* ------------------------------------------------------------------ *)
(** ** Image references *)

(** Every special code unit of a pattern source is escaped, and a
    backslash escapes nothing else. *)
Fixpoint well_escaped (source : txt) : bool :=
  match source with
  | [] => true
  | c :: t =>
      if chr_eq c "\" then
        match t with
        | [] => false
        | x :: t' => is_regexp_special x && well_escaped t'
        end
      else negb (is_regexp_special c) && well_escaped t
  end.

(** [escapeRegExp] on one code unit. *)
Definition escape_unit (c : ascii) : txt :=
  if is_regexp_special c then ["\"%char; c] else [c].

(** What the literal pattern of [l] reports at the head of [s]. *)
Definition lit_at (l s : txt) : option (list (nat * txt) * nat) :=
  if starts_with l s then Some ([], length l) else None.

(** What [IMAGE_RX] reports at the head of [s]. *)
Definition image_at (s : txt) : option (list (nat * txt) * nat) :=
  match Rx.strip_prefix (str "rId") s with
  | Some r =>
      match take_while is_digit r with
      | [] => None
      | (_ :: _) as d => Some ([(1, d)], 3 + length d)
      end
  | None => None
  end.

(** A text that holds no [rId]. *)
Definition no_rId (x : txt) : bool := negb (includes (str "rId") x).

(** A text that holds no dollar. *)
Definition no_dollar (x : txt) : bool := forallb (fun c => negb (chr_eq c "$")) x.

(** A text that cannot complete an [rI] or an [r] standing before it, and a
    text that ends in neither. *)
Definition head_safe (y : txt) : bool :=
  match y with
  | c :: _ => negb (chr_eq c "I") && negb (chr_eq c "d")
  | [] => true
  end.

Definition last_safe (x : txt) : bool :=
  match last x with
  | Some c => negb (chr_eq c "r") && negb (chr_eq c "I")
  | None => true
  end.

(** The three fixed parts of the image tag. *)
Definition IMG_P : txt := str "<img src=" ++ [dq] ++ str "../images/".
Definition IMG_Q : txt :=
  [dq] ++ str " class=" ++ [dq] ++ str "novel-image" ++ [dq]
    ++ str " alt=" ++ [dq] ++ str "Novel illustration" ++ [dq]
    ++ str " data-original-id=" ++ [dq].
Definition IMG_R : txt := [dq] ++ str ">".

(** The number an image file name carries: the digits after [img-]. *)
Definition image_number (name : txt) : txt := take_while is_digit (drop 4 name).

(* ------------------------------------------------------------------ *)
(** ** The UI pass *)

Definition not_rbracket (c : ascii) : bool := negb (chr_eq c "]").

(** What [UI_RX] reports at the head of [s]. *)
Definition ui_at (s : txt) : option (list (nat * txt) * nat) :=
  match s with
  | c :: r =>
      if chr_eq "[" c then
        match take_while not_rbracket r, drop_while not_rbracket r with
        | (_ :: _) as d, _ :: _ => Some ([(1, d)], 2 + length d)
        | _, _ => None
        end
      else None
  | [] => None
  end.

(** Digits, with an optional [F] after them: what [/^\d+F?$/] accepts. *)
Definition is_footref (c : txt) : bool :=
  match take_while is_digit c, drop_while is_digit c with
  | _ :: _, [] => true
  | _ :: _, [f] => chr_eq "F" f
  | _, _ => false
  end.

Definition no_lbracket (s : txt) : bool := forallb (fun c => negb (chr_eq c "[")) s.
Definition no_rbracket (s : txt) : bool := forallb not_rbracket s.

(** A text without line feed and carriage return. *)
Definition one_line (s : txt) : bool :=
  forallb (fun c => negb (chr_eq c (ascii_of_nat 10) || chr_eq c (ascii_of_nat 13))) s.

(* ------------------------------------------------------------------ *)
(** ** Links between the pages *)

(** A path without its [..] segments, each of which takes back the segment
    before it. *)
Fixpoint normalize (acc segs : list txt) : list txt :=
  match segs with
  | [] => rev acc
  | s :: r =>
      if txt_eqb s (str "..") then normalize (tail acc) r
      else normalize (s :: acc) r
  end.

(** The file a relative link leads to from the page at [from]. *)
Definition resolve (from : list txt) (href : txt) : list txt :=
  normalize [] (removelast from ++ split_on "/" [] href).

(** The pairs of neighbours of a list, in order. *)
Fixpoint adjacent_pairs {A : Type} (l : list A) : list (A * A) :=
  match l with
  | [] => []
  | x :: r =>
      match r with
      | [] => []
      | y :: _ => (x, y) :: adjacent_pairs r
      end
  end.

(** The link [href] of the page [pg] leads to the file of [target]. *)
Definition leads_to (pg : page) (href : option txt) (target : page) : Prop :=
  exists h, href = Some h /\ resolve (pg_path pg) h = pg_path target.

(** What holds of a page [pg] and the page [pg'] written after it: the
    [prev] link of [pg'] leads to [pg], and the [next] link of [pg] leads
    to [pg']; [no_next] says when [pg] may be without a [next] link. *)
Definition chained (no_next : page -> Prop) (pp : page * page) : Prop :=
  leads_to pp.2 (nav_prev pp.2) pp.1
  /\ match nav_next pp.1 with
     | Some h => resolve (pg_path pp.1) h = pg_path pp.2
     | None => no_next pp.1
     end.

(** The nodes of [l] that stand before its first [h1] or [h2]. *)
Fixpoint up_to_heading (l : list node) : list node :=
  match l with
  | [] => []
  | n :: l' => if is_h1h2 n then [] else n :: up_to_heading l'
  end.
(* ------------------------------------------------------------------ *)
(** ** The matcher and the replacement loop *)

Lemma chr_eq_true a b : chr_eq a b = true <-> a = b.
Proof. unfold chr_eq. apply Ascii.eqb_eq. Qed.

Lemma chr_eq_false a b : chr_eq a b = false <-> a <> b.
Proof. unfold chr_eq. apply Ascii.eqb_neq. Qed.

Lemma chr_eq_refl a : chr_eq a a = true.
Proof. by apply chr_eq_true. Qed.

Lemma flat_map_flat_map {A B C : Type} (f : A -> list B) (g : B -> list C) l :
  flat_map g (flat_map f l) = flat_map (fun a => flat_map g (f a)) l.
Proof.
  induction l as [|a l IH]; simpl; [done|].
  by rewrite flat_map_app, IH.
Qed.

Lemma flat_map_pointwise {A B : Type} (f g : A -> list B) l :
  (forall a, f a = g a) -> flat_map f l = flat_map g l.
Proof. intros E. induction l as [|a l IH]; simpl; [done|]. by rewrite E, IH. Qed.

Lemma match_at_chr q p c t :
  Rx.match_at (Rx.Chr q) p (c :: t) = if q c then Some ([], 1) else None.
Proof.
  unfold Rx.match_at, Rx.at_pos. simpl. destruct (q c); simpl; [|done].
  do 2 f_equal. lia.
Qed.

Lemma scan_chr q e p s :
  Rx.scan (Rx.match_at (Rx.Chr q)) (fun _ _ => e) 0 p s
  = flat_map (fun c => if q c then e else [c]) s.
Proof.
  revert p. induction s as [|c t IH]; intros p; [done|].
  cbn [Rx.scan flat_map]. rewrite match_at_chr.
  destruct (q c); by rewrite IH.
Qed.

Lemma replace_all_chr q e s :
  Rx.replace_all (Rx.Chr q) (fun _ _ => e) s
  = flat_map (fun c => if q c then e else [c]) s.
Proof. apply scan_chr. Qed.

(* ------------------------------------------------------------------ *)
(** ** escapeHTML *)

Lemma escapeHTML_flat_map s : escapeHTML s = flat_map escape1 s.
Proof.
  unfold escapeHTML.
  change (Rx.Lit "&") with (Rx.Chr (chr_eq "&")).
  change (Rx.Lit "<") with (Rx.Chr (chr_eq "<")).
  change (Rx.Lit ">") with (Rx.Chr (chr_eq ">")).
  change (Rx.Lit "'") with (Rx.Chr (chr_eq "'")).
  unfold Rx.Lit1. cbv zeta.
  rewrite !replace_all_chr, !flat_map_flat_map.
  apply flat_map_pointwise. intros c.
  destruct c as [[] [] [] [] [] [] [] []]; reflexivity.
Qed.

Lemma escape1_inert c : forallb inert (escape1 c) = true.
Proof. destruct c as [[] [] [] [] [] [] [] []]; reflexivity. Qed.

Lemma escapeHTML_inert s : forallb inert (escapeHTML s) = true.
Proof.
  rewrite escapeHTML_flat_map. induction s as [|c s IH]; [done|].
  simpl. by rewrite forallb_app, escape1_inert, IH.
Qed.

Lemma escape1_cases c :
  In (escape1 c) entities \/ (escape1 c = [c] /\ chr_eq c "&" = false).
Proof.
  destruct c as [[] [] [] [] [] [] [] []];
    first [ right; split; reflexivity | left; cbv; tauto ].
Qed.

Lemma amp_ok_entity e t : In e entities -> amp_ok (e ++ t) = amp_ok t.
Proof.
  intros H. cbv [entities In] in H.
  destruct H as [<-|[<-|[<-|[<-|[<-|[]]]]]]; reflexivity.
Qed.

Lemma escapeHTML_amp_ok s : amp_ok (escapeHTML s) = true.
Proof.
  rewrite escapeHTML_flat_map. induction s as [|c s IH]; [done|].
  cbn [flat_map]. destruct (escape1_cases c) as [H|[-> H]].
  - by rewrite amp_ok_entity.
  - cbn [app amp_ok]. by rewrite H, IH.
Qed.

Lemma starts_with_app p s : starts_with p s = true -> exists r, s = p ++ r.
Proof.
  revert s. induction p as [|a p IH]; intros s H; [by exists s|].
  destruct s as [|b s]; [done|]. simpl in H.
  apply andb_true_iff in H as [Hab H]. apply chr_eq_true in Hab as ->.
  destruct (IH _ H) as [r ->]. by exists r.
Qed.

Lemma amp_ok_spec s :
  amp_ok s = true ->
  forall pre post, s = pre ++ "&"%char :: post ->
    exists ent r, In ent entities /\ "&"%char :: post = ent ++ r.
Proof.
  intros H pre. revert s H. induction pre as [|a pre IH]; intros s H post ->.
  - cbn [app amp_ok] in H. rewrite chr_eq_refl in H.
    apply andb_true_iff in H as [H _].
    apply existsb_exists in H as (e & He & Hs).
    apply starts_with_app in Hs as [r Hr]. by exists e, r.
  - cbn [app amp_ok] in H. apply andb_true_iff in H as [_ H].
    by eapply IH.
Qed.

Lemma until_quote_app a r :
  forallb inert a = true -> until_quote (a ++ dq :: r) = a.
Proof.
  induction a as [|c a IH]; intros H.
  - reflexivity.
  - simpl in H. apply andb_true_iff in H as [Hc H].
    cbn [app until_quote]. unfold inert in Hc.
    destruct (chr_eq c dq); [by rewrite !orb_true_r in Hc|].
    by rewrite IH.
Qed.

Lemma inert_spec c :
  inert c = true ->
  c <> "<"%char /\ c <> ">"%char /\ c <> dq /\ c <> "'"%char.
Proof.
  unfold inert. rewrite negb_true_iff, !orb_false_iff, !chr_eq_false. tauto.
Qed.

(** C10. The output of [escapeHTML] holds no [<], [>], double or single
    quote; every [&] in it starts one of the five entities; and so, in the
    span that carries an escaped annotation, the value of [data-tr] read up
    to the closing quote is the escaped annotation, whole. *)
Theorem escapeHTML_safe (s : txt) :
  Forall (fun c => c <> "<"%char /\ c <> ">"%char /\ c <> dq /\ c <> "'"%char)
         (escapeHTML s)
  /\ (forall pre post, escapeHTML s = pre ++ "&"%char :: post ->
        exists ent r, In ent entities /\ "&"%char :: post = ent ++ r)
  /\ (forall cls visible, exists after,
        span_html cls (escapeHTML s) visible
        = (str "<span class=" ++ [dq] ++ cls ++ [dq] ++ str " data-tr=" ++ [dq])
            ++ escapeHTML s ++ dq :: after
        /\ until_quote (escapeHTML s ++ dq :: after) = escapeHTML s).
Proof.
  split; [|split].
  - pose proof (escapeHTML_inert s) as H.
    rewrite forallb_forall in H. apply List.Forall_forall.
    intros c Hc. by apply inert_spec, H.
  - apply amp_ok_spec, escapeHTML_amp_ok.
  - intros cls visible. exists (str ">" ++ visible ++ str "</span>"). split.
    + unfold span_html. by rewrite <- !app_assoc.
    + apply until_quote_app, escapeHTML_inert.
Qed.
Lemma take_take_while_id q s : take (length (take_while q s)) s = take_while q s.
Proof.
  induction s as [|c t IH]; [done|]. simpl. destruct (q c); [|done].
  simpl. by rewrite IH.
Qed.

(* ------------------------------------------------------------------ *)
(** ** Runs of one character class *)

Section ChrStar.
Variable q : ascii -> bool.

Lemma star_loop_chr n p cs s :
  length s <= n ->
  Rx.star_loop (Rx.run (Rx.Chr q)) n (Rx.MS p cs s) = chr_star q p cs s.
Proof.
  revert n p. induction s as [|c t IH]; intros n p Hn.
  - destruct n; reflexivity.
  - destruct n as [|n]; [simpl in Hn; lia|].
    cbn [Rx.star_loop Rx.run Rx.rest Rx.pos Rx.caps chr_star].
    destruct (q c); [|reflexivity].
    cbn [flat_map Rx.rest length].
    replace (length t <? S (length t)) with true
      by (symmetry; apply Nat.ltb_lt; lia).
    rewrite app_nil_r, IH; [done|simpl in Hn; lia].
Qed.

Lemma run_star_chr p cs s :
  Rx.run (Rx.Star (Rx.Chr q)) (Rx.MS p cs s) = chr_star q p cs s.
Proof. cbn [Rx.run Rx.rest]. by apply star_loop_chr. Qed.

(** A continuation that fails on a subject starting in the class sees only
    the longest run. *)
Lemma flat_map_chr_star (F : Rx.mstate -> list Rx.mstate) p cs s :
  (forall st c t, Rx.rest st = c :: t -> q c = true -> F st = []) ->
  flat_map F (chr_star q p cs s)
  = F (Rx.MS (p + length (take_while q s)) cs (drop_while q s)).
Proof.
  intros HF. revert p. induction s as [|c t IH]; intros p.
  - simpl. by rewrite app_nil_r, Nat.add_0_r.
  - cbn [chr_star take_while drop_while]. destruct (q c) eqn:Hc.
    + rewrite flat_map_app, IH. cbn [flat_map length].
      rewrite (HF (Rx.MS p cs (c :: t)) c t); [|done|done].
      rewrite !app_nil_r. do 2 f_equal. lia.
    + simpl. by rewrite app_nil_r, Nat.add_0_r.
Qed.

Lemma run_plus_chr p cs s :
  Rx.run (Rx.Plus (Rx.Chr q)) (Rx.MS p cs s)
  = match s with
    | c :: t => if q c then chr_star q (S p) cs t else []
    | [] => []
    end.
Proof.
  unfold Rx.Plus. cbn [Rx.run Rx.rest Rx.pos Rx.caps].
  destruct s as [|c t]; [done|]. destruct (q c); [|done].
  cbn [flat_map]. rewrite app_nil_r. apply star_loop_chr. done.
Qed.

Lemma run_plus_then (K : Rx.regex) p cs s :
  (forall st c t, Rx.rest st = c :: t -> q c = true -> Rx.run K st = []) ->
  Rx.run (Rx.Seq (Rx.Plus (Rx.Chr q)) K) (Rx.MS p cs s)
  = match take_while q s with
    | [] => []
    | (_ :: _) as d => Rx.run K (Rx.MS (p + length d) cs (drop_while q s))
    end.
Proof.
  intros HK. change (Rx.run (Rx.Seq ?a ?b) ?st) with (flat_map (Rx.run b) (Rx.run a st)).
  rewrite run_plus_chr. destruct s as [|c t]; [done|].
  cbn [take_while drop_while]. destruct (q c); [|done].
  rewrite flat_map_chr_star by done. cbn [length]. do 2 f_equal. lia.
Qed.

Lemma run_grp_plus_then (i : nat) (K : Rx.regex) p cs s :
  (forall st c t, Rx.rest st = c :: t -> q c = true -> Rx.run K st = []) ->
  Rx.run (Rx.Seq (Rx.Grp i (Rx.Plus (Rx.Chr q))) K) (Rx.MS p cs s)
  = match take_while q s with
    | [] => []
    | (_ :: _) as d =>
        Rx.run K (Rx.MS (p + length d) ((i, d) :: cs) (drop_while q s))
    end.
Proof.
  intros HK.
  change (Rx.run (Rx.Seq (Rx.Grp i ?a) ?b) ?st)
    with (flat_map (Rx.run b)
            (map (fun st' => Rx.MS (Rx.pos st')
                    ((i, take (Rx.pos st' - Rx.pos st) (Rx.rest st)) :: Rx.caps st')
                    (Rx.rest st'))
                 (Rx.run a st))).
  rewrite run_plus_chr. destruct s as [|c t]; [done|].
  cbn [take_while drop_while]. destruct (q c); [|done].
  rewrite flat_map_concat_map, map_map, <- flat_map_concat_map.
  rewrite flat_map_chr_star.
  - cbn [Rx.pos Rx.caps Rx.rest length].
    replace (S p + length (take_while q t) - p) with (S (length (take_while q t))) by lia.
    cbn [take]. rewrite take_take_while_id. do 2 f_equal. lia.
  - intros st c' t' Hr Hc. apply (HK _ c' t'); done.
Qed.
End ChrStar.

(* ------------------------------------------------------------------ *)
(** ** Equations of the matcher *)

Lemma run_seq a b st : Rx.run (Rx.Seq a b) st = flat_map (Rx.run b) (Rx.run a st).
Proof. reflexivity. Qed.

Lemma run_alt a b st : Rx.run (Rx.Alt a b) st = Rx.run a st ++ Rx.run b st.
Proof. reflexivity. Qed.

Lemma run_opt a st : Rx.run (Rx.Opt a) st = Rx.run a st ++ [st].
Proof. reflexivity. Qed.

Lemma run_chr_cons q p cs c t :
  Rx.run (Rx.Chr q) (Rx.MS p cs (c :: t)) = if q c then [Rx.MS (S p) cs t] else [].
Proof. reflexivity. Qed.

Lemma run_chr_nil q p cs : Rx.run (Rx.Chr q) (Rx.MS p cs []) = [].
Proof. reflexivity. Qed.

Lemma run_chr_reject q st c t :
  Rx.rest st = c :: t -> q c = false -> Rx.run (Rx.Chr q) st = [].
Proof. intros Hr Hc. destruct st as [p cs s]. simpl in Hr. subst s. by rewrite run_chr_cons, Hc. Qed.

Lemma run_ref i p cs s :
  Rx.run (Rx.Ref i) (Rx.MS p cs s)
  = match Rx.cap i cs with
    | None => [Rx.MS p cs s]
    | Some t => match Rx.strip_prefix t s with
                | Some s' => [Rx.MS (p + length t) cs s']
                | None => []
                end
    end.
Proof. reflexivity. Qed.

Lemma flat_map_one {A B : Type} (f : A -> list B) a : flat_map f [a] = f a.
Proof. simpl. apply app_nil_r. Qed.

(* ------------------------------------------------------------------ *)
(** ** The marker patterns, read at one index *)

Lemma digit_not_F c : is_digit c = true -> chr_eq "F" c = false.
Proof. destruct c as [[] [] [] [] [] [] [] []]; intros H; done. Qed.

Lemma digit_not_rbracket c : is_digit c = true -> chr_eq "]" c = false.
Proof. destruct c as [[] [] [] [] [] [] [] []]; intros H; done. Qed.

Lemma digit_not_lbracket c : is_digit c = true -> chr_eq "[" c = false.
Proof. destruct c as [[] [] [] [] [] [] [] []]; intros H; done. Qed.

Lemma match_at_NORMALIZE p s : Rx.match_at NORMALIZE_RX p s = norm_at s.
Proof.
  unfold Rx.match_at, Rx.at_pos.
  change NORMALIZE_RX with
    (Rx.Seq (Rx.Grp 1 (Rx.Plus (Rx.Chr is_digit)))
       (Rx.Seq (Rx.Chr (chr_eq "F")) (Rx.Seq (Rx.Ref 1) (Rx.Chr (chr_eq "F"))))).
  rewrite run_grp_plus_then.
  2:{ intros st c t Hr Hc. rewrite run_seq.
      by rewrite (run_chr_reject _ st c t Hr (digit_not_F c Hc)). }
  unfold norm_at. destruct (take_while is_digit s) as [|d0 d]; [done|].
  destruct (drop_while is_digit s) as [|c1 r1]; [done|].
  rewrite run_seq, run_chr_cons. destruct (chr_eq "F" c1); [|done].
  rewrite flat_map_one, run_seq, run_ref. cbn [Rx.cap Nat.eqb].
  destruct (Rx.strip_prefix (d0 :: d) r1) as [[|c2 r2]|]; [done| |done].
  rewrite flat_map_one, run_chr_cons. destruct (chr_eq "F" c2); [|done].
  cbn [head Rx.caps Rx.pos]. do 2 f_equal. lia.
Qed.

Lemma run_bracket_branch p s :
  head (Rx.run
    (Rx.Seq (Rx.Chr (chr_eq "["))
       (Rx.Seq (Rx.Grp 1 (Rx.Plus (Rx.Chr is_digit)))
          (Rx.Seq (Rx.Opt (Rx.Chr (chr_eq "F"))) (Rx.Chr (chr_eq "]")))))
    (Rx.MS p [] s))
  = match bracket_at s with
    | Some (cs, len) => Some (Rx.MS (p + len) cs (drop len s))
    | None => None
    end
  /\ (bracket_at s = None ->
      Rx.run
        (Rx.Seq (Rx.Chr (chr_eq "["))
           (Rx.Seq (Rx.Grp 1 (Rx.Plus (Rx.Chr is_digit)))
              (Rx.Seq (Rx.Opt (Rx.Chr (chr_eq "F"))) (Rx.Chr (chr_eq "]")))))
        (Rx.MS p [] s) = []).
Proof.
  rewrite run_seq. unfold bracket_at. destruct s as [|c t]; [done|].
  rewrite run_chr_cons. destruct (chr_eq "[" c); [|done].
  rewrite flat_map_one, run_grp_plus_then.
  2:{ intros st c' t' Hr Hc'. rewrite run_seq, run_opt.
      rewrite (run_chr_reject _ st c' t' Hr (digit_not_F c' Hc')).
      cbn [app]. rewrite flat_map_one.
      by rewrite (run_chr_reject _ st c' t' Hr (digit_not_rbracket c' Hc')). }
  pose proof (take_take_while_id is_digit t) as Htk.
  assert (Hdr : forall k, drop (length (take_while is_digit t) + k) t
                          = drop k (drop_while is_digit t)).
  { clear. intros k. induction t as [|a t IH]; [by destruct k|].
    simpl. destruct (is_digit a); [apply IH|done]. }
  destruct (take_while is_digit t) as [|d0 d]; [done|].
  destruct (drop_while is_digit t) as [|c1 r1] eqn:Hdw; [done|].
  rewrite run_seq, run_opt, run_chr_cons.
  destruct (chr_eq "F" c1) eqn:HF.
  - assert (chr_eq "]" c1 = false) as HB.
    { apply chr_eq_true in HF as <-. done. }
    cbn [app flat_map]. rewrite (run_chr_cons _ _ _ c1), HB, app_nil_r.
    destruct r1 as [|c2 r2]; [done|].
    rewrite run_chr_cons. destruct (chr_eq "]" c2); [|done].
    split; [|done]. cbn [head]. f_equal. f_equal; [lia|].
    replace (1 + length (d0 :: d) + 2) with (S (length (d0 :: d) + 2)) by lia.
    cbn [drop]. by rewrite Hdr.
  - cbn [app flat_map]. rewrite run_chr_cons, app_nil_r.
    destruct (chr_eq "]" c1); [|done].
    split; [|done]. cbn [head]. f_equal. f_equal; [lia|].
    replace (1 + length (d0 :: d) + 1) with (S (length (d0 :: d) + 1)) by lia.
    cbn [drop]. by rewrite Hdr.
Qed.

Lemma match_at_MARKER p s : Rx.match_at MARKER_RX p s = marker_at s.
Proof.
  unfold Rx.match_at, Rx.at_pos.
  change MARKER_RX with
    (Rx.Alt
       (Rx.Seq (Rx.Chr (chr_eq "["))
          (Rx.Seq (Rx.Grp 1 (Rx.Plus (Rx.Chr is_digit)))
             (Rx.Seq (Rx.Opt (Rx.Chr (chr_eq "F"))) (Rx.Chr (chr_eq "]")))))
       (Rx.Seq (Rx.Grp 2 (Rx.Plus (Rx.Chr is_digit))) (Rx.Chr (chr_eq "F")))).
  rewrite run_alt. destruct (run_bracket_branch p s) as [Hh Hn].
  unfold marker_at. destruct (bracket_at s) as [[cs len]|].
  - destruct (Rx.run _ _) as [|st l] in Hh |- *; [done|].
    cbn [app head] in *. injection Hh as ->. cbn [Rx.caps Rx.pos]. do 2 f_equal. lia.
  - rewrite Hn by done. cbn [app].
    rewrite run_grp_plus_then.
    2:{ intros st c t Hr Hc. by apply (run_chr_reject _ st c t Hr), digit_not_F. }
    unfold bare_at.
    destruct (take_while is_digit s) as [|d0 d]; [done|].
    destruct (drop_while is_digit s) as [|c1 r1]; [done|].
    rewrite run_chr_cons. destruct (chr_eq "F" c1); [|done].
    cbn [head Rx.caps Rx.pos]. do 2 f_equal. lia.
Qed.

(* ------------------------------------------------------------------ *)
(** ** The replacement loop, for a pattern that does not look at the index *)

Lemma scan_ext (m1 m2 : Rx.matcher) f k p s :
  (forall p' s', m1 p' s' = m2 p' s') ->
  Rx.scan m1 f k p s = Rx.scan m2 f k p s.
Proof.
  intros E. revert k p. induction s as [|c t IH]; intros k p.
  - simpl. by rewrite E.
  - cbn [Rx.scan]. rewrite E. destruct k; [|apply IH].
    destruct (m2 p (c :: t)) as [[cs [|len]]|]; by rewrite ?IH.
Qed.

Section Scan.
Variable m : txt -> option (list (nat * txt) * nat).
Variable f : list (nat * txt) -> txt -> txt.

(** Matches are not empty and stay inside the subject. *)
Hypothesis m_len : forall u cs len, m u = Some (cs, len) -> 0 < len <= length u.

Local Abbreviation sc k s := (Rx.scan (fun _ => m) f k 0 s).

Lemma scan_pos k p s : Rx.scan (fun _ => m) f k p s = sc k s.
Proof using Type.
  generalize 0. revert k p.
  induction s as [|c t IH]; intros k p p'; [done|].
  cbn [Rx.scan]. destruct k; [|apply IH].
  destruct (m (c :: t)) as [[cs [|len]]|]; by rewrite ?(IH _ (S p) (S p')).
Qed.

Lemma m_nil : m [] = None.
Proof using m_len.
  destruct (m []) as [[cs len]|] eqn:E; [|done].
  apply m_len in E. simpl in E. lia.
Qed.

Lemma sc_nil : sc 0 [] = [].
Proof using m_len. simpl. by rewrite m_nil. Qed.

Lemma sc_cons_none c t : m (c :: t) = None -> sc 0 (c :: t) = c :: sc 0 t.
Proof using Type. intros E. cbn [Rx.scan]. by rewrite E, (scan_pos _ 1). Qed.

Lemma sc_skip a b : sc (length a) (a ++ b) = sc 0 b.
Proof using Type.
  enough (H : forall p, Rx.scan (fun _ => m) f (length a) p (a ++ b) = sc 0 b)
    by apply H.
  induction a as [|c a IH]; intros p.
  - apply scan_pos.
  - cbn [length app Rx.scan]. apply IH.
Qed.

(** A match at the head: the replacement, then the loop on what follows. *)
Lemma sc_hit s cs len :
  m s = Some (cs, len) ->
  sc 0 s = f cs (take len s) ++ sc 0 (drop len s).
Proof using m_len.
  intros E. pose proof (m_len _ _ _ E) as Hl.
  destruct s as [|c t]; [simpl in Hl; lia|].
  cbn [Rx.scan]. rewrite E.
  destruct len as [|k]; [lia|]. f_equal.
  rewrite (scan_pos _ 1). cbn [drop length] in *.
  rewrite <- (take_drop k t) at 1.
  replace k with (length (take k t)) at 1 by (rewrite length_take; lia).
  apply sc_skip.
Qed.

(** No match starts in [a]: [a] is copied. *)
Lemma sc_none a b :
  (forall u, u <> [] -> u `suffix_of` a -> m (u ++ b) = None) ->
  sc 0 (a ++ b) = a ++ sc 0 b.
Proof using Type.
  induction a as [|c a IH]; intros H; [done|].
  cbn [app]. rewrite sc_cons_none.
  - f_equal. apply IH. intros u Hu Hs. apply H; [done|].
    by apply suffix_cons_r.
  - apply (H (c :: a)); done.
Qed.

(** What follows [a] does not change the matches that start in [a]: the
    loop on [a ++ b] is the loop on [a], then the loop on [b]. *)
Lemma sc_split_gen a b k :
  k <= length a ->
  (forall u, u <> [] -> u `suffix_of` a -> m (u ++ b) = m u) ->
  sc k (a ++ b) = sc k a ++ sc 0 b.
Proof using m_len.
  revert k. induction a as [|c a IH]; intros k Hk H.
  - simpl in Hk. replace k with 0 by lia. by rewrite sc_nil.
  - assert (Ha : forall u, u <> [] -> u `suffix_of` a -> m (u ++ b) = m u).
    { intros u Hu Hs. apply H; [done|]. by apply suffix_cons_r. }
    destruct k as [|k].
    + cbn [app Rx.scan].
      change (m (c :: a ++ b)) with (m ((c :: a) ++ b)).
      rewrite (H (c :: a)) by done.
      destruct (m (c :: a)) as [[cs len]|] eqn:E.
      * pose proof (m_len _ _ _ E) as Hl. cbn [length] in Hl.
        destruct len as [|len]; [lia|].
        rewrite !(scan_pos _ 1), <- app_assoc. f_equal.
        { f_equal. change (c :: a ++ b) with ((c :: a) ++ b).
          rewrite take_app_le by (simpl; lia). done. }
        apply IH; [lia|done].
      * rewrite !(scan_pos _ 1). cbn [app]. f_equal. apply IH; [lia|done].
    + cbn [app Rx.scan]. rewrite !(scan_pos _ 1).
      apply IH; [simpl in Hk; lia|done].
Qed.

Lemma sc_split a b :
  (forall u, u <> [] -> u `suffix_of` a -> m (u ++ b) = m u) ->
  sc 0 (a ++ b) = sc 0 a ++ sc 0 b.
Proof using m_len. apply sc_split_gen. lia. Qed.
End Scan.

(** A pattern that is found nowhere leaves the subject as it is. *)
Lemma search_from_none_scan r f p s :
  Rx.search_from r p s = None -> Rx.scan (Rx.match_at r) f 0 p s = s.
Proof.
  revert p. induction s as [|c t IH]; intros p H.
  - simpl in *. unfold Rx.match_at. by destruct (Rx.at_pos r p []).
  - cbn [Rx.search_from] in H. cbn [Rx.scan]. unfold Rx.match_at.
    destruct (Rx.at_pos r p (c :: t)); [done|]. f_equal. by apply IH.
Qed.

Lemma test_false_replace_all r f s :
  Rx.test r s = false -> Rx.replace_all r f s = s.
Proof.
  unfold Rx.test, Rx.exec, Rx.replace_all. intros H.
  apply search_from_none_scan. by destruct (Rx.search_from r 0 s).
Qed.

(* ------------------------------------------------------------------ *)
(** ** Prefixes in a class, and stripping a prefix *)

Lemma take_drop_while q s : take_while q s ++ drop_while q s = s.
Proof.
  induction s as [|c t IH]; [done|]. simpl. destruct (q c); [|done].
  simpl. by rewrite IH.
Qed.

Lemma take_while_all q n c x :
  forallb q n = true -> q c = false -> take_while q (n ++ c :: x) = n.
Proof.
  intros Hn Hc. induction n as [|a n IH]; simpl in *; [by rewrite Hc|].
  apply andb_true_iff in Hn as [-> Hn]. by rewrite IH.
Qed.

Lemma drop_while_all q n c x :
  forallb q n = true -> q c = false -> drop_while q (n ++ c :: x) = c :: x.
Proof.
  intros Hn Hc. induction n as [|a n IH]; simpl in *; [by rewrite Hc|].
  apply andb_true_iff in Hn as [-> Hn]. by rewrite IH.
Qed.

Lemma take_while_barrier q u c x :
  q c = false -> take_while q (u ++ c :: x) = take_while q u.
Proof.
  intros Hc. induction u as [|a u IH]; simpl; [by rewrite Hc|].
  destruct (q a); [by rewrite IH|done].
Qed.

Lemma drop_while_barrier q u c x :
  q c = false -> drop_while q (u ++ c :: x) = drop_while q u ++ c :: x.
Proof.
  intros Hc. induction u as [|a u IH]; simpl; [by rewrite Hc|].
  destruct (q a); [by rewrite IH|done].
Qed.

Lemma take_while_forallb q s : forallb q (take_while q s) = true.
Proof.
  induction s as [|c t IH]; [done|]. simpl. destruct (q c) eqn:E; [|done].
  simpl. by rewrite E, IH.
Qed.

Lemma strip_prefix_app d r : Rx.strip_prefix d (d ++ r) = Some r.
Proof. induction d as [|a d IH]; [done|]. simpl. by rewrite chr_eq_refl. Qed.

Lemma strip_prefix_spec d s r : Rx.strip_prefix d s = Some r -> s = d ++ r.
Proof.
  revert s. induction d as [|a d IH]; intros s H; simpl in H.
  - by injection H as ->.
  - destruct s as [|b s]; [done|]. destruct (chr_eq a b) eqn:E; [|done].
    apply chr_eq_true in E as ->. simpl. f_equal. by apply IH.
Qed.

(** A code unit outside the class of a prefix stops the comparison where
    the end of the subject would. *)
Lemma strip_prefix_barrier q d r c x :
  forallb q d = true -> q c = false ->
  Rx.strip_prefix d (r ++ c :: x) = (fun s => s ++ c :: x) <$> Rx.strip_prefix d r.
Proof.
  intros Hd Hc. revert r. induction d as [|a d IH]; intros r; [done|].
  simpl in Hd. apply andb_true_iff in Hd as [Ha Hd].
  destruct r as [|b r]; simpl.
  - destruct (chr_eq a c) eqn:E; [|done].
    apply chr_eq_true in E as ->. congruence.
  - destruct (chr_eq a b); [by apply IH|done].
Qed.

Lemma suffix_forallb (q : ascii -> bool) (u a : txt) :
  u `suffix_of` a -> forallb q a = true -> forallb q u = true.
Proof.
  intros [k ->] H. rewrite forallb_app in H. by apply andb_true_iff in H as [_ H].
Qed.

(* ------------------------------------------------------------------ *)
(** ** Facts on [norm_at] and [marker_at] *)

Lemma norm_at_len u cs len : norm_at u = Some (cs, len) -> 0 < len <= length u.
Proof.
  unfold norm_at. intros H.
  pose proof (take_drop_while is_digit u) as Hu.
  destruct (take_while is_digit u) as [|d0 d]; [done|].
  destruct (drop_while is_digit u) as [|c1 r1]; [done|].
  destruct (chr_eq "F" c1); [|done].
  destruct (Rx.strip_prefix (d0 :: d) r1) as [[|c2 r2]|] eqn:E; [done| |done].
  destruct (chr_eq "F" c2); [|done].
  injection H as <- <-. apply strip_prefix_spec in E. subst r1.
  rewrite <- Hu. rewrite !length_app. cbn [length]. rewrite !length_app.
  cbn [length]. lia.
Qed.

Lemma norm_at_nondigit c t : is_digit c = false -> norm_at (c :: t) = None.
Proof. intros H. unfold norm_at. simpl. by rewrite H. Qed.

Lemma norm_at_hit n post :
  n <> [] -> forallb is_digit n = true ->
  norm_at (n ++ str "F" ++ n ++ str "F" ++ post)
  = Some ([(1, n)], length n + 1 + length n + 1).
Proof.
  intros Hn Hd. unfold norm_at. cbn [str list_ascii_of_string app].
  rewrite take_while_all, drop_while_all by done.
  destruct n as [|n0 n]; [done|].
  rewrite chr_eq_refl, strip_prefix_app. by rewrite chr_eq_refl.
Qed.

(** Inside [n] of a marker [[nF]] or [[n]] no duplicated marker starts. *)
Lemma norm_at_in_marker u (withF : bool) post :
  u <> [] -> forallb is_digit u = true ->
  norm_at (u ++ (if withF then str "F" else []) ++ str "]" ++ post) = None.
Proof.
  intros Hu Hd. unfold norm_at. destruct withF; cbn [str list_ascii_of_string app].
  - rewrite take_while_all, drop_while_all by done.
    destruct u as [|a u]; [done|]. rewrite chr_eq_refl. simpl.
    simpl in Hd. apply andb_true_iff in Hd as [Ha _].
    destruct (chr_eq a "]") eqn:E; [|done].
    apply chr_eq_true in E as ->. done.
  - rewrite take_while_all, drop_while_all by done.
    by destruct u.
Qed.

(** What follows an opening bracket does not change [norm_at] before it. *)
Lemma norm_at_barrier u x : norm_at (u ++ "["%char :: x) = norm_at u.
Proof.
  unfold norm_at.
  rewrite take_while_barrier, drop_while_barrier by done.
  pose proof (take_while_forallb is_digit u) as Hd.
  destruct (take_while is_digit u) as [|d0 d]; [done|].
  destruct (drop_while is_digit u) as [|c1 r1]; [done|].
  cbn [app]. destruct (chr_eq "F" c1); [|done].
  rewrite (strip_prefix_barrier is_digit) by done.
  destruct (Rx.strip_prefix (d0 :: d) r1) as [[|c2 r2]|]; done.
Qed.

Lemma bracket_at_len u cs len : bracket_at u = Some (cs, len) -> 0 < len <= length u.
Proof.
  unfold bracket_at. intros H. destruct u as [|c t]; [done|].
  destruct (chr_eq "[" c); [|done].
  pose proof (take_drop_while is_digit t) as Hu.
  destruct (take_while is_digit t) as [|d0 d]; [done|].
  destruct (drop_while is_digit t) as [|c1 r1]; [done|].
  rewrite <- Hu. rewrite length_cons, length_app.
  destruct (chr_eq "F" c1).
  - destruct r1 as [|c2 r2]; [done|]. destruct (chr_eq "]" c2); [|done].
    injection H as <- <-. simpl. lia.
  - destruct (chr_eq "]" c1); [|done].
    injection H as <- <-. simpl. lia.
Qed.

Lemma bare_at_len u cs len : bare_at u = Some (cs, len) -> 0 < len <= length u.
Proof.
  unfold bare_at. intros H.
  pose proof (take_drop_while is_digit u) as Hu.
  destruct (take_while is_digit u) as [|d0 d]; [done|].
  destruct (drop_while is_digit u) as [|c1 r1]; [done|].
  destruct (chr_eq "F" c1); [|done].
  injection H as <- <-. rewrite <- Hu, length_app. simpl. lia.
Qed.

Lemma marker_at_len u cs len : marker_at u = Some (cs, len) -> 0 < len <= length u.
Proof.
  unfold marker_at. destruct (bracket_at u) as [m|] eqn:E.
  - intros H. injection H as ->. by apply bracket_at_len in E.
  - apply bare_at_len.
Qed.

(** What follows an opening bracket does not change [marker_at] before it. *)
Lemma bracket_at_barrier u x :
  u <> [] -> bracket_at (u ++ "["%char :: x) = bracket_at u.
Proof.
  intros Hu. destruct u as [|c t]; [done|]. unfold bracket_at. cbn [app].
  destruct (chr_eq "[" c); [|done].
  rewrite take_while_barrier, drop_while_barrier by done.
  destruct (take_while is_digit t) as [|d0 d]; [done|].
  destruct (drop_while is_digit t) as [|c1 r1]; [done|].
  cbn [app]. destruct (chr_eq "F" c1); [|done].
  destruct r1 as [|c2 r2]; done.
Qed.

Lemma bare_at_barrier u x : bare_at (u ++ "["%char :: x) = bare_at u.
Proof.
  unfold bare_at. rewrite take_while_barrier, drop_while_barrier by done.
  destruct (take_while is_digit u) as [|d0 d]; [done|].
  destruct (drop_while is_digit u) as [|c1 r1]; done.
Qed.

Lemma marker_at_barrier u x :
  u <> [] -> marker_at (u ++ "["%char :: x) = marker_at u.
Proof.
  intros Hu. unfold marker_at. by rewrite bracket_at_barrier, bare_at_barrier.
Qed.

Lemma marker_at_bracket n (withF : bool) post :
  n <> [] -> forallb is_digit n = true ->
  marker_at (bracket_marker n withF ++ post)
  = Some ([(1, n)], length (bracket_marker n withF)).
Proof.
  intros Hn Hd. unfold marker_at, bracket_at, bracket_marker.
  rewrite <- !app_assoc. rewrite !length_app.
  destruct withF; cbn [str list_ascii_of_string app length];
    rewrite chr_eq_refl, take_while_all, drop_while_all by done;
    (destruct n as [|n0 n]; [done|]); rewrite ?chr_eq_refl;
    cbn [chr_eq Ascii.eqb Bool.eqb]; do 2 f_equal; cbn [length]; lia.
Qed.

Lemma marker_at_bare n post :
  n <> [] -> forallb is_digit n = true ->
  marker_at (n ++ str "F" ++ post) = Some ([(2, n)], length n + 1).
Proof.
  intros Hn Hd. unfold marker_at, bracket_at, bare_at.
  cbn [str list_ascii_of_string app].
  rewrite take_while_all, drop_while_all by done.
  destruct n as [|n0 n]; [done|]. cbn [app].
  simpl in Hd. apply andb_true_iff in Hd as [H0 _].
  rewrite (digit_not_lbracket n0 H0). by rewrite chr_eq_refl.
Qed.

(* ------------------------------------------------------------------ *)
(** ** normalizeRefs and processConlangInText around one marker *)

Lemma normalizeRefs_scan t :
  normalizeRefs t = Rx.scan (fun _ => norm_at) norm_repl 0 0 t.
Proof. unfold normalizeRefs, Rx.replace_all. apply scan_ext, match_at_NORMALIZE. Qed.

Lemma process_scan text fm :
  processConlangInText text fm
  = Rx.scan (fun _ => marker_at) (fun cs _ => conlang_callback fm cs) 0 0
      (normalizeRefs text).
Proof. unfold processConlangInText, Rx.replace_all. apply scan_ext, match_at_MARKER. Qed.

Lemma suffix_head_forallb (q : ascii -> bool) (u a : txt) :
  u <> [] -> u `suffix_of` a -> forallb q a = true ->
  exists c t, u = c :: t /\ q c = true.
Proof.
  intros Hu Hs Ha. pose proof (suffix_forallb q u a Hs Ha) as H.
  destruct u as [|c t]; [done|]. simpl in H. apply andb_true_iff in H as [Hc _].
  by exists c, t.
Qed.

Lemma normalizeRefs_no_digit s : no_digit s = true -> normalizeRefs s = s.
Proof.
  intros H. rewrite normalizeRefs_scan.
  rewrite <- (app_nil_r s) at 1. rewrite (sc_none norm_at).
  - rewrite (sc_nil norm_at) by apply norm_at_len. apply app_nil_r.
  - intros u Hu Hs. rewrite app_nil_r.
    destruct (suffix_head_forallb _ u s Hu Hs H) as (c & t & -> & Hc).
    apply norm_at_nondigit. by apply negb_true_iff.
Qed.

Lemma marker_at_no_digit c t : no_digit (c :: t) = true -> marker_at (c :: t) = None.
Proof.
  unfold no_digit. simpl. intros H. apply andb_true_iff in H as [Hc Ht].
  apply negb_true_iff in Hc.
  unfold marker_at, bracket_at, bare_at. cbn [take_while drop_while]. rewrite Hc.
  destruct (chr_eq "[" c); [|done].
  destruct t as [|a t]; [done|]. simpl in Ht. apply andb_true_iff in Ht as [Ha _].
  apply negb_true_iff in Ha. simpl. by rewrite Ha.
Qed.

Lemma process_no_digit s fm : no_digit s = true -> processConlangInText s fm = s.
Proof.
  intros H. rewrite process_scan, normalizeRefs_no_digit by done.
  rewrite <- (app_nil_r s) at 1. rewrite (sc_none marker_at).
  - rewrite (sc_nil marker_at) by apply marker_at_len. apply app_nil_r.
  - intros u Hu Hs. rewrite app_nil_r. destruct u as [|c t]; [done|].
    apply marker_at_no_digit. by apply (suffix_forallb _ _ s).
Qed.

(** The normalisation leaves a bracketed marker as it is and treats what
    stands before and after it apart. *)
Lemma normalizeRefs_marker pre n withF post :
  n <> [] -> forallb is_digit n = true ->
  normalizeRefs (pre ++ bracket_marker n withF ++ post)
  = normalizeRefs pre ++ bracket_marker n withF ++ normalizeRefs post.
Proof.
  intros Hn Hd. rewrite !normalizeRefs_scan. unfold bracket_marker.
  rewrite <- !app_assoc. cbn [str list_ascii_of_string app].
  rewrite (sc_split norm_at) by (apply norm_at_len || (intros; apply norm_at_barrier)).
  f_equal.
  rewrite sc_cons_none by (by apply norm_at_nondigit).
  f_equal. rewrite (sc_none norm_at).
  - f_equal. destruct withF; cbn [str list_ascii_of_string app];
      repeat (rewrite sc_cons_none by (by apply norm_at_nondigit); f_equal).
  - intros u Hu Hs.
    change ("]"%char :: post) with (str "]" ++ post).
    apply (norm_at_in_marker u withF post); [done|].
    by apply (suffix_forallb _ _ n).
Qed.

Lemma process_marker pre n withF post fm :
  n <> [] -> forallb is_digit n = true ->
  processConlangInText (pre ++ bracket_marker n withF ++ post) fm
  = processConlangInText pre fm ++ conlang_callback fm [(1, n)]
      ++ processConlangInText post fm.
Proof.
  intros Hn Hd. rewrite !process_scan, normalizeRefs_marker by done.
  rewrite (sc_split marker_at).
  - f_equal.
    rewrite (sc_hit marker_at _ marker_at_len _ _ _
               (marker_at_bracket n withF _ Hn Hd)).
    by rewrite drop_app_length.
  - apply marker_at_len.
  - intros u Hu _. unfold bracket_marker. cbn [str list_ascii_of_string app].
    by apply marker_at_barrier.
Qed.

Lemma callback_missing fm (g : bool) n :
  n <> [] -> truthy (fm !! n) = None ->
  conlang_callback fm [(if g then 1 else 2, n)]
  = span_html (str "conlang missing")
      (str "[translation missing for " ++ n ++ str "]") (n ++ str "F").
Proof.
  intros Hn Hf. unfold conlang_callback.
  destruct n as [|n0 n]; [done|].
  assert (or_else (Rx.cap 1 [(if g then 1 else 2, n0 :: n)])
                  (Rx.cap 2 [(if g then 1 else 2, n0 :: n)])
          = Some (n0 :: n)) as -> by (by destruct g).
  cbv beta iota zeta. by rewrite Hf.
Qed.

(* ------------------------------------------------------------------ *)
(** ** cleanupArtifacts *)

Lemma run_bracket_num p cs s :
  head (Rx.run (Rx.Opt (Rx.Seq (Rx.Chr (chr_eq "["))
                          (Rx.Seq (Rx.Plus (Rx.Chr is_digit)) (Rx.Chr (chr_eq "]")))))
               (Rx.MS p cs s))
  = Some (Rx.MS (p + bracket_num_len s) cs (drop (bracket_num_len s) s)).
Proof.
  rewrite run_opt, run_seq. unfold bracket_num_len.
  destruct s as [|c t].
  - rewrite run_chr_nil. simpl. by rewrite Nat.add_0_r.
  - rewrite run_chr_cons. destruct (chr_eq "[" c).
    2:{ simpl. by rewrite Nat.add_0_r. }
    rewrite flat_map_one, run_plus_then.
    2:{ intros st c' t' Hr Hc'.
        by apply (run_chr_reject _ st c' t' Hr), digit_not_rbracket. }
    assert (Hdr : forall k, drop (length (take_while is_digit t) + k) t
                            = drop k (drop_while is_digit t)).
    { clear. intros k. induction t as [|a t IH]; [by destruct k|].
      simpl. destruct (is_digit a); [apply IH|done]. }
    destruct (take_while is_digit t) as [|d0 d].
    { simpl. by rewrite Nat.add_0_r. }
    destruct (drop_while is_digit t) as [|c1 r1] eqn:Hdw.
    { rewrite run_chr_nil. simpl. by rewrite Nat.add_0_r. }
    rewrite run_chr_cons. destruct (chr_eq "]" c1).
    2:{ simpl. by rewrite Nat.add_0_r. }
    cbn [app head]. f_equal. f_equal; [lia|].
    replace (1 + length (d0 :: d) + 1) with (S (length (d0 :: d) + 1)) by lia.
    cbn [drop]. by rewrite Hdr.
Qed.

Lemma match_at_ARTIFACT p s : Rx.match_at ARTIFACT_RX p s = artifact_at s.
Proof.
  unfold Rx.match_at, Rx.at_pos.
  change ARTIFACT_RX with
    (Rx.Seq (Rx.Grp 1 (Rx.Plus (Rx.Chr is_digit)))
       (Rx.Seq (Rx.Chr (chr_eq "F"))
          (Rx.Seq (Rx.Ref 1)
             (Rx.Seq (Rx.Chr (chr_eq "F"))
                (Rx.Opt (Rx.Seq (Rx.Chr (chr_eq "["))
                           (Rx.Seq (Rx.Plus (Rx.Chr is_digit))
                                   (Rx.Chr (chr_eq "]"))))))))).
  rewrite run_grp_plus_then.
  2:{ intros st c t Hr Hc. rewrite run_seq.
      by rewrite (run_chr_reject _ st c t Hr (digit_not_F c Hc)). }
  unfold artifact_at. destruct (take_while is_digit s) as [|d0 d]; [done|].
  destruct (drop_while is_digit s) as [|c1 r1]; [done|].
  rewrite run_seq, run_chr_cons. destruct (chr_eq "F" c1); [|done].
  rewrite flat_map_one, run_seq, run_ref. cbn [Rx.cap Nat.eqb].
  destruct (Rx.strip_prefix (d0 :: d) r1) as [[|c2 r3]|]; [done| |done].
  rewrite flat_map_one, run_seq, run_chr_cons. destruct (chr_eq "F" c2); [|done].
  rewrite flat_map_one, run_bracket_num.
  cbn [Rx.caps Rx.pos]. do 2 f_equal. lia.
Qed.

Lemma bracket_num_len_le s : bracket_num_len s <= length s.
Proof.
  unfold bracket_num_len. destruct s as [|c t]; [done|].
  destruct (chr_eq "[" c); [|lia].
  pose proof (take_drop_while is_digit t) as Hu.
  destruct (take_while is_digit t) as [|d0 d]; [lia|].
  destruct (drop_while is_digit t) as [|c1 r1]; [lia|].
  destruct (chr_eq "]" c1); [|lia].
  rewrite <- Hu. cbn [length]. rewrite length_app. simpl. lia.
Qed.

Lemma artifact_at_len u cs len : artifact_at u = Some (cs, len) -> 0 < len <= length u.
Proof.
  unfold artifact_at. intros H.
  pose proof (take_drop_while is_digit u) as Hu.
  destruct (take_while is_digit u) as [|d0 d]; [done|].
  destruct (drop_while is_digit u) as [|c1 r1]; [done|].
  destruct (chr_eq "F" c1); [|done].
  destruct (Rx.strip_prefix (d0 :: d) r1) as [[|c2 r2]|] eqn:E; [done| |done].
  destruct (chr_eq "F" c2); [|done].
  injection H as <- <-. apply strip_prefix_spec in E. subst r1.
  pose proof (bracket_num_len_le r2).
  rewrite <- Hu. rewrite !length_app. cbn [length]. rewrite !length_app.
  cbn [length]. lia.
Qed.

Lemma cleaned_scan t :
  cleaned t = Rx.scan (fun _ => artifact_at) Rx.erase_all 0 0 t.
Proof. unfold cleaned, Rx.replace_all. apply scan_ext, match_at_ARTIFACT. Qed.

(* ------------------------------------------------------------------ *)
(** ** A marker in any text *)

Lemma chr_eq_sym a b : chr_eq a b = chr_eq b a.
Proof. unfold chr_eq. apply Ascii.eqb_sym. Qed.

Lemma drop_while_head q s c r : drop_while q s = c :: r -> q c = false.
Proof.
  induction s as [|a s IH]; [done|]. simpl.
  destruct (q a) eqn:E; [done|]. intros H. by injection H as <- _.
Qed.

(** The shape of a text in which [norm_at] finds a duplicated marker. *)
Lemma norm_at_inv s cs len :
  norm_at s = Some (cs, len) ->
  exists d r, d <> [] /\ forallb is_digit d = true
    /\ s = d ++ str "F" ++ d ++ str "F" ++ r
    /\ cs = [(1, d)] /\ len = length (d ++ str "F" ++ d ++ str "F").
Proof.
  unfold norm_at. intros H.
  pose proof (take_drop_while is_digit s) as Hs.
  pose proof (take_while_forallb is_digit s) as Hd.
  destruct (take_while is_digit s) as [|d0 d]; [done|].
  destruct (drop_while is_digit s) as [|c1 r1]; [done|].
  destruct (chr_eq "F" c1) eqn:E1; [|done]. apply chr_eq_true in E1 as <-.
  destruct (Rx.strip_prefix (d0 :: d) r1) as [[|c2 r2]|] eqn:E; [done| |done].
  destruct (chr_eq "F" c2) eqn:E2; [|done]. apply chr_eq_true in E2 as <-.
  injection H as <- <-. apply strip_prefix_spec in E. subst r1.
  exists (d0 :: d), r2. split; [done|]. split; [done|].
  split; [by rewrite <- Hs|]. split; [done|].
  rewrite !length_app. simpl. lia.
Qed.

Lemma norm_at_shape d r :
  d <> [] -> forallb is_digit d = true ->
  norm_at (d ++ str "F" ++ d ++ str "F" ++ r)
  = Some ([(1, d)], length (d ++ str "F" ++ d ++ str "F")).
Proof.
  intros Hn Hd. rewrite (norm_at_hit d r Hn Hd). do 2 f_equal.
  rewrite !length_app. simpl. lia.
Qed.

(** A prefix of digits that is followed by [F] in a text that begins with a
    numeral and [F] is that numeral. *)
Lemma strip_prefix_numeral d n w c r :
  forallb is_digit d = true -> forallb is_digit n = true ->
  Rx.strip_prefix d (n ++ str "F" ++ w) = Some (c :: r) -> chr_eq "F" c = true ->
  d = n.
Proof.
  revert n. induction d as [|a d IH]; intros n Hd Hn H Hc.
  - simpl in H. destruct n as [|b n]; [done|].
    injection H as <- _. simpl in Hn. apply andb_true_iff in Hn as [Hb _].
    by rewrite (digit_not_F _ Hb) in Hc.
  - simpl in Hd. apply andb_true_iff in Hd as [Ha Hd].
    destruct n as [|b n].
    + simpl in H. rewrite chr_eq_sym in H.
      by rewrite (digit_not_F _ Ha) in H.
    + simpl in H, Hn. apply andb_true_iff in Hn as [_ Hn].
      destruct (chr_eq a b) eqn:E; [|done].
      apply chr_eq_true in E as ->. f_equal. by apply (IH n).
Qed.

(** Comparing a numeral [d] with what follows: a marker [nF] written after
    [r] can only complete the comparison when [d] is [r] followed by [n]. *)
Lemma strip_prefix_before_marker {A : Type} (X : A) d r n w :
  n <> [] -> forallb is_digit d = true -> forallb is_digit n = true ->
  d <> r ++ n ->
  match Rx.strip_prefix d (r ++ n ++ str "F" ++ w) with
  | Some (c2 :: _) => if chr_eq "F" c2 then Some X else None
  | _ => None
  end
  = match Rx.strip_prefix d r with
    | Some (c2 :: _) => if chr_eq "F" c2 then Some X else None
    | _ => None
    end.
Proof.
  intros Hn Hd Hdn. revert r. induction d as [|a d IH]; intros r Hne.
  - cbn [Rx.strip_prefix]. destruct r as [|c r]; [|done].
    destruct n as [|b n]; [done|]. cbn [forallb] in Hdn.
    apply andb_true_iff in Hdn as [Hb _]. cbn [app].
    by rewrite (digit_not_F _ Hb).
  - simpl in Hd. apply andb_true_iff in Hd as [Ha Hd].
    destruct r as [|b r].
    + cbn [app]. replace (Rx.strip_prefix (a :: d) []) with (@None txt) by done.
      destruct (Rx.strip_prefix (a :: d) (n ++ str "F" ++ w))
        as [[|c2 r2]|] eqn:E; [done| |done].
      destruct (chr_eq "F" c2) eqn:E2; [|done].
      exfalso. apply Hne. cbn [app].
      apply (strip_prefix_numeral (a :: d) n w c2 r2); [|done..].
      simpl. by rewrite Ha, Hd.
    + cbn [app Rx.strip_prefix]. destruct (chr_eq a b) eqn:E; [|done].
      apply chr_eq_true in E as ->. apply IH; [done|].
      intros ->. by apply Hne.
Qed.

Lemma starts_with_prefix p r : starts_with p (p ++ r) = true.
Proof. induction p as [|a p IH]; [done|]. simpl. by rewrite chr_eq_refl. Qed.

Lemma take_while_forallb_all q s : forallb q s = true -> take_while q s = s.
Proof.
  induction s as [|c t IH]; [done|]. simpl. intros H.
  apply andb_true_iff in H as [-> H]. by rewrite IH.
Qed.

Lemma drop_while_forallb_all q s : forallb q s = true -> drop_while q s = [].
Proof.
  induction s as [|c t IH]; [done|]. simpl. intros H.
  apply andb_true_iff in H as [-> H]. by rewrite IH.
Qed.

Lemma trailing_digits_after p c x :
  is_digit c = false -> forallb is_digit x = true ->
  trailing_digits (p ++ c :: x) = x.
Proof.
  intros Hc Hx. induction p as [|a p IH].
  - cbn [app trailing_digits forallb]. rewrite Hc. cbn [andb].
    destruct x as [|b x]; [done|]. cbn [trailing_digits]. by rewrite Hx.
  - cbn [app trailing_digits].
    assert (forallb is_digit (a :: p ++ c :: x) = false) as ->; [|done].
    cbn [forallb]. rewrite forallb_app. cbn [forallb]. rewrite Hc.
    by rewrite andb_false_r, andb_false_r.
Qed.

Lemma ends_with_true x s : ends_with x s = true <-> x `suffix_of` s.
Proof. unfold ends_with. apply bool_decide_eq_true. Qed.

Lemma ends_with_false x s : ends_with x s = false <-> ~ x `suffix_of` s.
Proof. unfold ends_with. apply bool_decide_eq_false. Qed.

(** [pre] ends with [kFx], [k] being [x] followed by [n]. *)
Lemma overlapped_intro p x n :
  forallb is_digit x = true ->
  overlapped (p ++ (x ++ n) ++ str "F" ++ x) n = true.
Proof.
  intros Hx. unfold overlapped.
  assert (trailing_digits (p ++ (x ++ n) ++ str "F" ++ x) = x) as ->.
  { replace (p ++ (x ++ n) ++ str "F" ++ x)
      with ((p ++ x ++ n) ++ "F"%char :: x) by (by rewrite <- !app_assoc).
    by apply trailing_digits_after. }
  apply ends_with_true. by exists p.
Qed.

(** What a marker [nF] written after [pre] changes for a duplicated marker
    that starts in [pre]: nothing, unless it completes one. *)
Lemma norm_at_before_marker pre n w u :
  n <> [] -> forallb is_digit n = true ->
  (forall x, x <> [] -> forallb is_digit x = true -> x `suffix_of` pre ->
     starts_with ((x ++ n) ++ str "F") w = false) ->
  overlapped pre n = false ->
  u <> [] -> u `suffix_of` pre ->
  norm_at (u ++ n ++ str "F" ++ w) = norm_at u.
Proof.
  intros Hn Hdn Ha Ho Hu Hs.
  pose proof (take_drop_while is_digit u) as Eu.
  pose proof (take_while_forallb is_digit u) as Hd.
  destruct (drop_while is_digit u) as [|c1 r1] eqn:Er.
  - (* [u] holds digits only *)
    rewrite app_nil_r in Eu. rewrite Eu in Hd. clear Eu Er.
    specialize (Ha u Hu Hd Hs).
    assert (Hr : norm_at u = None).
    { unfold norm_at. rewrite drop_while_forallb_all by done.
      by destruct (take_while is_digit u). }
    rewrite Hr. unfold norm_at.
    replace (u ++ n ++ str "F" ++ w)
      with ((u ++ n) ++ "F"%char :: w) by (by rewrite <- app_assoc).
    rewrite take_while_all, drop_while_all
      by (done || (rewrite forallb_app; by rewrite Hd, Hdn)).
    destruct (u ++ n) as [|k0 k] eqn:Ek; [done|].
    rewrite chr_eq_refl.
    destruct (Rx.strip_prefix (k0 :: k) w) as [[|c2 r2]|] eqn:E; [done| |done].
    destruct (chr_eq "F" c2) eqn:E2; [|done].
    apply chr_eq_true in E2 as <-. apply strip_prefix_spec in E. subst w.
    rewrite <- Ek in Ha.
    replace ((u ++ n) ++ "F"%char :: r2)
      with (((u ++ n) ++ str "F") ++ r2) in Ha by (by rewrite <- !app_assoc).
    by rewrite starts_with_prefix in Ha.
  - pose proof (drop_while_head _ _ _ _ Er) as Hc1. clear Er.
    remember (take_while is_digit u) as d eqn:Ed. clear Ed. subst u.
    unfold norm_at. rewrite <- !app_assoc. cbn [app].
    rewrite !take_while_all, !drop_while_all by done.
    destruct d as [|d0 d]; [done|].
    destruct (chr_eq "F" c1) eqn:E1; [|done].
    apply chr_eq_true in E1 as <-.
    apply strip_prefix_before_marker; [done..|].
    intros Hk. destruct Hs as [p Hp].
    assert (Hr1 : forallb is_digit r1 = true).
    { rewrite Hk, forallb_app in Hd. by apply andb_true_iff in Hd as [? _]. }
    rewrite Hk in Hp. subst pre.
    rewrite <- app_assoc in Ho. cbn [app] in Ho.
    pose proof (overlapped_intro p r1 n Hr1) as Ho'.
    rewrite <- !app_assoc in Ho'. cbn [app] in Ho'. cbn [str list_ascii_of_string app] in Ho'.
    congruence.
Qed.

(** No duplicated marker starts inside the numeral of a marker [nF] when
    what follows does not double the end of the marker. *)
Lemma norm_at_in_numeral u n post :
  u <> [] -> forallb is_digit n = true -> u `suffix_of` n ->
  tail_repeated n post = false ->
  norm_at (u ++ str "F" ++ post) = None.
Proof.
  intros Hu Hdn Hs Ht.
  pose proof (suffix_forallb _ _ _ Hs Hdn) as Hd.
  unfold norm_at. cbn [str list_ascii_of_string app].
  rewrite take_while_all, drop_while_all by done.
  destruct u as [|a u]; [done|]. rewrite chr_eq_refl.
  destruct (Rx.strip_prefix (a :: u) post) as [[|c2 r2]|] eqn:E; [done| |done].
  destruct (chr_eq "F" c2) eqn:E2; [|done].
  apply chr_eq_true in E2 as <-. apply strip_prefix_spec in E. subst post.
  unfold tail_repeated in Ht.
  rewrite take_while_all, drop_while_all in Ht by done.
  cbn [app] in Ht. rewrite chr_eq_refl in Ht.
  by rewrite (proj2 (ends_with_true _ _) Hs) in Ht.
Qed.

Lemma ends_with_digit_suffix u a :
  u <> [] -> u `suffix_of` a -> ends_with_digit u = ends_with_digit a.
Proof.
  intros Hu [k ->]. unfold ends_with_digit. rewrite last_app.
  destruct u as [|c u]; [done|]. rewrite last_cons.
  by destruct (last u).
Qed.

Lemma last_suffix_of (u a : txt) :
  u <> [] -> u `suffix_of` a -> last a = last u.
Proof.
  intros Hu [k ->]. rewrite last_app.
  destruct u as [|c u]; [done|]. rewrite last_cons. by destruct (last u).
Qed.

Lemma ends_with_digit_all u :
  u <> [] -> forallb is_digit u = true -> ends_with_digit u = true.
Proof.
  intros Hu Hd. unfold ends_with_digit.
  destruct (last u) as [c|] eqn:E.
  - apply last_Some in E as [l ->]. rewrite forallb_app in Hd.
    apply andb_true_iff in Hd as [_ Hd]. simpl in Hd.
    by apply andb_true_iff in Hd as [? _].
  - apply last_None in E. done.
Qed.

(** Without a digit at its end, [pre] is overlapped by a marker [nF] only
    when it ends with [nF]. *)
Lemma overlapped_no_digit pre n :
  ends_with_digit pre = false -> overlapped pre n = ends_with (n ++ str "F") pre.
Proof.
  intros H. unfold overlapped.
  assert (trailing_digits pre = []) as ->; [|by rewrite app_nil_r].
  induction pre as [|c pre IH]; [done|].
  cbn [trailing_digits].
  destruct (forallb is_digit (c :: pre)) eqn:E.
  - by rewrite ends_with_digit_all in H.
  - destruct pre as [|c' pre]; [done|]. apply IH.
    rewrite <- H. apply ends_with_digit_suffix; [done|].
    by apply suffix_cons_r.
Qed.

(** The normalisation around a bare marker. *)
Lemma normalizeRefs_bare pre n post :
  n <> [] -> forallb is_digit n = true ->
  ends_with_digit pre = false -> ends_with (n ++ str "F") pre = false ->
  tail_repeated n post = false ->
  normalizeRefs (pre ++ n ++ str "F" ++ post)
  = normalizeRefs pre ++ n ++ str "F" ++ normalizeRefs post.
Proof.
  intros Hn Hd Ha Hb Ht. rewrite !normalizeRefs_scan.
  rewrite (sc_split norm_at).
  2:{ apply norm_at_len. }
  2:{ intros u Hu Hs. apply (norm_at_before_marker pre); try done.
      - intros x Hx Hdx Hsx.
        rewrite <- (ends_with_digit_suffix x pre Hx Hsx) in Ha.
        by rewrite ends_with_digit_all in Ha.
      - by rewrite overlapped_no_digit. }
  f_equal. rewrite (sc_none norm_at).
  2:{ intros u Hu Hs. by apply (norm_at_in_numeral u n). }
  f_equal. cbn [str list_ascii_of_string app].
  by rewrite sc_cons_none by (by apply norm_at_nondigit).
Qed.

(** The normalisation around a duplicated marker. *)
Lemma normalizeRefs_duplicate pre n post :
  n <> [] -> forallb is_digit n = true -> overlapped pre n = false ->
  normalizeRefs (pre ++ n ++ str "F" ++ n ++ str "F" ++ post)
  = normalizeRefs pre ++ n ++ str "F" ++ normalizeRefs post.
Proof.
  intros Hn Hd Ho. rewrite !normalizeRefs_scan.
  rewrite (sc_split norm_at).
  2:{ apply norm_at_len. }
  2:{ intros u Hu Hs. apply (norm_at_before_marker pre); try done.
      intros x Hx Hdx Hsx.
      destruct (starts_with ((x ++ n) ++ str "F") (n ++ str "F" ++ post)) eqn:E;
        [|done].
      apply starts_with_app in E as [r E]. exfalso.
      assert (H : Rx.strip_prefix (x ++ n) (n ++ str "F" ++ post)
                  = Some ("F"%char :: r)).
      { rewrite E, <- app_assoc. apply strip_prefix_app. }
      apply strip_prefix_numeral in H; [| |done|done].
      - apply (f_equal length) in H. rewrite length_app in H.
        destruct x; [done|]. simpl in H. lia.
      - rewrite forallb_app. by rewrite Hdx, Hd. }
  f_equal.
  rewrite (sc_hit norm_at _ norm_at_len _ _ _ (norm_at_shape n post Hn Hd)).
  unfold norm_repl at 1, Rx.dollar. cbn [Rx.cap Nat.eqb].
  rewrite <- app_assoc. do 2 f_equal.
  replace (n ++ str "F" ++ n ++ str "F" ++ post)
    with ((n ++ str "F" ++ n ++ str "F") ++ post) by (by rewrite <- !app_assoc).
  by rewrite drop_app_length.
Qed.

(** The normalisation keeps the last and the first code unit of a text. *)
Lemma last_normalizeRefs s : last (normalizeRefs s) = last s.
Proof.
  rewrite normalizeRefs_scan.
  remember (length s) as k eqn:Ek.
  assert (Hk : length s <= k) by lia. clear Ek. revert s Hk.
  induction k as [|k IH]; intros s Hk.
  { destruct s; [|simpl in Hk; lia]. by rewrite (sc_nil norm_at) by apply norm_at_len. }
  destruct s as [|c t].
  { by rewrite (sc_nil norm_at) by apply norm_at_len. }
  destruct (norm_at (c :: t)) as [[cs len]|] eqn:E.
  - rewrite (sc_hit norm_at _ norm_at_len _ _ _ E).
    apply norm_at_inv in E as (d & r & Hd0 & Hd & Es & -> & ->).
    rewrite Es.
    replace (d ++ str "F" ++ d ++ str "F" ++ r)
      with ((d ++ str "F" ++ d ++ str "F") ++ r) by (by rewrite <- !app_assoc).
    rewrite drop_app_length, !last_app.
    rewrite IH.
    2:{ apply (f_equal length) in Es. rewrite !length_app in Es.
        simpl in Es, Hk. lia. }
    destruct (last r); [done|].
    unfold norm_repl, Rx.dollar. cbn [Rx.cap Nat.eqb].
    by rewrite !last_app.
  - rewrite (sc_cons_none norm_at) by done.
    rewrite !last_cons. rewrite IH by (simpl in Hk; lia). done.
Qed.

Lemma head_normalizeRefs s : head (normalizeRefs s) = head s.
Proof.
  rewrite normalizeRefs_scan. destruct s as [|c t].
  { by rewrite (sc_nil norm_at) by apply norm_at_len. }
  destruct (norm_at (c :: t)) as [[cs len]|] eqn:E.
  - rewrite (sc_hit norm_at _ norm_at_len _ _ _ E).
    apply norm_at_inv in E as (d & r & Hd0 & Hd & Es & -> & ->).
    unfold norm_repl, Rx.dollar. cbn [Rx.cap Nat.eqb].
    destruct d as [|d0 d]; [done|]. by injection Es as ->.
  - by rewrite (sc_cons_none norm_at) by done.
Qed.

Lemma ends_with_digit_normalizeRefs s :
  ends_with_digit (normalizeRefs s) = ends_with_digit s.
Proof. unfold ends_with_digit. by rewrite last_normalizeRefs. Qed.

Lemma bracketed_normalizeRefs pre post :
  bracketed (normalizeRefs pre) (normalizeRefs post) = bracketed pre post.
Proof.
  unfold bracketed. rewrite last_normalizeRefs.
  pose proof (head_normalizeRefs post) as H.
  destruct (normalizeRefs post), post; simpl in H; try done.
  by injection H as ->.
Qed.

Lemma bracket_at_before_marker n w u :
  n <> [] -> forallb is_digit n = true ->
  ends_with_digit u = false -> bracketed u w = false ->
  bracket_at (u ++ n ++ str "F" ++ w) = bracket_at u.
Proof.
  intros Hn Hdn Ha Hb.
  destruct u as [|c t].
  { destruct n as [|n0 n]; [done|]. cbn [forallb] in Hdn.
    apply andb_true_iff in Hdn as [Hn0 _]. unfold bracket_at. cbn [app].
    by rewrite (digit_not_lbracket _ Hn0). }
  unfold bracket_at. cbn [app].
  destruct (chr_eq "[" c) eqn:Ec; [|done]. apply chr_eq_true in Ec as <-.
  pose proof (take_drop_while is_digit t) as Et.
  pose proof (take_while_forallb is_digit t) as Hd.
  destruct (drop_while is_digit t) as [|c1 r1] eqn:Er.
  - rewrite app_nil_r in Et. rewrite Et in Hd. clear Et Er.
    destruct t as [|t0 t].
    + cbn [str list_ascii_of_string app].
      rewrite take_while_all, drop_while_all by done.
      destruct n as [|n0 n]; [done|]. rewrite chr_eq_refl.
      unfold bracketed in Hb. cbn [last] in Hb.
      destruct w as [|b w]; [done|]. rewrite chr_eq_refl in Hb.
      cbn [andb] in Hb. rewrite chr_eq_sym. by rewrite Hb.
    + exfalso. assert (H : ends_with_digit ("["%char :: t0 :: t) = true); [|congruence].
      rewrite <- (ends_with_digit_suffix (t0 :: t) ("["%char :: t0 :: t));
        [by apply ends_with_digit_all|done|by apply suffix_cons_r].
  - pose proof (drop_while_head _ _ _ _ Er) as Hc1. clear Er.
    remember (take_while is_digit t) as d eqn:Ed. clear Ed. subst t.
    rewrite <- !app_assoc. cbn [app].
    rewrite !take_while_all, !drop_while_all by done.
    destruct d as [|d0 d]; [done|].
    destruct (chr_eq "F" c1); [|done].
    destruct r1 as [|c2 r2]; [|done]. cbn [app].
    destruct n as [|n0 n]; [done|]. cbn [forallb] in Hdn.
    apply andb_true_iff in Hdn as [Hn0 _]. cbn [app].
    by rewrite (digit_not_rbracket _ Hn0).
Qed.

Lemma bare_at_before_marker n w u :
  u <> [] -> ends_with_digit u = false ->
  bare_at (u ++ n ++ str "F" ++ w) = bare_at u.
Proof.
  intros Hu Ha.
  pose proof (take_drop_while is_digit u) as Et.
  pose proof (take_while_forallb is_digit u) as Hd.
  destruct (drop_while is_digit u) as [|c1 r1] eqn:Er.
  - rewrite app_nil_r in Et. rewrite Et in Hd.
    by rewrite ends_with_digit_all in Ha.
  - pose proof (drop_while_head _ _ _ _ Er) as Hc1. clear Er.
    remember (take_while is_digit u) as d eqn:Ed. clear Ed. subst u.
    unfold bare_at. rewrite <- !app_assoc. cbn [app].
    by rewrite !take_while_all, !drop_while_all by done.
Qed.

(** What a marker [nF] written after [a] changes for a marker that starts
    in [a]: nothing, unless a digit or an opening bracket stands before
    it. *)
Lemma marker_at_before_marker a n w u :
  n <> [] -> forallb is_digit n = true ->
  ends_with_digit a = false -> bracketed a w = false ->
  u <> [] -> u `suffix_of` a ->
  marker_at (u ++ n ++ str "F" ++ w) = marker_at u.
Proof.
  intros Hn Hdn Ha Hb Hu Hs.
  rewrite <- (ends_with_digit_suffix u a Hu Hs) in Ha.
  unfold bracketed in Hb. rewrite (last_suffix_of u a Hu Hs) in Hb.
  unfold marker_at.
  by rewrite bracket_at_before_marker, bare_at_before_marker.
Qed.

Lemma callback_span fm (g : bool) n :
  n <> [] -> conlang_callback fm [(if g then 1 else 2, n)] = marker_span fm n.
Proof.
  intros Hn. unfold conlang_callback, marker_span.
  destruct n as [|n0 n]; [done|].
  assert (or_else (Rx.cap 1 [(if g then 1 else 2, n0 :: n)])
                  (Rx.cap 2 [(if g then 1 else 2, n0 :: n)])
          = Some (n0 :: n)) as -> by (by destruct g).
  done.
Qed.

(** Substitution around a bare marker. *)
Lemma process_bare_marker pre n post fm :
  n <> [] -> forallb is_digit n = true ->
  ends_with_digit pre = false -> ends_with (n ++ str "F") pre = false ->
  bracketed pre post = false -> tail_repeated n post = false ->
  processConlangInText (pre ++ n ++ str "F" ++ post) fm
  = processConlangInText pre fm ++ marker_span fm n
      ++ processConlangInText post fm.
Proof.
  intros Hn Hd Ha Hb Hc Ht.
  rewrite !process_scan, normalizeRefs_bare by done.
  rewrite (sc_split marker_at).
  2:{ apply marker_at_len. }
  2:{ intros u Hu Hs.
      apply (marker_at_before_marker (normalizeRefs pre)); try done.
      - by rewrite ends_with_digit_normalizeRefs.
      - by rewrite bracketed_normalizeRefs. }
  f_equal.
  rewrite (sc_hit marker_at _ marker_at_len _ _ _ (marker_at_bare n _ Hn Hd)).
  rewrite (callback_span fm false n Hn). f_equal.
  replace (length n + 1) with (length (n ++ str "F"))
    by (rewrite length_app; simpl; lia).
  by rewrite app_assoc, drop_app_length.
Qed.

(** Substitution around a duplicated marker. *)
Lemma process_duplicate pre n post fm :
  n <> [] -> forallb is_digit n = true ->
  ends_with_digit pre = false -> ends_with (n ++ str "F") pre = false ->
  bracketed pre post = false ->
  processConlangInText (pre ++ n ++ str "F" ++ n ++ str "F" ++ post) fm
  = processConlangInText pre fm ++ marker_span fm n
      ++ processConlangInText post fm.
Proof.
  intros Hn Hd Ha Hb Hc.
  rewrite !process_scan, normalizeRefs_duplicate
    by (done || by rewrite overlapped_no_digit).
  rewrite (sc_split marker_at).
  2:{ apply marker_at_len. }
  2:{ intros u Hu Hs.
      apply (marker_at_before_marker (normalizeRefs pre)); try done.
      - by rewrite ends_with_digit_normalizeRefs.
      - by rewrite bracketed_normalizeRefs. }
  f_equal.
  rewrite (sc_hit marker_at _ marker_at_len _ _ _ (marker_at_bare n _ Hn Hd)).
  rewrite (callback_span fm false n Hn). f_equal.
  replace (length n + 1) with (length (n ++ str "F"))
    by (rewrite length_app; simpl; lia).
  by rewrite app_assoc, drop_app_length.
Qed.

(* ------------------------------------------------------------------ *)
(** ** Texts a replacement leaves as they are *)

Lemma suffix_cons_cases (u : txt) c t :
  u `suffix_of` c :: t -> u = c :: t \/ u `suffix_of` t.
Proof.
  destruct u as [|x u]; [right; apply suffix_nil|]. apply suffix_cons_inv.
Qed.

(** A pattern is found nowhere in [s] when it matches at no end of [s]. *)
Lemma test_false_suffix r (m : txt -> option (list (nat * txt) * nat)) s :
  (forall p u, Rx.match_at r p u = m u) ->
  Rx.test r s = false <-> (forall u, u `suffix_of` s -> m u = None).
Proof.
  intros Hm.
  assert (Ha : forall p u, Rx.at_pos r p u = None <-> m u = None).
  { intros p u. rewrite <- (Hm p u). unfold Rx.match_at.
    by destruct (Rx.at_pos r p u). }
  unfold Rx.test, Rx.exec.
  enough (H : forall p, Rx.search_from r p s = None
                        <-> (forall u, u `suffix_of` s -> m u = None)).
  { rewrite <- (H 0). by destruct (Rx.search_from r 0 s). }
  induction s as [|c t IH]; intros p.
  - cbn [Rx.search_from]. split.
    + intros H u Hu. apply suffix_nil_inv in Hu as ->. apply (Ha p).
      by destruct (Rx.at_pos r p []).
    + intros H. specialize (H [] (suffix_nil [])). apply (Ha p) in H.
      by rewrite H.
  - cbn [Rx.search_from]. split.
    + intros H u Hu. destruct (Rx.at_pos r p (c :: t)) eqn:E; [done|].
      apply suffix_cons_cases in Hu as [->|Hu]; [by apply (Ha p)|].
      by apply (IH (S p)).
    + intros H. pose proof (H (c :: t) (reflexivity _)) as H0.
      apply (Ha p) in H0. rewrite H0. apply IH.
      intros u Hu. apply H. by apply suffix_cons_r.
Qed.

Section Shrink.
Variable m : txt -> option (list (nat * txt) * nat).
Variable f : list (nat * txt) -> txt -> txt.
Hypothesis m_len : forall u cs len, m u = Some (cs, len) -> 0 < len <= length u.

(** The replacement is shorter than the match. *)
Hypothesis f_short :
  forall u cs len, m u = Some (cs, len) -> length (f cs (take len u)) < len.

Local Abbreviation sc s := (Rx.scan (fun _ => m) f 0 0 s).

Lemma sc_length s : length (sc s) <= length s.
Proof using m_len f_short.
  remember (length s) as k eqn:Ek.
  assert (Hk : length s <= k) by lia. rewrite Ek. clear Ek. revert s Hk.
  induction k as [|k IH]; intros s Hk.
  { destruct s; [|simpl in Hk; lia]. by rewrite (sc_nil m f m_len). }
  destruct s as [|c t]; [by rewrite (sc_nil m f m_len)|].
  destruct (m (c :: t)) as [[cs len]|] eqn:E.
  - rewrite (sc_hit m f m_len _ _ _ E), length_app.
    pose proof (m_len _ _ _ E) as Hl. pose proof (f_short _ _ _ E) as Hf.
    assert (length (sc (drop len (c :: t))) <= length (drop len (c :: t))).
    { apply IH. rewrite length_drop. simpl in Hk, Hl |- *. lia. }
    rewrite length_drop in H. lia.
  - rewrite (sc_cons_none m f) by done. cbn [length].
    assert (length (sc t) <= length t) by (apply IH; simpl in Hk; lia). lia.
Qed.

(** A text comes back as it is only when no match starts in it. *)
Lemma sc_fixed s : sc s = s -> forall u, u `suffix_of` s -> m u = None.
Proof using m_len f_short.
  induction s as [|c t IH]; intros H u Hu.
  - apply suffix_nil_inv in Hu as ->. apply (m_nil m m_len).
  - destruct (m (c :: t)) as [[cs len]|] eqn:E.
    + exfalso. apply (f_equal length) in H.
      rewrite (sc_hit m f m_len _ _ _ E), length_app in H.
      pose proof (m_len _ _ _ E) as Hl. pose proof (f_short _ _ _ E) as Hf.
      pose proof (sc_length (drop len (c :: t))) as Hd.
      rewrite length_drop in Hd. lia.
    + rewrite (sc_cons_none m f) in H by done. injection H as H.
      apply suffix_cons_cases in Hu as [->|Hu]; [done|]. by apply IH.
Qed.

Lemma sc_unchanged s : (forall u, u `suffix_of` s -> m u = None) -> sc s = s.
Proof using Type.
  intros H. rewrite <- (app_nil_r s) at 1. rewrite (sc_none m f).
  - simpl. rewrite (H [] (suffix_nil s)). apply app_nil_r.
  - intros u _ Hu. rewrite app_nil_r. by apply H.
Qed.

Lemma sc_shrinks s : sc s <> s -> length (sc s) < length s.
Proof using m_len f_short.
  induction s as [|c t IH]; intros H.
  - by rewrite (sc_nil m f m_len) in H.
  - destruct (m (c :: t)) as [[cs len]|] eqn:E.
    + rewrite (sc_hit m f m_len _ _ _ E), length_app.
      pose proof (m_len _ _ _ E) as Hl. pose proof (f_short _ _ _ E) as Hf.
      pose proof (sc_length (drop len (c :: t))) as Hd.
      rewrite length_drop in Hd. lia.
    + rewrite (sc_cons_none m f) in H |- * by done. cbn [length].
      assert (length (sc t) < length t); [|lia].
      apply IH. intros Ht. apply H. by rewrite Ht.
Qed.
End Shrink.

Lemma norm_repl_short u cs len :
  norm_at u = Some (cs, len) -> length (norm_repl cs (take len u)) < len.
Proof.
  intros H. apply norm_at_inv in H as (d & r & _ & _ & _ & -> & ->).
  unfold norm_repl, Rx.dollar. cbn [Rx.cap Nat.eqb].
  rewrite !length_app. simpl. lia.
Qed.

Lemma erase_short u cs len :
  artifact_at u = Some (cs, len) -> length (Rx.erase_all cs (take len u)) < len.
Proof. intros H. apply artifact_at_len in H. simpl. lia. Qed.

(** [normalizeRefs] leaves a text as it is exactly when the text holds no
    duplicated marker, and shortens it otherwise. *)
Lemma normalizeRefs_fixed t :
  normalizeRefs t = t <-> Rx.test NORMALIZE_RX t = false.
Proof.
  rewrite (test_false_suffix NORMALIZE_RX norm_at) by apply match_at_NORMALIZE.
  rewrite normalizeRefs_scan. split.
  - apply (sc_fixed norm_at norm_repl norm_at_len norm_repl_short).
  - apply sc_unchanged.
Qed.

Lemma normalizeRefs_length t : length (normalizeRefs t) <= length t.
Proof.
  rewrite normalizeRefs_scan.
  apply (sc_length norm_at norm_repl norm_at_len norm_repl_short).
Qed.

Lemma normalizeRefs_shrinks t :
  normalizeRefs t <> t -> length (normalizeRefs t) < length t.
Proof.
  rewrite normalizeRefs_scan.
  apply (sc_shrinks norm_at norm_repl norm_at_len norm_repl_short).
Qed.

Lemma cleaned_fixed t : cleaned t = t <-> Rx.test ARTIFACT_RX t = false.
Proof.
  rewrite (test_false_suffix ARTIFACT_RX artifact_at) by apply match_at_ARTIFACT.
  rewrite cleaned_scan. split.
  - apply (sc_fixed artifact_at Rx.erase_all artifact_at_len erase_short).
  - apply sc_unchanged.
Qed.

Lemma cleaned_shrinks t : cleaned t <> t -> length (cleaned t) < length t.
Proof.
  rewrite cleaned_scan.
  apply (sc_shrinks artifact_at Rx.erase_all artifact_at_len erase_short).
Qed.

(** A function on texts that shortens every text it changes reaches, when
    run again and again, a text it leaves as it is. *)
Lemma iter_settles (g : txt -> txt) :
  (forall x, g x <> x -> length (g x) < length x) ->
  forall k x, length x <= k -> g (Nat.iter k g x) = Nat.iter k g x.
Proof.
  intros Hg.
  assert (Hfix : forall k x, g x = x -> Nat.iter k g x = x).
  { induction k as [|k IH]; intros x Hx; [done|].
    rewrite Nat.iter_succ. by rewrite IH. }
  induction k as [|k IH]; intros x Hk.
  - cbn [Nat.iter]. destruct (decide (g x = x)) as [|Hne]; [done|].
    apply Hg in Hne. lia.
  - rewrite Nat.iter_succ_r.
    destruct (decide (g x = x)) as [E|Hne].
    + rewrite E. rewrite Hfix by done. done.
    + apply IH. apply Hg in Hne. lia.
Qed.

(** A text without a marker holds no duplicated marker either, and the
    substitution leaves it as it is. *)
Lemma norm_at_marker_at u : marker_at u = None -> norm_at u = None.
Proof.
  unfold marker_at, bare_at, norm_at.
  destruct (bracket_at u); [done|].
  destruct (take_while is_digit u); [done|].
  destruct (drop_while is_digit u); [done|].
  by destruct (chr_eq "F" a0).
Qed.

Lemma process_no_marker s fm :
  Rx.test MARKER_RX s = false -> processConlangInText s fm = s.
Proof.
  rewrite (test_false_suffix MARKER_RX marker_at) by apply match_at_MARKER.
  intros H. rewrite process_scan, normalizeRefs_scan.
  rewrite (sc_unchanged norm_at) by (intros u Hu; by apply norm_at_marker_at, H).
  by apply sc_unchanged.
Qed.

(* ------------------------------------------------------------------ *)
(** ** An artifact in any text *)

(** [ARTIFACT_RX] is [NORMALIZE_RX] followed by an optional [[m]]. *)
Lemma artifact_at_norm_at u :
  artifact_at u
  = match norm_at u with
    | Some (cs, len) => Some (cs, len + bracket_num_len (drop len u))
    | None => None
    end.
Proof.
  unfold artifact_at, norm_at.
  pose proof (take_drop_while is_digit u) as Eu.
  destruct (take_while is_digit u) as [|d0 d]; [done|].
  destruct (drop_while is_digit u) as [|c1 r1]; [done|].
  destruct (chr_eq "F" c1); [|done].
  destruct (Rx.strip_prefix (d0 :: d) r1) as [[|c2 r2]|] eqn:E; [done| |done].
  destruct (chr_eq "F" c2); [|done].
  apply strip_prefix_spec in E. subst r1. do 3 f_equal.
  rewrite <- Eu.
  replace ((d0 :: d) ++ c1 :: (d0 :: d) ++ c2 :: r2)
    with (((d0 :: d) ++ c1 :: (d0 :: d) ++ [c2]) ++ r2)
    by (rewrite <- !app_assoc; cbn [app]; by rewrite <- !app_assoc).
  rewrite drop_app_length'; [done|].
  rewrite !length_app. cbn [length]. rewrite length_app. simpl. lia.
Qed.

(** A numeral and [F] written after [r] do not complete a [[m]] that
    starts in [r]. *)
Lemma bracket_num_len_before_marker r n w :
  n <> [] -> forallb is_digit n = true ->
  bracket_num_len (r ++ n ++ str "F" ++ w) = bracket_num_len r.
Proof.
  intros Hn Hdn. unfold bracket_num_len.
  destruct r as [|c t].
  { destruct n as [|n0 n]; [done|]. cbn [forallb] in Hdn.
    apply andb_true_iff in Hdn as [Hn0 _]. cbn [app].
    by rewrite (digit_not_lbracket _ Hn0). }
  cbn [app]. destruct (chr_eq "[" c); [|done].
  pose proof (take_drop_while is_digit t) as Et.
  pose proof (take_while_forallb is_digit t) as Hd.
  destruct (drop_while is_digit t) as [|c1 r1] eqn:Er.
  - rewrite app_nil_r in Et. rewrite Et in Hd. clear Et Er.
    replace (t ++ n ++ str "F" ++ w)
      with ((t ++ n) ++ "F"%char :: w) by (by rewrite <- app_assoc).
    rewrite take_while_all, drop_while_all
      by (done || (rewrite forallb_app; by rewrite Hd, Hdn)).
    destruct (t ++ n), (take_while is_digit t); done.
  - pose proof (drop_while_head _ _ _ _ Er) as Hc1. clear Er.
    remember (take_while is_digit t) as d eqn:Ed. clear Ed. subst t.
    rewrite <- !app_assoc. cbn [app].
    by rewrite !take_while_all, !drop_while_all by done.
Qed.

Lemma artifact_at_before_duplicate pre n post u :
  n <> [] -> forallb is_digit n = true -> overlapped pre n = false ->
  u <> [] -> u `suffix_of` pre ->
  artifact_at (u ++ n ++ str "F" ++ n ++ str "F" ++ post) = artifact_at u.
Proof.
  intros Hn Hd Ho Hu Hs. rewrite !artifact_at_norm_at.
  rewrite (norm_at_before_marker pre); try done.
  2:{ intros x Hx Hdx Hsx.
      destruct (starts_with ((x ++ n) ++ str "F") (n ++ str "F" ++ post)) eqn:E;
        [|done].
      apply starts_with_app in E as [r E]. exfalso.
      assert (H : Rx.strip_prefix (x ++ n) (n ++ str "F" ++ post)
                  = Some ("F"%char :: r)).
      { rewrite E, <- app_assoc. apply strip_prefix_app. }
      apply strip_prefix_numeral in H; [| |done|done].
      - apply (f_equal length) in H. rewrite length_app in H.
        destruct x; [done|]. simpl in H. lia.
      - rewrite forallb_app. by rewrite Hdx, Hd. }
  destruct (norm_at u) as [[cs len]|] eqn:E; [|done].
  apply norm_at_len in E. do 3 f_equal.
  rewrite drop_app_le by lia.
  by apply bracket_num_len_before_marker.
Qed.

Lemma artifact_at_duplicate n post :
  n <> [] -> forallb is_digit n = true ->
  artifact_at (n ++ str "F" ++ n ++ str "F" ++ post)
  = Some ([(1, n)],
          length (n ++ str "F" ++ n ++ str "F") + bracket_num_len post).
Proof.
  intros Hn Hd. rewrite artifact_at_norm_at, norm_at_shape by done.
  do 3 f_equal.
  replace (n ++ str "F" ++ n ++ str "F" ++ post)
    with ((n ++ str "F" ++ n ++ str "F") ++ post) by (by rewrite <- !app_assoc).
  by rewrite drop_app_length.
Qed.

(** The deletion around a duplicated marker: it goes, with a [[m]] that
    follows it. *)
Lemma cleaned_duplicate pre n post :
  n <> [] -> forallb is_digit n = true -> overlapped pre n = false ->
  cleaned (pre ++ n ++ str "F" ++ n ++ str "F" ++ post)
  = cleaned pre ++ cleaned (drop (bracket_num_len post) post).
Proof.
  intros Hn Hd Ho. rewrite !cleaned_scan.
  rewrite (sc_split artifact_at).
  2:{ apply artifact_at_len. }
  2:{ intros u Hu Hs. by apply (artifact_at_before_duplicate pre). }
  f_equal.
  rewrite (sc_hit artifact_at _ artifact_at_len _ _ _
             (artifact_at_duplicate n post Hn Hd)).
  unfold Rx.erase_all at 1. cbn [app]. f_equal.
  replace (n ++ str "F" ++ n ++ str "F" ++ post)
    with ((n ++ str "F" ++ n ++ str "F") ++ post) by (by rewrite <- !app_assoc).
  by rewrite drop_app_ge, Nat.add_comm, Nat.add_sub by lia.
Qed.

Lemma scan_erase_sublist m k p s : Rx.scan m Rx.erase_all k p s `sublist_of` s.
Proof.
  revert k p. induction s as [|c t IH]; intros k p.
  - cbn [Rx.scan]. destruct k; [|done]. by destruct (m p []) as [[cs len]|].
  - cbn [Rx.scan]. destruct k as [|k]; [|by apply sublist_cons].
    destruct (m p (c :: t)) as [[cs [|len]]|]; unfold Rx.erase_all; cbn [app].
    + by apply sublist_skip.
    + by apply sublist_cons.
    + by apply sublist_skip.
Qed.

Lemma cleaned_sublist t : cleaned t `sublist_of` t.
Proof. unfold cleaned, Rx.replace_all. apply scan_erase_sublist. Qed.

(** The two outcomes of [cleanupArtifacts] on a text node. *)
Lemma cleanupArtifacts_replaced t c :
  cleaned t = c -> length c < length t -> cleanupArtifacts t = ReplaceWith c.
Proof.
  intros <- Hl. unfold cleanupArtifacts.
  destruct (decide (cleaned t = t)) as [E|]; [|done]. rewrite E in Hl. lia.
Qed.

Lemma cleanupArtifacts_cases t :
  (cleanupArtifacts t = Untouched /\ cleaned t = t)
  \/ (cleanupArtifacts t = ReplaceWith (cleaned t) /\ cleaned t <> t).
Proof. unfold cleanupArtifacts. destruct (decide (cleaned t = t)); auto. Qed.

(* ------------------------------------------------------------------ *)
(** ** Claims on the markers *)

(** C3, amended.  A marker whose numeral [n] has a recorded, non-empty
    annotation becomes the span [conlang] showing [nF], with the escaped
    annotation as its [data-tr], and what stands before and after it is
    processed as if the marker were not there:
    - a bracketed marker [[nF]] or [[n]], in any text;
    - a bare marker [nF] whose numeral is whole (no digit stands directly
      before it), that is not the second half of a duplicated marker
      ([nF] does not stand directly before it), that does not stand in
      square brackets, and whose end is not doubled by what follows.
    A text in which the marker pattern is not found is left as it is. *)
Theorem conlang_resolved_marker (fm : footmap) (n trans pre post : txt) :
  n <> [] -> forallb is_digit n = true ->
  fm !! n = Some trans -> trans <> [] ->
  (forall withF,
     processConlangInText (pre ++ bracket_marker n withF ++ post) fm
     = processConlangInText pre fm
         ++ span_html (str "conlang") (escapeHTML trans) (n ++ str "F")
         ++ processConlangInText post fm)
  /\ (ends_with_digit pre = false -> ends_with (n ++ str "F") pre = false ->
      bracketed pre post = false -> tail_repeated n post = false ->
      processConlangInText (pre ++ n ++ str "F" ++ post) fm
      = processConlangInText pre fm
          ++ span_html (str "conlang") (escapeHTML trans) (n ++ str "F")
          ++ processConlangInText post fm)
  /\ (forall s, Rx.test MARKER_RX s = false -> processConlangInText s fm = s).
Proof.
  intros Hn Hd Hf Ht.
  assert (Hs : marker_span fm n
               = span_html (str "conlang") (escapeHTML trans) (n ++ str "F")).
  { unfold marker_span. rewrite Hf. by destruct trans. }
  split; [|split].
  - intros withF. rewrite (process_marker pre n withF post fm Hn Hd).
    by rewrite (callback_span fm true n Hn), Hs.
  - intros Ha Hb Hc He.
    by rewrite (process_bare_marker pre n post fm Hn Hd Ha Hb Hc He), Hs.
  - intros s. apply process_no_marker.
Qed.

(** The scenario of the specification, [Hello [3F] world] with 3 bound to
    [greeting in conlang], and a bare marker after text that holds a
    number. *)
Lemma conlang_resolved_marker_witness :
  (str "3" <> [] /\ forallb is_digit (str "3") = true
   /\ ({[ str "3" := str "greeting in conlang" ]} : footmap) !! str "3"
      = Some (str "greeting in conlang")
   /\ str "greeting in conlang" <> []
   /\ Rx.test MARKER_RX (str "Hello ") = false
   /\ Rx.test MARKER_RX (str " world") = false
   /\ ends_with_digit (str "In 1999 he said ") = false
   /\ ends_with (str "3" ++ str "F") (str "In 1999 he said ") = false
   /\ bracketed (str "In 1999 he said ") (str ".") = false
   /\ tail_repeated (str "3") (str ".") = false
   /\ Rx.test MARKER_RX (str "In 1999 he said ") = false
   /\ Rx.test MARKER_RX (str ".") = false)
  /\ processConlangInText (str "Hello [3F] world")
       {[ str "3" := str "greeting in conlang" ]}
     = str "Hello "
         ++ span_html (str "conlang") (str "greeting in conlang") (str "3F")
         ++ str " world"
  /\ processConlangInText (str "In 1999 he said 3F.")
       {[ str "3" := str "greeting in conlang" ]}
     = str "In 1999 he said "
         ++ span_html (str "conlang") (str "greeting in conlang") (str "3F")
         ++ str ".".
Proof.
  assert (H1 : str "3" <> []) by discriminate.
  assert (H2 : forallb is_digit (str "3") = true) by reflexivity.
  assert (H3 : ({[ str "3" := str "greeting in conlang" ]} : footmap) !! str "3"
               = Some (str "greeting in conlang")) by (vm_compute; reflexivity).
  assert (H4 : str "greeting in conlang" <> []) by discriminate.
  assert (H5 : Rx.test MARKER_RX (str "Hello ") = false)
    by (vm_compute; reflexivity).
  assert (H6 : Rx.test MARKER_RX (str " world") = false)
    by (vm_compute; reflexivity).
  assert (H7 : ends_with_digit (str "In 1999 he said ") = false)
    by (vm_compute; reflexivity).
  assert (H8 : ends_with (str "3" ++ str "F") (str "In 1999 he said ") = false)
    by (vm_compute; reflexivity).
  assert (H9 : bracketed (str "In 1999 he said ") (str ".") = false)
    by (vm_compute; reflexivity).
  assert (H10 : tail_repeated (str "3") (str ".") = false)
    by (vm_compute; reflexivity).
  assert (H11 : Rx.test MARKER_RX (str "In 1999 he said ") = false)
    by (vm_compute; reflexivity).
  assert (H12 : Rx.test MARKER_RX (str ".") = false)
    by (vm_compute; reflexivity).
  split; [tauto|]. split.
  - destruct (conlang_resolved_marker _ (str "3") _ (str "Hello ")
                (str " world") H1 H2 H3 H4) as (A & _ & C).
    refine (eq_trans (A true) _).
    rewrite (C _ H5), (C _ H6). reflexivity.
  - destruct (conlang_resolved_marker _ (str "3") _ (str "In 1999 he said ")
                (str ".") H1 H2 H3 H4) as (_ & B & C).
    refine (eq_trans (B H7 H8 H9 H10) _).
    rewrite (C _ H11), (C _ H12). reflexivity.
Defined.

(** C3 as stated fails.  When the recorded annotation is the empty string
    (as the [sub] pass of [extractFootnotes] records for a numeral followed
    by blank text) the marker gets the span of a missing translation.  And
    a marker is not always replaced: in [12F2F], with both numerals
    recorded, the normalisation takes [2F2F] for a duplicated marker, and
    the marker [2F] gets no span. *)
Lemma conlang_empty_annotation_counterexample :
  extractFootnotes
    [Elem (str "p") None None
       [Elem (str "sub") None None [TextN (str "3")]; TextN (str " ")]]
    = {[ str "3" := [] ]}
  /\ ({[ str "3" := [] ]} : footmap) !! str "3" = Some []
  /\ processConlangInText (str "[3F]") {[ str "3" := [] ]}
     <> span_html (str "conlang") (escapeHTML []) (str "3F")
  /\ processConlangInText (str "[3F]") {[ str "3" := [] ]}
     = span_html (str "conlang missing") (str "[translation missing for 3]")
         (str "3F")
  /\ processConlangInText (str "12F2F")
       {[ str "12" := str "twelve"; str "2" := str "two" ]}
     = span_html (str "conlang") (str "twelve") (str "12F")
  /\ processConlangInText (str "12F2F")
       {[ str "12" := str "twelve"; str "2" := str "two" ]}
     <> span_html (str "conlang") (str "twelve") (str "12F")
          ++ span_html (str "conlang") (str "two") (str "2F").
Proof.
  split; [vm_compute; reflexivity|].
  split; [vm_compute; reflexivity|].
  split; [vm_compute; discriminate|].
  split; [vm_compute; reflexivity|].
  split; [vm_compute; reflexivity | vm_compute; discriminate].
Qed.

(** C4, amended.  A marker whose numeral has no entry becomes the span
    [conlang missing] showing [nF]; its [data-tr] is
    [[translation missing for n]], square brackets included, and what
    stands before and after the marker is processed as if the marker were
    not there.  This holds for a bracketed marker [[nF]] or [[n]] in any
    text, and for a bare marker [nF] whose numeral is whole, that is not
    the second half of a duplicated marker, that does not stand in square
    brackets, and whose end is not doubled by what follows.  A text in
    which the marker pattern is not found is left as it is. *)
Theorem conlang_missing_marker (fm : footmap) (n pre post : txt) :
  n <> [] -> forallb is_digit n = true -> fm !! n = None ->
  (forall withF,
     processConlangInText (pre ++ bracket_marker n withF ++ post) fm
     = processConlangInText pre fm
         ++ span_html (str "conlang missing")
              (str "[translation missing for " ++ n ++ str "]") (n ++ str "F")
         ++ processConlangInText post fm)
  /\ (ends_with_digit pre = false -> ends_with (n ++ str "F") pre = false ->
      bracketed pre post = false -> tail_repeated n post = false ->
      processConlangInText (pre ++ n ++ str "F" ++ post) fm
      = processConlangInText pre fm
          ++ span_html (str "conlang missing")
               (str "[translation missing for " ++ n ++ str "]") (n ++ str "F")
          ++ processConlangInText post fm)
  /\ (forall s, Rx.test MARKER_RX s = false -> processConlangInText s fm = s).
Proof.
  intros Hn Hd Hf.
  assert (Hs : marker_span fm n
               = span_html (str "conlang missing")
                   (str "[translation missing for " ++ n ++ str "]")
                   (n ++ str "F")).
  { unfold marker_span. by rewrite Hf. }
  split; [|split].
  - intros withF. rewrite (process_marker pre n withF post fm Hn Hd).
    by rewrite (callback_span fm true n Hn), Hs.
  - intros Ha Hb Hc He.
    by rewrite (process_bare_marker pre n post fm Hn Hd Ha Hb Hc He), Hs.
  - intros s. apply process_no_marker.
Qed.

(** The scenario of the specification, [[9F]] with no entry for 9, and a
    bare marker after a bracketed word. *)
Lemma conlang_missing_marker_witness :
  (str "9" <> [] /\ forallb is_digit (str "9") = true
   /\ (∅ : footmap) !! str "9" = None
   /\ ends_with_digit (str "[SYSTEM] ") = false
   /\ ends_with (str "9" ++ str "F") (str "[SYSTEM] ") = false
   /\ bracketed (str "[SYSTEM] ") (str ".") = false
   /\ tail_repeated (str "9") (str ".") = false
   /\ Rx.test MARKER_RX (str "[SYSTEM] ") = false
   /\ Rx.test MARKER_RX (str ".") = false)
  /\ processConlangInText (str "[9F]") ∅
     = span_html (str "conlang missing") (str "[translation missing for 9]")
         (str "9F")
  /\ processConlangInText (str "[SYSTEM] 9F.") ∅
     = str "[SYSTEM] "
         ++ span_html (str "conlang missing")
              (str "[translation missing for 9]") (str "9F")
         ++ str ".".
Proof.
  assert (H1 : str "9" <> []) by discriminate.
  assert (H2 : forallb is_digit (str "9") = true) by reflexivity.
  assert (H3 : (∅ : footmap) !! str "9" = None) by reflexivity.
  assert (H4 : ends_with_digit (str "[SYSTEM] ") = false)
    by (vm_compute; reflexivity).
  assert (H5 : ends_with (str "9" ++ str "F") (str "[SYSTEM] ") = false)
    by (vm_compute; reflexivity).
  assert (H6 : bracketed (str "[SYSTEM] ") (str ".") = false)
    by (vm_compute; reflexivity).
  assert (H7 : tail_repeated (str "9") (str ".") = false)
    by (vm_compute; reflexivity).
  assert (H8 : Rx.test MARKER_RX (str "[SYSTEM] ") = false)
    by (vm_compute; reflexivity).
  assert (H9 : Rx.test MARKER_RX (str ".") = false)
    by (vm_compute; reflexivity).
  split; [tauto|]. split.
  - exact (proj1 (conlang_missing_marker ∅ (str "9") [] [] H1 H2 H3) true).
  - destruct (conlang_missing_marker ∅ (str "9") (str "[SYSTEM] ") (str ".")
                H1 H2 H3) as (_ & B & C).
    refine (eq_trans (B H4 H5 H6 H7) _).
    rewrite (C _ H8), (C _ H9). reflexivity.
Defined.

(** C4 as stated fails: for [[9F]] with no entry the payload is not
    [translation missing for 9] but that text in square brackets.  And a
    marker does not always get a span: in [12F2F] the normalisation takes
    [2F2F] for a duplicated marker, and only [12F] gets the span of a
    missing translation. *)
Lemma conlang_missing_payload_counterexample :
  payload_of (processConlangInText (str "[9F]") ∅)
    = str "[translation missing for 9]"
  /\ payload_of (processConlangInText (str "[9F]") ∅)
     <> str "translation missing for 9"
  /\ processConlangInText (str "12F2F") ∅
     = span_html (str "conlang missing") (str "[translation missing for 12]")
         (str "12F").
Proof.
  split; [vm_compute; reflexivity|].
  split; [vm_compute; discriminate | vm_compute; reflexivity].
Qed.

(** C5, amended.  In part_000 the substitution runs on the normalised text,
    whatever the text.  A duplicated marker [nFnF] that is not overlapped
    by a duplicated marker starting before it collapses to [nF], what
    stands before and after it being normalised as if it were not there;
    when its numeral is whole and it does not stand in square brackets,
    [processConlangInText] writes the one span of [nF] for it.  In
    converter.js [cleanupArtifacts] does not collapse it: it replaces the
    text node by markup from which the duplicated marker is deleted,
    together with a [[m]] that follows it. *)
Theorem duplicate_marker_collapse (fm : footmap) (n pre post : txt) :
  n <> [] -> forallb is_digit n = true ->
  (forall text,
     processConlangInText text fm
     = Rx.replace_all MARKER_RX (fun cs _ => conlang_callback fm cs)
         (normalizeRefs text))
  /\ (overlapped pre n = false ->
      normalizeRefs (pre ++ n ++ str "F" ++ n ++ str "F" ++ post)
      = normalizeRefs pre ++ n ++ str "F" ++ normalizeRefs post)
  /\ (ends_with_digit pre = false -> ends_with (n ++ str "F") pre = false ->
      bracketed pre post = false ->
      processConlangInText (pre ++ n ++ str "F" ++ n ++ str "F" ++ post) fm
      = processConlangInText pre fm ++ marker_span fm n
          ++ processConlangInText post fm)
  /\ (overlapped pre n = false ->
      cleanupArtifacts (pre ++ n ++ str "F" ++ n ++ str "F" ++ post)
      = ReplaceWith (cleaned pre ++ cleaned (drop (bracket_num_len post) post))).
Proof.
  intros Hn Hd. split; [done|]. split; [|split].
  - intros Ho. by apply normalizeRefs_duplicate.
  - intros Ha Hb Hc. by apply process_duplicate.
  - intros Ho. apply cleanupArtifacts_replaced; [by apply cleaned_duplicate|].
    pose proof (sublist_length _ _ (cleaned_sublist pre)) as H1.
    pose proof (sublist_length _ _
                  (cleaned_sublist (drop (bracket_num_len post) post))) as H2.
    rewrite length_drop in H2.
    rewrite !length_app. simpl. destruct n; [done|]. simpl. lia.
Qed.

Lemma duplicate_marker_collapse_witness :
  (str "7" <> [] /\ forallb is_digit (str "7") = true
   /\ overlapped (str "see [3F] and ") (str "7") = false
   /\ ends_with_digit (str "see [3F] and ") = false
   /\ ends_with (str "7" ++ str "F") (str "see [3F] and ") = false
   /\ bracketed (str "see [3F] and ") (str ".") = false)
  /\ normalizeRefs (str "see [3F] and 7F7F.") = str "see [3F] and 7F."
  /\ processConlangInText (str "see [3F] and 7F7F.")
       {[ str "7" := str "seven" ]}
     = str "see "
         ++ span_html (str "conlang missing")
              (str "[translation missing for 3]") (str "3F")
         ++ str " and "
         ++ span_html (str "conlang") (str "seven") (str "7F") ++ str "."
  /\ cleanupArtifacts (str "see [3F] and 7F7F.")
     = ReplaceWith (str "see [3F] and .").
Proof.
  assert (H1 : str "7" <> []) by discriminate.
  assert (H2 : forallb is_digit (str "7") = true) by reflexivity.
  assert (H3 : overlapped (str "see [3F] and ") (str "7") = false)
    by (vm_compute; reflexivity).
  assert (H4 : ends_with_digit (str "see [3F] and ") = false)
    by (vm_compute; reflexivity).
  assert (H5 : ends_with (str "7" ++ str "F") (str "see [3F] and ") = false)
    by (vm_compute; reflexivity).
  assert (H6 : bracketed (str "see [3F] and ") (str ".") = false)
    by (vm_compute; reflexivity).
  split; [tauto|].
  destruct (duplicate_marker_collapse {[ str "7" := str "seven" ]}
              (str "7") (str "see [3F] and ") (str ".") H1 H2)
    as (_ & A & B & C).
  split; [|split].
  - refine (eq_trans (A H3) _). vm_compute. reflexivity.
  - refine (eq_trans (B H4 H5 H6) _). vm_compute. reflexivity.
  - refine (eq_trans (C H3) _). vm_compute. reflexivity.
Defined.

(** C5 as stated fails in converter.js: for [7F7F], [cleanupArtifacts]
    calls [replaceWith] with the empty string, not with [7F]. *)
Lemma cleanupArtifacts_counterexample :
  cleanupArtifacts (str "7F7F") = ReplaceWith []
  /\ cleanupArtifacts (str "7F7F") <> ReplaceWith (str "7F").
Proof. split; [vm_compute; reflexivity | vm_compute; discriminate]. Qed.

(** C6, amended.  A run of [normalizeRefs] leaves a text as it is exactly
    when the text holds no duplicated marker; so two runs give the result
    of one exactly when the first run leaves no duplicated marker behind.
    A run that changes the text shortens it, and after as many runs as the
    text has code units the result is a text that a further run leaves as
    it is.  Such is the result of the first run already for a duplicated
    marker [nFnF] between texts that hold no duplicated marker, when its
    numeral is whole, [nF] does not stand directly before it and what
    follows does not double its end.  [cleanupArtifacts] leaves a text node
    untouched exactly when its text holds no artifact. *)
Theorem normalizer_idempotent_when_clean (t : txt) :
  (normalizeRefs t = t <-> Rx.test NORMALIZE_RX t = false)
  /\ (normalizeRefs (normalizeRefs t) = normalizeRefs t
      <-> Rx.test NORMALIZE_RX (normalizeRefs t) = false)
  /\ (normalizeRefs t <> t -> length (normalizeRefs t) < length t)
  /\ normalizeRefs (Nat.iter (length t) normalizeRefs t)
     = Nat.iter (length t) normalizeRefs t
  /\ (forall pre n post,
        t = pre ++ n ++ str "F" ++ n ++ str "F" ++ post ->
        n <> [] -> forallb is_digit n = true ->
        Rx.test NORMALIZE_RX pre = false -> Rx.test NORMALIZE_RX post = false ->
        ends_with_digit pre = false -> ends_with (n ++ str "F") pre = false ->
        tail_repeated n post = false ->
        normalizeRefs t = pre ++ n ++ str "F" ++ post
        /\ normalizeRefs (normalizeRefs t) = normalizeRefs t)
  /\ (cleanupArtifacts t = Untouched <-> Rx.test ARTIFACT_RX t = false).
Proof.
  split; [apply normalizeRefs_fixed|].
  split; [apply normalizeRefs_fixed|].
  split; [apply normalizeRefs_shrinks|].
  split; [by apply (iter_settles normalizeRefs normalizeRefs_shrinks)|].
  split.
  - intros pre n post -> Hn Hd Hpre Hpost Ha Hb Ht.
    apply normalizeRefs_fixed in Hpre, Hpost.
    assert (E : normalizeRefs (pre ++ n ++ str "F" ++ n ++ str "F" ++ post)
                = pre ++ n ++ str "F" ++ post).
    { rewrite normalizeRefs_duplicate by (done || by rewrite overlapped_no_digit).
      by rewrite Hpre, Hpost. }
    split; [done|]. rewrite E.
    rewrite normalizeRefs_bare by done. by rewrite Hpre, Hpost.
  - rewrite <- cleaned_fixed.
    destruct (cleanupArtifacts_cases t) as [[-> E]|[-> E]]; [done|].
    split; [done|]. intros E'. by destruct E.
Qed.

Lemma normalizer_idempotent_when_clean_witness :
  (str "see 7F7F, [3F]"
     = str "see " ++ str "7" ++ str "F" ++ str "7" ++ str "F" ++ str ", [3F]"
   /\ str "7" <> [] /\ forallb is_digit (str "7") = true
   /\ Rx.test NORMALIZE_RX (str "see ") = false
   /\ Rx.test NORMALIZE_RX (str ", [3F]") = false
   /\ ends_with_digit (str "see ") = false
   /\ ends_with (str "7" ++ str "F") (str "see ") = false
   /\ tail_repeated (str "7") (str ", [3F]") = false
   /\ normalizeRefs (str "1F9F9F1F") <> str "1F9F9F1F"
   /\ Rx.test NORMALIZE_RX (normalizeRefs (str "1F9F9F1F")) = false
   /\ Rx.test ARTIFACT_RX (str "plain [3F]") = false)
  /\ normalizeRefs (str "see 7F7F, [3F]") = str "see 7F, [3F]"
  /\ normalizeRefs (normalizeRefs (str "see 7F7F, [3F]"))
     = normalizeRefs (str "see 7F7F, [3F]")
  /\ normalizeRefs (normalizeRefs (str "1F9F9F1F")) = normalizeRefs (str "1F9F9F1F")
  /\ length (normalizeRefs (str "1F9F9F1F")) < length (str "1F9F9F1F")
  /\ cleanupArtifacts (str "plain [3F]") = Untouched.
Proof.
  assert (H0 : str "see 7F7F, [3F]"
               = str "see " ++ str "7" ++ str "F" ++ str "7" ++ str "F"
                   ++ str ", [3F]") by reflexivity.
  assert (H1 : str "7" <> []) by discriminate.
  assert (H2 : forallb is_digit (str "7") = true) by reflexivity.
  assert (H3 : Rx.test NORMALIZE_RX (str "see ") = false)
    by (vm_compute; reflexivity).
  assert (H4 : Rx.test NORMALIZE_RX (str ", [3F]") = false)
    by (vm_compute; reflexivity).
  assert (H5 : ends_with_digit (str "see ") = false) by (vm_compute; reflexivity).
  assert (H6 : ends_with (str "7" ++ str "F") (str "see ") = false)
    by (vm_compute; reflexivity).
  assert (H7 : tail_repeated (str "7") (str ", [3F]") = false)
    by (vm_compute; reflexivity).
  assert (H8 : normalizeRefs (str "1F9F9F1F") <> str "1F9F9F1F")
    by (vm_compute; discriminate).
  assert (H9 : Rx.test NORMALIZE_RX (normalizeRefs (str "1F9F9F1F")) = false)
    by (vm_compute; reflexivity).
  assert (H10 : Rx.test ARTIFACT_RX (str "plain [3F]") = false)
    by (vm_compute; reflexivity).
  split; [tauto|].
  destruct (normalizer_idempotent_when_clean (str "see 7F7F, [3F]"))
    as (_ & _ & _ & _ & A & _).
  destruct (A _ _ _ H0 H1 H2 H3 H4 H5 H6 H7) as [A1 A2].
  destruct (normalizer_idempotent_when_clean (str "1F9F9F1F"))
    as (_ & B & C & _).
  destruct (normalizer_idempotent_when_clean (str "plain [3F]"))
    as (_ & _ & _ & _ & _ & D).
  split; [exact A1|]. split; [exact A2|].
  split; [exact (proj2 B H9)|]. split; [exact (C H8)|].
  exact (proj2 D H10).
Defined.

(** C6 as stated fails: one run over [7F7F7F] leaves [7F7F], which a second
    run collapses again.  In converter.js one run over a text node
    [1F9F9F1F] replaces it by the markup [1F1F], a text that a second run
    deletes. *)
Lemma normalizer_not_idempotent_counterexample :
  normalizeRefs (str "7F7F7F") = str "7F7F"
  /\ normalizeRefs (normalizeRefs (str "7F7F7F")) = str "7F"
  /\ normalizeRefs (normalizeRefs (str "7F7F7F")) <> normalizeRefs (str "7F7F7F")
  /\ cleanupArtifacts (str "1F9F9F1F") = ReplaceWith (str "1F1F")
  /\ cleanupArtifacts (str "1F1F") = ReplaceWith [].
Proof.
  split; [vm_compute; reflexivity|].
  split; [vm_compute; reflexivity|].
  split; [vm_compute; discriminate|].
  split; vm_compute; reflexivity.
Qed.

(* ------------------------------------------------------------------ *)
(** ** The UI pass *)

(** C9.  For the paragraph [[OK]] the UI pass writes the span with the
    literal text [[$1]]: the bracketed text is lost, where the claim has it
    as the visible content of the span.  Markers such as [[12F]] are left
    as they are. *)
Theorem tagUI_writes_dollar_one :
  tagUI (str "[OK]") = str "<span class=" ++ [dq] ++ str "ui" ++ [dq] ++ str ">[$1]</span>"
  /\ tagUI (str "[OK]")
     <> str "<span class=" ++ [dq] ++ str "ui" ++ [dq] ++ str ">[OK]</span>"
  /\ tagUI (str "Press [Start] or [Stop]")
     = str "Press " ++ ui_span_literal ++ str " or " ++ ui_span_literal
  /\ tagUI (str "see [12F] and [3]") = str "see [12F] and [3]".
Proof.
  split; [vm_compute; reflexivity|].
  split; [vm_compute; discriminate|].
  split; vm_compute; reflexivity.
Qed.

(* ------------------------------------------------------------------ *)
(** ** The partition of converter.js *)

Lemma length_flat_map_on_last_ch it cs :
  length (flat_map ch_content (on_last (push_chapter_content it) cs))
  <= S (length (flat_map ch_content cs)).
Proof.
  induction cs as [|c cs IH]; [simpl; lia|].
  destruct cs as [|c' cs].
  - simpl. rewrite !app_nil_r, length_app. simpl. lia.
  - remember (c' :: cs) as l eqn:El.
    assert (E : on_last (push_chapter_content it) (c :: l) = c :: on_last (push_chapter_content it) l)
      by (subst l; reflexivity).
    rewrite E. cbn [flat_map]. rewrite !length_app. lia.
Qed.

Lemma length_flat_map_on_last_ap it cs :
  length (flat_map ap_content (on_last (push_appendix_content it) cs))
  <= S (length (flat_map ap_content cs)).
Proof.
  induction cs as [|c cs IH]; [simpl; lia|].
  destruct cs as [|c' cs].
  - simpl. rewrite !app_nil_r, length_app. simpl. lia.
  - remember (c' :: cs) as l eqn:El.
    assert (E : on_last (push_appendix_content it) (c :: l) = c :: on_last (push_appendix_content it) l)
      by (subst l; reflexivity).
    rewrite E. cbn [flat_map]. rewrite !length_app. lia.
Qed.

Lemma flat_map_snoc_nil {A B : Type} (f : A -> list B) l x :
  f x = [] -> flat_map f (l ++ [x]) = flat_map f l.
Proof. intros E. rewrite flat_map_app. simpl. by rewrite E, !app_nil_r. Qed.

(** One block adds at most one item to the sections. *)
Lemma step_content prev el s :
  length (all_content (st_structure (step prev el s)))
  <= S (length (all_content (st_structure s))).
Proof.
  unfold step.
  destruct (is_h1_h2 el && Rx.test APPENDIX_RX (trim (b_text el))).
  { unfold all_content. cbn [st_structure frontMatter chapters appendices].
    rewrite flat_map_snoc_nil by done. lia. }
  destruct (is_h1_h2 el && Rx.test CHAPTER_RX (trim (b_text el))).
  { destruct (books (st_structure s));
      unfold all_content; cbn [st_structure frontMatter chapters appendices];
      rewrite flat_map_snoc_nil by done; lia. }
  destruct (is_h1 el && Rx.test BOOK_RX (trim (b_text el))).
  { unfold all_content. cbn [st_structure frontMatter chapters appendices]. lia. }
  destruct (inFrontMatter s).
  { unfold all_content. cbn [st_structure frontMatter chapters appendices].
    rewrite !length_app. simpl. lia. }
  pose proof (length_flat_map_on_last_ch (item_of el) (chapters (st_structure s))).
  pose proof (length_flat_map_on_last_ap (item_of el) (appendices (st_structure s))).
  destruct (appendices (st_structure s)) as [|a aps] eqn:Ea,
           (chapters (st_structure s)) as [|c chs] eqn:Ec;
    try destruct (match prev with Some _ => _ | None => _ end);
    unfold all_content; cbn [st_structure frontMatter chapters appendices];
    rewrite ?Ea, ?Ec, !length_app in *; try lia.
Qed.

(** No block is put in two sections: the sections hold at most as many
    items as the stream has selected blocks. *)
Lemma each_content prev els s :
  length (all_content (st_structure (each prev els s)))
  <= length (all_content (st_structure s)) + length (List.filter selected els).
Proof.
  revert prev s. induction els as [|el els IH]; intros prev s; [simpl; lia|].
  cbn [each List.filter]. destruct (selected el) eqn:E.
  - cbn [length].
    etransitivity; [apply IH|]. pose proof (step_content prev el s). lia.
  - apply IH.
Qed.

(** C1.  A paragraph that follows a book heading, before any chapter or
    appendix, is put in no section; and [parseChapters] keeps nothing of
    what stands before the first heading. *)
Theorem partition_drops_block :
  extractDocumentStructure
    [Block H1 (str "Book One") (str "Book One"); Block P (str "Lost") (str "Lost")]
  = Structure [] [Book (str "Book One") []] [] []
  /\ all_content
       (extractDocumentStructure
          [Block H1 (str "Book One") (str "Book One");
           Block P (str "Lost") (str "Lost")]) = []
  /\ flat_map sec_content
       (parseChapters
          [Elem (str "p") None None [TextN (str "Lost")];
           Elem (str "h1") None None [TextN (str "Chapter 1")];
           Elem (str "p") None None [TextN (str "Kept")]])
     = [Elem (str "p") None None [TextN (str "Kept")]].
Proof. split; [|split]; vm_compute; reflexivity. Qed.

(* ------------------------------------------------------------------ *)
(** ** Patterns that cannot fail, and patterns without groups *)

Lemma star_loop_last step n st : exists l, Rx.star_loop step n st = l ++ [st].
Proof. destruct n; [by exists []|]. simpl. eauto. Qed.

Lemma run_star_nonempty r st : Rx.run (Rx.Star r) st <> [].
Proof.
  cbn [Rx.run]. destruct (star_loop_last (Rx.run r) (length (Rx.rest st)) st) as [l ->].
  by destruct l.
Qed.

Lemma run_opt_nonempty r st : Rx.run (Rx.Opt r) st <> [].
Proof. rewrite run_opt. by destruct (Rx.run r st). Qed.

Lemma flat_map_nonempty {A B : Type} (F : A -> list B) l :
  l <> [] -> (forall x, F x <> []) -> flat_map F l <> [].
Proof.
  intros Hl HF. destruct l as [|x l]; [done|]. simpl.
  specialize (HF x). by destruct (F x).
Qed.

Lemma run_seq_nonempty a b st :
  Rx.run a st <> [] -> (forall st', Rx.run b st' <> []) -> Rx.run (Rx.Seq a b) st <> [].
Proof. intros Ha Hb. rewrite run_seq. by apply flat_map_nonempty. Qed.

Lemma head_flat_map {A B : Type} (F : A -> list B) x l :
  F x <> [] -> head (flat_map F (x :: l)) = head (F x).
Proof. intros H. simpl. by destruct (F x). Qed.

Lemma star_loop_caps step n :
  (forall st st', In st' (step st) -> Rx.caps st' = Rx.caps st) ->
  forall st st', In st' (Rx.star_loop step n st) -> Rx.caps st' = Rx.caps st.
Proof.
  intros Hstep. induction n as [|n IH]; intros st st' H; simpl in H.
  - by destruct H as [<-|[]].
  - apply in_app_or in H as [H|[<-|[]]]; [|done].
    apply in_flat_map in H as (st1 & H1 & H2).
    destruct (_ <? _); [|done].
    rewrite (IH _ _ H2). by apply Hstep.
Qed.

Lemma lazy_loop_caps step n :
  (forall st st', In st' (step st) -> Rx.caps st' = Rx.caps st) ->
  forall st st', In st' (Rx.lazy_loop step n st) -> Rx.caps st' = Rx.caps st.
Proof.
  intros Hstep. induction n as [|n IH]; intros st st' H; simpl in H.
  - by destruct H as [<-|[]].
  - destruct H as [<-|H]; [done|].
    apply in_flat_map in H as (st1 & H1 & H2).
    destruct (_ <? _); [|done].
    rewrite (IH _ _ H2). by apply Hstep.
Qed.

(** A pattern without groups leaves the captures as they are. *)
Lemma run_nogrp_caps r :
  nogrp r = true ->
  forall st st', In st' (Rx.run r st) -> Rx.caps st' = Rx.caps st.
Proof.
  induction r as [|q|a IHa b IHb|a IHa b IHb|a IHa|a IHa|i a IHa|i| |];
    intros Hr st st' H; cbn [nogrp] in Hr.
  - by destruct H as [<-|[]].
  - cbn [Rx.run] in H. destruct (Rx.rest st) as [|c t]; [done|].
    destruct (q c); [|done]. by destruct H as [<-|[]].
  - apply andb_true_iff in Hr as [Ha Hb]. rewrite run_seq in H.
    apply in_flat_map in H as (st1 & H1 & H2).
    rewrite (IHb Hb _ _ H2). by apply IHa.
  - apply andb_true_iff in Hr as [Ha Hb]. rewrite run_alt in H.
    apply in_app_or in H as [H|H]; [by apply IHa|by apply IHb].
  - cbn [Rx.run] in H. eapply star_loop_caps; [|exact H]. by apply IHa.
  - cbn [Rx.run] in H. eapply lazy_loop_caps; [|exact H]. by apply IHa.
  - done.
  - cbn [Rx.run] in H. destruct (Rx.cap i (Rx.caps st)); [|by destruct H as [<-|[]]].
    destruct (Rx.strip_prefix _ _); [|done]. by destruct H as [<-|[]].
  - cbn [Rx.run] in H. destruct (_ =? _); [|done]. by destruct H as [<-|[]].
  - cbn [Rx.run] in H. destruct (Rx.rest st); [|done]. by destruct H as [<-|[]].
Qed.

Lemma head_chr_star q p cs s :
  exists l, chr_star q p cs s
            = Rx.MS (p + length (take_while q s)) cs (drop_while q s) :: l.
Proof.
  revert p. induction s as [|c t IH]; intros p.
  - exists []. simpl. by rewrite Nat.add_0_r.
  - simpl. destruct (q c).
    + destruct (IH (S p)) as [l ->]. eexists. cbn [app length]. do 2 f_equal. lia.
    + exists []. simpl. by rewrite Nat.add_0_r.
Qed.

(* ------------------------------------------------------------------ *)
(** ** The chapter tests *)

Lemma run_bol_0 cs s : Rx.run Rx.Bol (Rx.MS 0 cs s) = [Rx.MS 0 cs s].
Proof. reflexivity. Qed.

Lemma run_grp i a st :
  Rx.run (Rx.Grp i a) st
  = map (fun st' => Rx.MS (Rx.pos st')
           ((i, take (Rx.pos st' - Rx.pos st) (Rx.rest st)) :: Rx.caps st')
           (Rx.rest st'))
        (Rx.run a st).
Proof. reflexivity. Qed.

Lemma number_tail_total st : Rx.run NUMBER_TAIL_RX st <> [].
Proof.
  unfold NUMBER_TAIL_RX. cbn [Rx.seqs].
  apply run_seq_nonempty; [apply run_star_nonempty|]. intros st1.
  apply run_seq_nonempty; [apply run_opt_nonempty|]. intros st2.
  apply run_seq_nonempty; [apply run_star_nonempty|]. intros st3.
  apply run_star_nonempty.
Qed.

Lemma number_match_shape :
  NUMBER_MATCH_RX
  = Rx.Seq Rx.Bol (Rx.Seq (Rx.Grp 1 (Rx.Plus (Rx.Chr is_digit))) NUMBER_TAIL_RX).
Proof. reflexivity. Qed.

Lemma at_pos_number_later p s : Rx.at_pos NUMBER_MATCH_RX (S p) s = None.
Proof. reflexivity. Qed.

Lemma search_number_later p s : Rx.search_from NUMBER_MATCH_RX (S p) s = None.
Proof.
  revert p. induction s as [|c t IH]; intros p; cbn [Rx.search_from];
    by rewrite at_pos_number_later.
Qed.

Lemma exec_number_no_digit s :
  starts_with_digit s = false -> Rx.exec NUMBER_MATCH_RX s = None.
Proof.
  intros H. unfold Rx.exec.
  assert (E : Rx.at_pos NUMBER_MATCH_RX 0 s = None).
  { unfold Rx.at_pos.
    rewrite number_match_shape, run_seq, run_bol_0, flat_map_one, run_seq, run_grp.
    rewrite run_plus_chr. destruct s as [|c t]; [done|].
    simpl in H. by rewrite H. }
  destruct s as [|c t]; cbn [Rx.search_from]; rewrite E; [done|].
  apply search_number_later.
Qed.

Lemma exec_number_digit s :
  starts_with_digit s = true ->
  exists st', Rx.exec NUMBER_MATCH_RX s = Some (0, st')
              /\ Rx.cap 1 (Rx.caps st') = Some (take_while is_digit s).
Proof.
  intros H. destruct s as [|c t]; [done|]. simpl in H.
  unfold Rx.exec. cbn [Rx.search_from]. unfold Rx.at_pos.
  rewrite number_match_shape, run_seq, run_bol_0, flat_map_one, run_seq, run_grp.
  rewrite run_plus_chr, H.
  destruct (head_chr_star is_digit 1 [] t) as [l ->].
  cbn [map Rx.pos Rx.caps Rx.rest].
  rewrite head_flat_map by apply number_tail_total.
  destruct (Rx.run NUMBER_TAIL_RX _) as [|st' l'] eqn:E.
  { by apply number_tail_total in E. }
  exists st'. split; [done|].
  assert (Hin : In st' (st' :: l')) by (by left).
  rewrite <- E in Hin.
  rewrite (run_nogrp_caps NUMBER_TAIL_RX eq_refl _ st' Hin).
  cbn [Rx.caps Rx.cap Nat.eqb take_while]. rewrite H.
  replace (1 + length (take_while is_digit t) - 0)
    with (S (length (take_while is_digit t))) by lia.
  cbn [take]. by rewrite take_take_while_id.
Qed.

Lemma length_on_last {A : Type} (f : A -> A) xs : length (on_last f xs) = length xs.
Proof.
  induction xs as [|x xs IH]; [done|]. destruct xs as [|y xs]; [done|].
  remember (y :: xs) as l. assert (on_last f (x :: l) = x :: on_last f l) as ->
    by (subst l; reflexivity).
  simpl. by rewrite IH.
Qed.

Lemma step_chapters prev el s :
  length (chapters (st_structure (step prev el s)))
  = length (chapters (st_structure s)) + (if opens_chapter el then 1 else 0)
  /\ (opens_chapter el = true ->
      last (chapters (st_structure (step prev el s)))
      = Some (opened_chapter (trim (b_text el)) (b_html el))).
Proof.
  unfold step, opens_chapter.
  destruct (is_h1_h2 el); cbn [andb].
  - destruct (Rx.test APPENDIX_RX (trim (b_text el))); cbn [negb andb].
    { cbn [st_structure chapters]. split; [lia|done]. }
    destruct (Rx.test CHAPTER_RX (trim (b_text el))).
    { destruct (books (st_structure s)); cbn [st_structure chapters];
        rewrite length_app, last_snoc; split; done. }
    split; [|done].
    destruct (is_h1 el && Rx.test BOOK_RX (trim (b_text el))).
    { cbn [st_structure chapters]. lia. }
    destruct (inFrontMatter s).
    { cbn [st_structure chapters]. lia. }
    destruct (appendices (st_structure s)), (chapters (st_structure s)) eqn:Ec;
      try destruct (match prev with Some _ => _ | None => _ end);
      cbn [st_structure chapters]; rewrite ?Ec, ?length_on_last; lia.
  - split; [|done].
    destruct (is_h1 el && Rx.test BOOK_RX (trim (b_text el))).
    { cbn [st_structure chapters]. lia. }
    destruct (inFrontMatter s).
    { cbn [st_structure chapters]. lia. }
    destruct (appendices (st_structure s)), (chapters (st_structure s)) eqn:Ec;
      try destruct (match prev with Some _ => _ | None => _ end);
      cbn [st_structure chapters]; rewrite ?Ec, ?length_on_last; lia.
Qed.

Lemma classify_title_spec title :
  classify_title title
  = match Rx.exec CHAPTER_MATCH_RX title with
    | Some _ => (true, Rx.group CHAPTER_MATCH_RX 1 title)
    | None =>
        if starts_with_digit title
        then (true, Some (take_while is_digit title))
        else (false, None)
    end.
Proof.
  unfold classify_title.
  destruct (Rx.exec CHAPTER_MATCH_RX title) as [m|].
  - cbn [negb]. by destruct (Rx.exec NUMBER_MATCH_RX title) as [[? ?]|].
  - cbn [negb]. destruct (starts_with_digit title) eqn:E.
    + destruct (exec_number_digit title E) as (st' & -> & ->). done.
    + by rewrite exec_number_no_digit.
Qed.


(* ------------------------------------------------------------------ *)
(** ** What the chapter patterns accept *)

Lemma starts_ci_cons a l c s :
  starts_ci (a :: l) (c :: s) = chr_eq (lower c) (lower a) && starts_ci l s.
Proof. reflexivity. Qed.

Lemma run_lits_ci l K st :
  Rx.run (Rx.Seq (Rx.seqs (map Rx.LitCi1 l)) K) st
  = if starts_ci l (Rx.rest st)
    then Rx.run K (Rx.MS (Rx.pos st + length l) (Rx.caps st) (drop (length l) (Rx.rest st)))
    else [].
Proof.
  revert st. induction l as [|a l IH]; intros [p cs s].
  - rewrite run_seq. cbn [map Rx.seqs Rx.run flat_map starts_ci length drop Rx.pos Rx.caps Rx.rest].
    by rewrite app_nil_r, Nat.add_0_r.
  - destruct l as [|b l].
    + cbn [map Rx.seqs]. rewrite run_seq. unfold Rx.LitCi1.
      destruct s as [|c s]; [rewrite run_chr_nil; reflexivity|]. rewrite run_chr_cons.
      cbn [Rx.pos Rx.caps Rx.rest starts_ci length].
      destruct (chr_eq (lower c) (lower a)); [|done].
      rewrite flat_map_one. cbn [andb drop]. do 2 f_equal. lia.
    + change (Rx.seqs (map Rx.LitCi1 (a :: b :: l)))
        with (Rx.Seq (Rx.LitCi1 a) (Rx.seqs (map Rx.LitCi1 (b :: l)))).
      rewrite run_seq, run_seq, flat_map_flat_map.
      change (Rx.LitCi1 a) with (Rx.Chr (fun x => chr_eq (lower x) (lower a))).
      destruct s as [|c s]; [rewrite run_chr_nil; reflexivity|]. rewrite run_chr_cons.
      cbn [Rx.pos Rx.caps Rx.rest]. rewrite (starts_ci_cons a (b :: l) c s).
      destruct (chr_eq (lower c) (lower a)); [|done].
      rewrite flat_map_one. rewrite <- run_seq, IH.
      cbn [andb Rx.pos Rx.caps Rx.rest]. destruct (starts_ci (b :: l) s); [|done].
      cbn [length drop]. do 2 f_equal. lia.
Qed.

Lemma starts_ci_spec l s :
  starts_ci l s = true
  <-> exists k r, s = k ++ r /\ toLowerCase k = toLowerCase l.
Proof.
  unfold toLowerCase. revert s. induction l as [|a l IH]; intros s.
  - split; [exists [], s; done|done].
  - destruct s as [|c s]; cbn [starts_ci].
    + split; [done|]. intros (k & r & Hs & Hk). by destruct k.
    + rewrite andb_true_iff, chr_eq_true, IH. split.
      * intros (Hc & k & r & -> & Hk). exists (c :: k), r.
        split; [done|]. cbn [map]. by rewrite Hc, Hk.
      * intros (k & r & Hs & Hk). destruct k as [|c' k]; [done|].
        cbn [app map] in Hs, Hk. injection Hs as -> ->. injection Hk as Hc Hk.
        split; [done|]. by exists k, r.
Qed.

Lemma search_from_some r p s :
  Rx.search_from r p s <> None
  <-> exists pre suf, s = pre ++ suf /\ Rx.at_pos r (p + length pre) suf <> None.
Proof.
  revert p. induction s as [|c t IH]; intros p; cbn [Rx.search_from].
  - destruct (Rx.at_pos r p []) eqn:E.
    + split; [|done]. intros _. exists [], []. cbn. by rewrite Nat.add_0_r, E.
    + split; [done|]. intros (pre & suf & Hs & H).
      destruct pre; [|done]. destruct suf; [|done].
      cbn in H. by rewrite Nat.add_0_r, E in H.
  - destruct (Rx.at_pos r p (c :: t)) eqn:E.
    + split; [|done]. intros _. exists [], (c :: t). cbn. by rewrite Nat.add_0_r, E.
    + rewrite IH. split.
      * intros (pre & suf & -> & H). exists (c :: pre), suf. split; [done|].
        cbn [length]. by replace (p + S (length pre)) with (S p + length pre) by lia.
      * intros (pre & suf & Hs & H). destruct pre as [|c' pre].
        -- cbn in Hs, H. subst suf. by rewrite Nat.add_0_r, E in H.
        -- cbn in Hs. injection Hs as -> ->. exists pre, suf. split; [done|].
           cbn [length] in H.
           by replace (S p + length pre) with (p + S (length pre)) by lia.
Qed.

Lemma take_while_space_split (q : ascii -> bool) ws w post :
  forallb is_space ws = true -> is_space w = false ->
  take_while is_space (ws ++ w :: post) = ws
  /\ drop_while is_space (ws ++ w :: post) = w :: post.
Proof. intros H1 H2. by rewrite take_while_all, drop_while_all. Qed.

Section ChapterPattern.
Variable X : Rx.regex.
Variable q : ascii -> bool.

(** The last part of the pattern accepts exactly the subjects that begin in
    the class [q], and no white space is in [q]. *)
Hypothesis X_accepts : forall st,
  Rx.run X st <> [] <-> exists c t, Rx.rest st = c :: t /\ q c = true.
Hypothesis q_no_space : forall c, q c = true -> is_space c = false.

Lemma X_rejects_space st c t :
  Rx.rest st = c :: t -> is_space c = true -> Rx.run X st = [].
Proof using X_accepts q_no_space.
  intros Hr Hc. destruct (Rx.run X st) eqn:E; [done|]. exfalso.
  assert (Hne : Rx.run X st <> []) by (by rewrite E).
  apply X_accepts in Hne as (c' & t' & Hr' & Hq).
  rewrite Hr in Hr'. injection Hr' as <- <-.
  apply q_no_space in Hq. congruence.
Qed.

Lemma chapter_pattern_at p suf :
  Rx.at_pos (Rx.seqs [Rx.LitCi "chapter"; Rx.Plus Rx.Space; X]) p suf <> None
  <-> exists k ws w post,
        suf = k ++ ws ++ w :: post
        /\ toLowerCase k = str "chapter"
        /\ ws <> [] /\ forallb is_space ws = true /\ q w = true.
Proof using X_accepts q_no_space.
  unfold Rx.at_pos. cbn [Rx.seqs]. unfold Rx.LitCi. rewrite run_lits_ci.
  cbn [Rx.rest Rx.pos Rx.caps].
  assert (Hhead : forall l : list Rx.mstate, head l <> None <-> l <> []).
  { intros l. by destruct l. }
  rewrite Hhead. split.
  - destruct (starts_ci (str "chapter") suf) eqn:Hs; [|done].
    apply starts_ci_spec in Hs as (k & r & -> & Hk).
    assert (Hlen : length k = 7).
    { apply (f_equal length) in Hk. unfold toLowerCase in Hk.
      rewrite !length_map in Hk. exact Hk. }
    replace (length (str "chapter")) with (length k) by done.
    rewrite drop_app_length. unfold Rx.Space.
    rewrite run_plus_then by apply X_rejects_space.
    pose proof (take_drop_while is_space r) as Hr.
    pose proof (take_while_forallb is_space r) as Hsp.
    destruct (take_while is_space r) as [|w0 ws]; [done|].
    intros Hne. apply X_accepts in Hne as (c & t & Hrest & Hq).
    cbn [Rx.rest] in Hrest. rewrite Hrest in Hr.
    exists k, (w0 :: ws), c, t. by rewrite Hr.
  - intros (k & ws & w & post & -> & Hk & Hws & Hsp & Hq).
    assert (Hs : starts_ci (str "chapter") (k ++ ws ++ w :: post) = true).
    { apply starts_ci_spec. by exists k, (ws ++ w :: post). }
    rewrite Hs.
    assert (Hlen : length k = 7).
    { apply (f_equal length) in Hk. unfold toLowerCase in Hk.
      rewrite length_map in Hk. exact Hk. }
    replace (length (str "chapter")) with (length k) by done.
    rewrite drop_app_length. unfold Rx.Space.
    rewrite run_plus_then by apply X_rejects_space.
    rewrite take_while_all, drop_while_all by (done || by apply q_no_space).
    destruct ws as [|w0 ws]; [done|].
    apply X_accepts. by exists w, post.
Qed.

Lemma chapter_pattern_test s :
  Rx.test (Rx.seqs [Rx.LitCi "chapter"; Rx.Plus Rx.Space; X]) s = true
  <-> holds_chapter q s.
Proof using X_accepts q_no_space.
  unfold Rx.test, Rx.exec, holds_chapter.
  assert (forall o : option (nat * Rx.mstate),
            match o with Some _ => true | None => false end = true <-> o <> None)
    as -> by (intros []; done).
  rewrite search_from_some. split.
  - intros (pre & suf & -> & H).
    apply chapter_pattern_at in H as (k & ws & w & post & -> & H).
    by exists pre, k, ws, w, post.
  - intros (pre & k & ws & w & post & -> & H).
    exists pre, (k ++ ws ++ w :: post). split; [done|].
    apply chapter_pattern_at. by exists k, ws, w, post.
Qed.
End ChapterPattern.

Lemma nonempty_map {A B : Type} (f : A -> B) l : map f l <> [] <-> l <> [].
Proof. by destruct l. Qed.

Lemma run_plus_chr_nonempty q st :
  Rx.run (Rx.Plus (Rx.Chr q)) st <> []
  <-> exists c t, Rx.rest st = c :: t /\ q c = true.
Proof.
  destruct st as [p cs s]. rewrite run_plus_chr. cbn [Rx.rest].
  destruct s as [|c t].
  - split; [done|]. by intros (c & t & H & _).
  - destruct (q c) eqn:E.
    + split; [by exists c, t|]. intros _.
      destruct (head_chr_star q (S p) cs t) as [l ->]. done.
    + split; [done|]. intros (c' & t' & [= <- <-] & H). congruence.
Qed.

Lemma is_word_no_space c : is_word c = true -> is_space c = false.
Proof. destruct c as [[] [] [] [] [] [] [] []]; intros H; done. Qed.

Lemma digit_alpha_no_space c :
  is_digit c || is_alpha c = true -> is_space c = false.
Proof. destruct c as [[] [] [] [] [] [] [] []]; intros H; done. Qed.

(** [/chapter\s+\w+/i] is found in the texts that hold [chapter], white
    space and a word character. *)
Lemma CHAPTER_RX_test s : Rx.test CHAPTER_RX s = true <-> holds_chapter is_word s.
Proof.
  apply (chapter_pattern_test (Rx.Plus Rx.Word) is_word).
  - intros st. apply run_plus_chr_nonempty.
  - apply is_word_no_space.
Qed.

(** [/chapter\s+(\d+|[a-z]+)/i] is found in the titles that hold [chapter],
    white space and a digit or a letter. *)
Lemma CHAPTER_MATCH_RX_test s :
  Rx.test CHAPTER_MATCH_RX s = true
  <-> holds_chapter (fun c => is_digit c || is_alpha c) s.
Proof.
  apply (chapter_pattern_test
           (Rx.Grp 1 (Rx.Alt (Rx.Plus Rx.Digit) (Rx.Plus (Rx.Chr is_alpha))))
           (fun c => is_digit c || is_alpha c)).
  - intros st. rewrite run_grp, nonempty_map, run_alt.
    pose proof (run_plus_chr_nonempty is_digit st) as Hd.
    pose proof (run_plus_chr_nonempty is_alpha st) as Ha.
    unfold Rx.Digit. split.
    + intros H. destruct (Rx.run (Rx.Plus (Rx.Chr is_digit)) st) eqn:E.
      * cbn [app] in H. apply Ha in H as (c & t & Hr & Hc).
        exists c, t. split; [done|]. by rewrite Hc, orb_true_r.
      * destruct (proj1 Hd) as (c & t & Hr & Hc); [done|].
        exists c, t. split; [done|]. by rewrite Hc.
    + intros (c & t & Hr & Hc). apply orb_true_iff in Hc as [Hc|Hc].
      * assert (Hne : Rx.run (Rx.Plus (Rx.Chr is_digit)) st <> [])
          by (apply Hd; by exists c, t).
        by destruct (Rx.run (Rx.Plus (Rx.Chr is_digit)) st).
      * assert (Hne : Rx.run (Rx.Plus (Rx.Chr is_alpha)) st <> [])
          by (apply Ha; by exists c, t).
        destruct (Rx.run (Rx.Plus (Rx.Chr is_alpha)) st); [done|].
        by destruct (Rx.run (Rx.Plus (Rx.Chr is_digit)) st).
  - apply digit_alpha_no_space.
Qed.

Lemma run_lits_nonempty l st :
  Rx.run (Rx.seqs (map Rx.LitCi1 l)) st <> [] <-> starts_ci l (Rx.rest st) = true.
Proof.
  pose proof (run_lits_ci l Rx.Eps st) as H. rewrite run_seq in H.
  destruct (starts_ci l (Rx.rest st)).
  - split; [done|]. intros _ E. rewrite E in H. done.
  - split; [|done]. intros Hne. exfalso.
    destruct (Rx.run (Rx.seqs (map Rx.LitCi1 l)) st); done.
Qed.

(** The appendix pattern is found in the texts that hold one of the four
    phrases. *)
Lemma APPENDIX_RX_test s :
  Rx.test APPENDIX_RX s = true <-> holds_appendix_phrase s.
Proof.
  unfold Rx.test, Rx.exec, holds_appendix_phrase.
  assert (forall o : option (nat * Rx.mstate),
            match o with Some _ => true | None => false end = true <-> o <> None)
    as -> by (intros []; done).
  rewrite search_from_some.
  assert (Hat : forall p suf,
            Rx.at_pos APPENDIX_RX p suf <> None
            <-> exists l, In l appendix_phrases /\ starts_ci l suf = true).
  { intros p suf. unfold Rx.at_pos, APPENDIX_RX, Rx.LitCi. rewrite !run_alt.
    set (st := Rx.MS p [] suf).
    pose proof (run_lits_nonempty (str "appendix") st) as H1.
    pose proof (run_lits_nonempty (str "one pagers") st) as H2.
    pose proof (run_lits_nonempty (str "persons of interest") st) as H3.
    pose proof (run_lits_nonempty (str "charts, maps") st) as H4.
    cbn [Rx.rest st] in H1, H2, H3, H4.
    assert (Hhead : forall l : list Rx.mstate, head l <> None <-> l <> [])
      by (intros []; done).
    rewrite Hhead. split.
    - intros Hne.
      destruct (Rx.run (Rx.seqs (map Rx.LitCi1 (str "appendix"))) st) eqn:E1.
      2:{ exists (str "appendix"). split; [by left|]. by apply H1. }
      destruct (Rx.run (Rx.seqs (map Rx.LitCi1 (str "one pagers"))) st) eqn:E2.
      2:{ exists (str "one pagers"). split; [right; by left|]. by apply H2. }
      destruct (Rx.run (Rx.seqs (map Rx.LitCi1 (str "persons of interest"))) st) eqn:E3.
      2:{ exists (str "persons of interest"). split; [do 2 right; by left|]. by apply H3. }
      exists (str "charts, maps"). split; [do 3 right; by left|]. by apply H4.
    - intros (l & Hin & Hs). cbv [appendix_phrases In] in Hin.
      destruct Hin as [<-|[<-|[<-|[<-|[]]]]].
      + apply H1 in Hs. by destruct (Rx.run _ st).
      + apply H2 in Hs. destruct (Rx.run (Rx.seqs (map Rx.LitCi1 (str "one pagers"))) st);
          [done|]. by destruct (Rx.run _ st).
      + apply H3 in Hs.
        destruct (Rx.run (Rx.seqs (map Rx.LitCi1 (str "persons of interest"))) st);
          [done|].
        destruct (Rx.run (Rx.seqs (map Rx.LitCi1 (str "appendix"))) st); [|done].
        by destruct (Rx.run _ st).
      + apply H4 in Hs.
        destruct (Rx.run (Rx.seqs (map Rx.LitCi1 (str "charts, maps"))) st); [done|].
        destruct (Rx.run (Rx.seqs (map Rx.LitCi1 (str "appendix"))) st); [|done].
        destruct (Rx.run (Rx.seqs (map Rx.LitCi1 (str "one pagers"))) st); [|done].
        by destruct (Rx.run _ st). }
  split.
  - intros (pre & suf & -> & H). apply Hat in H as (l & Hin & Hs).
    apply starts_ci_spec in Hs as (k & r & -> & Hk).
    exists pre, k, r. split; [done|]. rewrite Hk.
    cbv [appendix_phrases In] in Hin |- *.
    destruct Hin as [<-|[<-|[<-|[<-|[]]]]]; tauto.
  - intros (pre & k & post & -> & Hin). exists pre, (k ++ post). split; [done|].
    apply Hat. exists (toLowerCase k). split; [done|].
    apply starts_ci_spec. exists k, post. split; [done|].
    cbv [appendix_phrases In] in Hin.
    destruct Hin as [<-|[<-|[<-|[<-|[]]]]]; reflexivity.
Qed.

(** C8, amended.  In converter.js a block opens a chapter exactly when it
    is an [h1] or [h2], holds no appendix phrase and its text holds
    [chapter], white space and a word character; the chapter gets the
    identifier [chapter-] followed by the token in lower case; a bare
    numeral opens no chapter there.  In part_000 a heading is a chapter
    exactly when its title holds [chapter], white space and a digit or a
    letter, or begins with a digit, whatever follows the digits; the token
    is [chapterNum] and the identifier is [chapter-] followed by it. *)
Theorem chapter_heading_rules :
  (forall prev el s,
     length (chapters (st_structure (step prev el s)))
     = length (chapters (st_structure s)) + (if opens_chapter el then 1 else 0)
     /\ (opens_chapter el = true ->
         last (chapters (st_structure (step prev el s)))
         = Some (opened_chapter (trim (b_text el)) (b_html el))))
  /\ (forall el,
        opens_chapter el = true
        <-> is_h1_h2 el = true
            /\ ~ holds_appendix_phrase (trim (b_text el))
            /\ holds_chapter is_word (trim (b_text el)))
  /\ (forall title,
        (classify_title title).1 = true
        <-> holds_chapter (fun c => is_digit c || is_alpha c) title
            \/ starts_with_digit title = true)
  /\ (forall title,
        Rx.test CHAPTER_MATCH_RX title = false ->
        starts_with_digit title = true ->
        classify_title title = (true, Some (take_while is_digit title)))
  /\ (forall sec index num,
        chapterNum sec = Some num -> num <> [] ->
        generateId sec index = str "chapter-" ++ num).
Proof.
  split; [apply step_chapters|]. split; [|split; [|split]].
  - intros el. unfold opens_chapter.
    rewrite !andb_true_iff, negb_true_iff, CHAPTER_RX_test, <- APPENDIX_RX_test.
    rewrite not_true_iff_false. tauto.
  - intros title. rewrite classify_title_spec, <- CHAPTER_MATCH_RX_test.
    unfold Rx.test.
    destruct (Rx.exec CHAPTER_MATCH_RX title); cbn [fst].
    + split; [by left|done].
    + destruct (starts_with_digit title); cbn [fst]; split; intros H;
        try done; try (by right); by destruct H.
  - intros title H1 H2. rewrite classify_title_spec. unfold Rx.test in H1.
    destruct (Rx.exec CHAPTER_MATCH_RX title); [done|]. by rewrite H2.
  - intros sec index num H Hn. unfold generateId. rewrite H.
    by destruct num.
Qed.

(** C8 as stated fails: in converter.js the heading [1. Arrival] (a bare
    numeral and a full stop, no appendix phrase) opens no chapter and goes
    to the front matter; in part_000 the heading [12], with no punctuation
    after the numeral, is a chapter. *)
Lemma bare_numeral_heading_counterexample :
  Rx.test APPENDIX_RX (str "1. Arrival") = false
  /\ chapters (extractDocumentStructure
                 [Block H1 (str "1. Arrival") (str "1. Arrival")]) = []
  /\ frontMatter (extractDocumentStructure
                    [Block H1 (str "1. Arrival") (str "1. Arrival")])
     = [Item (str "h1") (str "1. Arrival")]
  /\ classify_title (str "12") = (true, Some (str "12")).
Proof. repeat split; vm_compute; reflexivity. Qed.

(* ------------------------------------------------------------------ *)
(** ** Footnote sections are removed *)






(* ------------------------------------------------------------------ *)
(** ** The footnote map: the last entry written wins *)

Lemma last_for_app n a b :
  last_for n (a ++ b)
  = match last_for n b with Some x => Some x | None => last_for n a end.
Proof.
  induction a as [|[k v] a IH]; cbn [app last_for].
  - by destruct (last_for n b).
  - rewrite IH. by destruct (last_for n b).
Qed.

Lemma foldl_set_entry {A : Type} (entry : A -> option (txt * txt))
    (els : list A) (m0 : footmap) (n : txt) :
  foldl (fun m el => set_entry m (entry el)) m0 els !! n
  = match last_for n (omap entry els) with
    | Some v => Some v
    | None => m0 !! n
    end.
Proof.
  revert m0. induction els as [|el els IH]; intros m0; [done|].
  cbn [foldl]. rewrite IH. cbn [omap list_omap].
  destruct (entry el) as [[k v]|]; [|done]. cbn [set_entry].
  cbn [last_for]. destruct (last_for n (omap entry els)); [done|].
  rewrite lookup_insert. destruct (decide (k = n)); done.
Qed.

Lemma foldl_flat_map {A B C : Type} (f : A -> C -> A) (g : B -> list C) a l :
  foldl (fun acc x => foldl f acc (g x)) a l = foldl f a (flat_map g l).
Proof.
  revert a. induction l as [|x l IH]; intros a; [done|].
  cbn [foldl flat_map]. by rewrite foldl_app, IH.
Qed.

Lemma container_lookup (doc : list node) (n : txt) :
  (parseAndCleanFootnotes doc).2 !! n = last_for n (container_entries doc).
Proof.
  cbn [parseAndCleanFootnotes snd]. unfold scan_section.
  rewrite (foldl_flat_map scan_child (find sel_p_div_span)).
  unfold scan_child, container_entries.
  rewrite (foldl_set_entry child_entry). by destruct (last_for _ _).
Qed.

Lemma extractFootnotes_lookup (doc : list node) (n : txt) :
  extractFootnotes doc !! n
  = last_for n (selector_entries doc ++ supsub_entries doc).
Proof.
  unfold extractFootnotes, scan_supsub, scan_footnote.
  rewrite (foldl_set_entry supsub_entry), (foldl_set_entry footnote_entry).
  rewrite last_for_app. unfold supsub_entries, selector_entries.
  destruct (last_for n (omap supsub_entry _)); [done|].
  by destruct (last_for n (omap footnote_entry _)).
Qed.

Lemma last_for_elem_of (n v : txt) (l : list (txt * txt)) :
  NoDup l.*1 -> (last_for n l = Some v <-> (n, v) ∈ l).
Proof.
  revert v. induction l as [|[k w] l IH]; intros v Hnd.
  - cbn. split; [done|]. by intros ?%elem_of_nil.
  - cbn [fmap list_fmap fst] in Hnd. apply NoDup_cons in Hnd as [Hk Hnd].
    cbn [last_for]. rewrite elem_of_cons.
    destruct (last_for n l) as [x|] eqn:E.
    + pose proof (proj1 (IH x Hnd) eq_refl) as Hx. split.
      * intros [= <-]. by right.
      * intros [[= -> ->]|Hv].
        -- exfalso. apply Hk. apply list_elem_of_fmap. by exists (k, x).
        -- by apply (IH v Hnd) in Hv.
    + assert (Hno : forall u, (n, u) ∉ l).
      { intros u Hu. by apply (IH u Hnd) in Hu. }
      destruct (decide (k = n)) as [->|Hne]; split.
      * intros [= ->]. by left.
      * intros [[= ->]|Hv]; [done|]. by apply Hno in Hv.
      * done.
      * intros [[= -> ->]|Hv]; [done|]. by apply Hno in Hv.
Qed.

Lemma last_for_map_to_list (m : footmap) (n : txt) : last_for n (map_to_list m) = m !! n.
Proof.
  apply option_eq. intros v.
  rewrite (last_for_elem_of n v) by apply NoDup_fst_map_to_list.
  apply elem_of_map_to_list.
Qed.

Lemma foldl_insert_lookup (l : list (txt * txt)) (m0 : footmap) (n : txt) :
  foldl (fun m kv => <[kv.1 := kv.2]> m) m0 l !! n
  = match last_for n l with
    | Some v => Some v
    | None => m0 !! n
    end.
Proof.
  revert m0. induction l as [|[k v] l IH]; intros m0; [done|].
  cbn [foldl last_for]. rewrite IH. destruct (last_for n l); [done|].
  cbn [fst snd]. rewrite lookup_insert. by destruct (decide (k = n)).
Qed.

Lemma Map_of_entries_lookup (l : list (txt * txt)) (n : txt) :
  Map_of_entries l !! n = last_for n l.
Proof.
  unfold Map_of_entries. rewrite foldl_insert_lookup, lookup_empty.
  by destruct (last_for n l).
Qed.

(** C2, amended.  Every discovery writes with [set], whether or not the
    numeral is already bound: the footnote map binds each numeral to the
    last entry written for it, in the order section children, selected
    elements, [sup] and [sub] elements; the merge lets the entries of
    [extractFootnotes] replace those of the footnote sections. *)
Theorem footnote_map_last_wins (rawDoc : list node) (n : txt) :
  footMap_of rawDoc !! n
  = last_for n (container_entries rawDoc
                  ++ selector_entries (parseAndCleanFootnotes rawDoc).1
                  ++ supsub_entries (parseAndCleanFootnotes rawDoc).1)
  /\ footMap_of rawDoc !! n
     = match extractFootnotes (parseAndCleanFootnotes rawDoc).1 !! n with
       | Some t => Some t
       | None => (parseAndCleanFootnotes rawDoc).2 !! n
       end.
Proof.
  assert (E : footMap_of rawDoc !! n
              = match extractFootnotes (parseAndCleanFootnotes rawDoc).1 !! n with
                | Some t => Some t
                | None => (parseAndCleanFootnotes rawDoc).2 !! n
                end).
  { unfold footMap_of. destruct (parseAndCleanFootnotes rawDoc) as [cleaned ex].
    cbn [fst snd]. rewrite Map_of_entries_lookup, last_for_app.
    by rewrite !last_for_map_to_list. }
  split; [|exact E].
  rewrite E, extractFootnotes_lookup, container_lookup, !last_for_app.
  destruct (last_for n (supsub_entries _)); [done|].
  by destruct (last_for n (selector_entries _)).
Qed.

(** C2 as stated fails: the footnote section binds 1 to [alpha] first, the
    element with the footnote id found by the later pass binds 1 to [gamma],
    and the merged map holds [gamma]; inside [extractFootnotes] the [sub]
    pass replaces [gamma] by [delta]. *)
Lemma footnote_map_first_wins_counterexample :
  (parseAndCleanFootnotes defined_twice).2 !! str "1" = Some (str "alpha")
  /\ extractFootnotes (parseAndCleanFootnotes defined_twice).1 !! str "1"
     = Some (str "gamma")
  /\ footMap_of defined_twice !! str "1" = Some (str "gamma")
  /\ footMap_of defined_twice !! str "1" <> Some (str "alpha")
  /\ selector_entries defined_by_sub = [(str "1", str "gamma")]
  /\ extractFootnotes defined_by_sub !! str "1" = Some (str "delta").
Proof.
  split; [vm_compute; reflexivity|].
  split; [vm_compute; reflexivity|].
  split; [vm_compute; reflexivity|].
  split; [vm_compute; discriminate|].
  split; vm_compute; reflexivity.
Qed.

(* ------------------------------------------------------------------ *)
(** ** Footnote sections *)




(* ------------------------------------------------------------------ *)
(** ** The partition of converter.js over a whole stream *)

Lemma map_on_last {A B : Type} (g : A -> B) (f : A -> A) (l : list A) :
  (forall x, g (f x) = g x) -> map g (on_last f l) = map g l.
Proof.
  intros H. induction l as [|x l IH]; [done|].
  destruct l as [|y l]; [by cbn; rewrite H|].
  change (on_last f (x :: y :: l)) with (x :: on_last f (y :: l)).
  cbn [map] in *. by rewrite IH.
Qed.

Lemma flat_map_on_last {A B : Type} (g : A -> list B) (f : A -> A) (it : B)
    (l : list A) :
  (forall x, g (f x) = g x ++ [it]) -> l <> [] ->
  flat_map g (on_last f l) = flat_map g l ++ [it].
Proof.
  intros H. induction l as [|x l IH]; [done|]. intros _.
  destruct l as [|y l]; [by cbn; rewrite H, !app_nil_r|].
  change (on_last f (x :: y :: l)) with (x :: on_last f (y :: l)).
  cbn [flat_map] in *. rewrite IH by done. by rewrite app_assoc.
Qed.

Lemma flat_map_on_nth_last {A B : Type} (g : A -> list B) (f : A -> A) (it : B)
    (l : list A) :
  (forall x, g (f x) = g x ++ [it]) -> l <> [] ->
  flat_map g (on_nth (length l - 1) f l) = flat_map g l ++ [it].
Proof.
  intros H. induction l as [|x l IH]; [done|]. intros _.
  destruct l as [|y l]; [by cbn; rewrite H, !app_nil_r|].
  replace (length (x :: y :: l) - 1) with (S (length (y :: l) - 1))
    by (cbn [length]; lia).
  cbn [on_nth flat_map] in *. rewrite IH by done. by rewrite app_assoc.
Qed.

Lemma step_appendix prev el s :
  opens_appendix el = true ->
  step prev el s
  = PState (Structure (frontMatter (st_structure s)) (books (st_structure s))
              (chapters (st_structure s))
              (appendices (st_structure s) ++ [opened_appendix (trim (b_text el))]))
           (currentBook s) false.
Proof. unfold opens_appendix, step. by intros ->. Qed.

Lemma step_chapter prev el s :
  opens_chapter el = true ->
  step prev el s
  = let st := st_structure s in
    let bc := match books st with
              | [] => ([Book (str "Book One") []], Some 0)
              | _ :: _ => (books st, currentBook s)
              end in
    PState (Structure (frontMatter st)
              (match bc.2 with
               | Some i => on_nth i (push_book_chapter (length (chapters st))) bc.1
               | None => bc.1
               end)
              (chapters st ++ [opened_chapter (trim (b_text el)) (b_html el)])
              (appendices st))
           bc.2 false.
Proof.
  unfold opens_chapter, step. intros H.
  apply andb_true_iff in H as [H H3]. apply andb_true_iff in H as [H1 H2].
  apply negb_true_iff in H2. rewrite H1, H2, H3. cbn [andb].
  by destruct (books (st_structure s)).
Qed.

Lemma step_book prev el s :
  opens_appendix el = false -> opens_chapter el = false -> opens_book el = true ->
  step prev el s
  = PState (Structure (frontMatter (st_structure s))
              (books (st_structure s) ++ [Book (trim (b_text el)) []])
              (chapters (st_structure s)) (appendices (st_structure s)))
           (Some (length (books (st_structure s)))) false.
Proof.
  unfold opens_appendix, opens_chapter, opens_book, step. intros H1 H2 H3.
  rewrite H3.
  destruct (is_h1_h2 el), (Rx.test APPENDIX_RX (trim (b_text el))),
    (Rx.test CHAPTER_RX (trim (b_text el))); cbn [andb negb] in *;
    try discriminate; reflexivity.
Qed.

Lemma step_other prev el s :
  opens_section el = false ->
  step prev el s
  = let st := st_structure s in
    if inFrontMatter s then
      PState (Structure (frontMatter st ++ [item_of el]) (books st) (chapters st)
                (appendices st))
             (currentBook s) (inFrontMatter s)
    else
      let to_appendix :=
        PState (Structure (frontMatter st) (books st) (chapters st)
                  (on_last (push_appendix_content (item_of el)) (appendices st)))
               (currentBook s) (inFrontMatter s) in
      let to_chapter :=
        PState (Structure (frontMatter st) (books st)
                  (on_last (push_chapter_content (item_of el)) (chapters st))
                  (appendices st))
               (currentBook s) (inFrontMatter s) in
      match appendices st, chapters st with
      | _ :: _, [] => to_appendix
      | _ :: _, _ :: _ =>
          if match prev with
             | Some lastEl => Rx.test APPENDIX_RX (trim (b_text lastEl))
             | None => false
             end
          then to_appendix else to_chapter
      | [], _ :: _ => to_chapter
      | [], [] => s
      end.
Proof.
  unfold opens_section, opens_appendix, opens_chapter, opens_book, step. intros H.
  apply orb_false_iff in H as [H H3]. apply orb_false_iff in H as [H1 H2].
  rewrite H3.
  destruct (is_h1_h2 el), (Rx.test APPENDIX_RX (trim (b_text el))),
    (Rx.test CHAPTER_RX (trim (b_text el))); cbn [andb negb] in *;
    try discriminate; reflexivity.
Qed.

(** The four ways a block is read. *)
Lemma step_kind el :
  opens_appendix el = true
  \/ (opens_appendix el = false /\ opens_chapter el = true)
  \/ (opens_appendix el = false /\ opens_chapter el = false /\ opens_book el = true)
  \/ opens_section el = false.
Proof.
  unfold opens_section.
  destruct (opens_appendix el), (opens_chapter el), (opens_book el); tauto.
Qed.

Lemma step_books_inv prev el s : books_inv s -> books_inv (step prev el s).
Proof.
  intros [Hf Hc]. unfold books_inv.
  destruct (step_kind el) as [H|[[H1 H]|[(H1 & H2 & H)|H]]].
  - rewrite step_appendix by done. cbn [st_structure books chapters currentBook]. done.
  - rewrite step_chapter by done. cbn zeta.
    destruct (books (st_structure s)) as [|b bs] eqn:Eb;
      cbn [fst snd st_structure books chapters currentBook].
    + cbn [flat_map] in Hf.
      assert (Hl : length (chapters (st_structure s)) = 0)
        by (destruct (chapters (st_structure s)); [done|discriminate Hf]).
      rewrite length_app, Hl. done.
    + rewrite (Hc ltac:(done)). split.
      * rewrite length_app, Nat.add_1_r, seq_S. cbn [Nat.add]. rewrite <- Hf.
        apply flat_map_on_nth_last; [by intros []|done].
      * intros _. f_equal.
        assert (E : forall (f : book -> book) n l, length (on_nth n f l) = length l).
        { intros f n l. revert n. induction l as [|x l IH]; intros [|n]; cbn; auto. }
        by rewrite E.
  - rewrite step_book by done. cbn [st_structure books chapters currentBook].
    rewrite flat_map_snoc_nil by done. split; [done|]. intros _.
    rewrite length_app. cbn [length]. f_equal. lia.
  - rewrite step_other by done. cbn zeta.
    destruct (inFrontMatter s); [done|].
    destruct (appendices (st_structure s)), (chapters (st_structure s)) eqn:Ec;
      try destruct (match prev with Some _ => _ | None => _ end);
      cbn [st_structure books chapters currentBook];
      rewrite ?length_on_last, ?Ec; rewrite ?Ec in Hf; done.
Qed.

Lemma each_books_inv prev els s : books_inv s -> books_inv (each prev els s).
Proof.
  revert prev s. induction els as [|el els IH]; intros prev s H; [done|].
  cbn [each]. apply IH. destruct (selected el); [by apply step_books_inv|done].
Qed.

(** In the structure [extractDocumentStructure] returns, the books hold
    every chapter exactly once, in the order of [chapters]: the chapter
    positions listed by the books, book after book, are 0, 1, 2, ... *)
Theorem books_hold_every_chapter (body : list block) :
  flat_map bk_chapters (books (extractDocumentStructure body))
  = seq 0 (length (chapters (extractDocumentStructure body))).
Proof.
  unfold extractDocumentStructure.
  apply (each_books_inv None body (PState (Structure [] [] [] []) None true)).
  split; [reflexivity|done].
Qed.

Lemma opens_chapter_selected el : opens_chapter el = true -> selected el = true.
Proof.
  unfold opens_chapter, is_h1_h2, selected. by destruct (b_tag el).
Qed.

Lemma opens_appendix_selected el : opens_appendix el = true -> selected el = true.
Proof.
  unfold opens_appendix, is_h1_h2, selected. by destruct (b_tag el).
Qed.

Lemma opens_appendix_not_chapter el :
  opens_appendix el = true -> opens_chapter el = false.
Proof.
  unfold opens_appendix, opens_chapter.
  by destruct (is_h1_h2 el), (Rx.test APPENDIX_RX (trim (b_text el))).
Qed.

Lemma opens_section_false el :
  opens_section el = false ->
  opens_appendix el = false /\ opens_chapter el = false /\ opens_book el = false.
Proof.
  unfold opens_section.
  destruct (opens_appendix el), (opens_chapter el), (opens_book el); done.
Qed.

Lemma step_headings prev el s :
  map chapter_heading (chapters (st_structure (step prev el s)))
  = map chapter_heading (chapters (st_structure s))
      ++ (if opens_chapter el
          then [opened_chapter (trim (b_text el)) (b_html el)] else [])
  /\ map appendix_heading (appendices (st_structure (step prev el s)))
     = map appendix_heading (appendices (st_structure s))
         ++ (if opens_appendix el then [opened_appendix (trim (b_text el))] else []).
Proof.
  destruct (step_kind el) as [H|[[H1 H]|[(H1 & H2 & H)|H]]].
  - rewrite step_appendix, H, (opens_appendix_not_chapter el H) by done.
    cbn [st_structure chapters appendices]. by rewrite map_app, app_nil_r.
  - rewrite step_chapter, H, H1 by done. cbn zeta.
    cbn [st_structure chapters appendices]. by rewrite map_app, app_nil_r.
  - rewrite step_book, H1, H2 by done.
    cbn [st_structure chapters appendices]. by rewrite !app_nil_r.
  - rewrite step_other by done.
    destruct (opens_section_false el H) as (-> & -> & _). cbn zeta.
    rewrite !app_nil_r.
    destruct (inFrontMatter s); [done|].
    destruct (appendices (st_structure s)) eqn:Ea,
      (chapters (st_structure s)) eqn:Ec;
      try destruct (match prev with Some _ => _ | None => _ end);
      cbn [st_structure chapters appendices];
      rewrite ?Ea, ?Ec, ?(map_on_last chapter_heading),
        ?(map_on_last appendix_heading);
      done.
Qed.

Lemma each_headings prev els s :
  map chapter_heading (chapters (st_structure (each prev els s)))
  = map chapter_heading (chapters (st_structure s))
      ++ map (fun el => opened_chapter (trim (b_text el)) (b_html el))
           (List.filter opens_chapter els)
  /\ map appendix_heading (appendices (st_structure (each prev els s)))
     = map appendix_heading (appendices (st_structure s))
         ++ map (fun el => opened_appendix (trim (b_text el)))
              (List.filter opens_appendix els).
Proof.
  revert prev s. induction els as [|el els IH]; intros prev s.
  { cbn. by rewrite !app_nil_r. }
  cbn [each List.filter].
  destruct (IH (Some el) (if selected el then step prev el s else s)) as [-> ->].
  destruct (selected el) eqn:Es.
  - destruct (step_headings prev el s) as [-> ->].
    rewrite <- !app_assoc.
    by destruct (opens_chapter el), (opens_appendix el).
  - destruct (opens_chapter el) eqn:E1;
      [by rewrite (opens_chapter_selected el E1) in Es|].
    destruct (opens_appendix el) eqn:E2;
      [by rewrite (opens_appendix_selected el E2) in Es|].
    done.
Qed.

(** The chapters of the structure are, in document order, the ones the
    chapter headings open, and the appendices the ones the appendix
    headings open: title, identifiers and reference come from the heading
    alone, whatever stands between the headings. *)
Theorem sections_follow_headings (body : list block) :
  map chapter_heading (chapters (extractDocumentStructure body))
  = map (fun el => opened_chapter (trim (b_text el)) (b_html el))
      (List.filter opens_chapter body)
  /\ map appendix_heading (appendices (extractDocumentStructure body))
     = map (fun el => opened_appendix (trim (b_text el)))
         (List.filter opens_appendix body).
Proof.
  unfold extractDocumentStructure.
  destruct (each_headings None body (PState (Structure [] [] [] []) None true))
    as [-> ->].
  done.
Qed.

Lemma step_front prev el s :
  frontMatter (st_structure (step prev el s))
  = frontMatter (st_structure s)
      ++ (if inFrontMatter s && negb (opens_section el) then [item_of el] else [])
  /\ inFrontMatter (step prev el s) = inFrontMatter s && negb (opens_section el).
Proof.
  destruct (step_kind el) as [H|[[H1 H]|[(H1 & H2 & H)|H]]].
  - rewrite step_appendix by done. unfold opens_section. rewrite H.
    cbn [orb negb st_structure frontMatter inFrontMatter].
    by rewrite andb_false_r, app_nil_r.
  - rewrite step_chapter by done. unfold opens_section. rewrite H, H1.
    cbn [orb negb st_structure frontMatter inFrontMatter].
    by rewrite andb_false_r, app_nil_r.
  - rewrite step_book by done. unfold opens_section. rewrite H, H1, H2.
    cbn [orb negb st_structure frontMatter inFrontMatter].
    by rewrite andb_false_r, app_nil_r.
  - rewrite step_other, H by done. cbn zeta. cbn [negb].
    destruct (inFrontMatter s) eqn:Ef; cbn [andb].
    { by cbn [st_structure frontMatter inFrontMatter]. }
    rewrite app_nil_r.
    destruct (appendices (st_structure s)), (chapters (st_structure s));
      try destruct (match prev with Some _ => _ | None => _ end);
      cbn [st_structure frontMatter inFrontMatter]; rewrite ?Ef; done.
Qed.

Lemma each_front prev els s :
  frontMatter (st_structure (each prev els s))
  = frontMatter (st_structure s)
      ++ (if inFrontMatter s
          then map item_of (before_first opens_section (List.filter selected els))
          else []).
Proof.
  revert prev s. induction els as [|el els IH]; intros prev s.
  { cbn. destruct (inFrontMatter s); by rewrite app_nil_r. }
  cbn [each List.filter]. rewrite IH.
  destruct (selected el) eqn:Es; [|done].
  destruct (step_front prev el s) as [-> ->]. cbn [before_first].
  destruct (inFrontMatter s), (opens_section el); cbn [andb negb map];
    rewrite <- ?app_assoc; done.
Qed.

(** The front matter holds exactly the selected blocks that stand before
    the first heading that opens an appendix, a chapter or a book, in
    document order. *)
Theorem front_matter_is_prefix (body : list block) :
  frontMatter (extractDocumentStructure body)
  = map item_of (before_first opens_section (List.filter selected body)).
Proof.
  unfold extractDocumentStructure. by rewrite each_front.
Qed.

Lemma all_content_push_chapter it fm bs cs aps :
  cs <> [] ->
  all_content (Structure fm bs (on_last (push_chapter_content it) cs) aps)
  ≡ₚ all_content (Structure fm bs cs aps) ++ [it].
Proof.
  intros H. unfold all_content. cbn [frontMatter chapters appendices].
  rewrite (flat_map_on_last ch_content _ it) by (done || by intros []).
  rewrite <- !app_assoc. by rewrite (Permutation_app_comm [it] (flat_map ap_content aps)).
Qed.

Lemma all_content_push_appendix it fm bs cs aps :
  aps <> [] ->
  all_content (Structure fm bs cs (on_last (push_appendix_content it) aps))
  = all_content (Structure fm bs cs aps) ++ [it].
Proof.
  intros H. unfold all_content. cbn [frontMatter chapters appendices].
  rewrite (flat_map_on_last ap_content _ it) by (done || by intros []).
  by rewrite <- !app_assoc.
Qed.

Lemma all_content_push_front it fm bs cs aps :
  all_content (Structure (fm ++ [it]) bs cs aps)
  ≡ₚ all_content (Structure fm bs cs aps) ++ [it].
Proof.
  unfold all_content. cbn [frontMatter chapters appendices].
  rewrite <- !app_assoc.
  rewrite (Permutation_app_comm [it]
             (flat_map ch_content cs ++ flat_map ap_content aps)).
  by rewrite <- !app_assoc.
Qed.

Lemma structure_eta st :
  st = Structure (frontMatter st) (books st) (chapters st) (appendices st).
Proof. by destruct st. Qed.

(** One block that opens a section moves the phase and adds no content. *)
Lemma step_opens ph prev el s :
  phase_of ph s -> opens_section el = true ->
  phase_of (next_phase ph el) (step prev el s)
  /\ all_content (st_structure (step prev el s)) = all_content (st_structure s).
Proof.
  intros Hp Ho. unfold next_phase.
  destruct (step_kind el) as [H|[[H1 H]|[(H1 & H2 & H)|H]]];
    [| | |congruence].
  - rewrite step_appendix, H by done. cbn [orb]. split.
    + cbn. split; [done|]. right. by destruct (appendices (st_structure s)).
    + unfold all_content. cbn [st_structure frontMatter chapters appendices].
      by rewrite flat_map_snoc_nil.
  - rewrite step_chapter, H, H1 by done. cbn zeta. cbn [orb]. split.
    + cbn. split; [done|]. left. by destruct (chapters (st_structure s)).
    + unfold all_content. cbn [st_structure frontMatter chapters appendices].
      by rewrite flat_map_snoc_nil.
  - rewrite step_book, H, H1, H2 by done. cbn [orb]. split; [|done].
    destruct ph; cbn in *; tauto.
Qed.

Lemma keep_in_appendix el s :
  inFrontMatter s = false -> appendices (st_structure s) <> [] ->
  phase_of Open
    (PState (Structure (frontMatter (st_structure s)) (books (st_structure s))
               (chapters (st_structure s))
               (on_last (push_appendix_content (item_of el))
                  (appendices (st_structure s))))
            (currentBook s) false)
  /\ all_content
       (Structure (frontMatter (st_structure s)) (books (st_structure s))
          (chapters (st_structure s))
          (on_last (push_appendix_content (item_of el))
             (appendices (st_structure s))))
     ≡ₚ all_content (st_structure s) ++ [item_of el].
Proof.
  intros Hf Ha. split.
  - cbn [phase_of st_structure inFrontMatter chapters appendices].
    split; [done|]. right. intros E.
    apply (f_equal length) in E. rewrite length_on_last in E.
    by destruct (appendices (st_structure s)).
  - rewrite (structure_eta (st_structure s)) at 5.
    by rewrite all_content_push_appendix.
Qed.

Lemma keep_in_chapter el s :
  inFrontMatter s = false -> chapters (st_structure s) <> [] ->
  phase_of Open
    (PState (Structure (frontMatter (st_structure s)) (books (st_structure s))
               (on_last (push_chapter_content (item_of el))
                  (chapters (st_structure s)))
               (appendices (st_structure s)))
            (currentBook s) false)
  /\ all_content
       (Structure (frontMatter (st_structure s)) (books (st_structure s))
          (on_last (push_chapter_content (item_of el))
             (chapters (st_structure s)))
          (appendices (st_structure s)))
     ≡ₚ all_content (st_structure s) ++ [item_of el].
Proof.
  intros Hf Hc. split.
  - cbn [phase_of st_structure inFrontMatter chapters appendices].
    split; [done|]. left. intros E.
    apply (f_equal length) in E. rewrite length_on_last in E.
    by destruct (chapters (st_structure s)).
  - rewrite (structure_eta (st_structure s)) at 5.
    by apply all_content_push_chapter.
Qed.

(** One block that opens nothing goes to one section, or to none in the
    [Limbo] phase. *)
Lemma step_keeps ph prev el s :
  phase_of ph s -> opens_section el = false ->
  phase_of ph (step prev el s)
  /\ all_content (st_structure (step prev el s))
     ≡ₚ all_content (st_structure s)
          ++ match ph with Limbo => [] | _ => [item_of el] end.
Proof.
  intros Hp Ho. rewrite step_other by done. cbn zeta.
  destruct ph; cbn [phase_of] in Hp.
  - destruct Hp as (Hf & Ec & Ea). rewrite Hf.
    cbn [phase_of st_structure inFrontMatter chapters appendices].
    split; [done|].
    rewrite (structure_eta (st_structure s)) at 2. apply all_content_push_front.
  - destruct Hp as (Hf & Ec & Ea). rewrite Hf, Ec, Ea. split; [done|].
    by rewrite app_nil_r.
  - destruct Hp as (Hf & Hne). rewrite Hf.
    destruct (appendices (st_structure s)) as [|a aps] eqn:Ea,
      (chapters (st_structure s)) as [|c cs] eqn:Ec;
      [by destruct Hne| | |];
      try destruct (match prev with Some _ => _ | None => _ end);
      rewrite <- ?Ea, <- ?Ec;
      first [ apply keep_in_appendix; [done|by rewrite Ea]
            | apply keep_in_chapter; [done|by rewrite Ec] ].
Qed.

Lemma each_kept ph prev els s :
  phase_of ph s ->
  all_content (st_structure (each prev els s))
  ≡ₚ all_content (st_structure s) ++ map item_of (kept ph els).
Proof.
  revert ph prev s. induction els as [|el els IH]; intros ph prev s Hp.
  { cbn. by rewrite app_nil_r. }
  cbn [each kept]. destruct (selected el); [|by apply IH].
  destruct (opens_section el) eqn:Ho.
  - destruct (step_opens ph prev el s Hp Ho) as [Hp' E].
    rewrite (IH _ _ _ Hp'), E. done.
  - destruct (step_keeps ph prev el s Hp Ho) as [Hp' E].
    destruct ph; rewrite (IH _ _ _ Hp'), E; cbn [map];
      rewrite <- ?app_assoc; done.
Qed.

(** Every selected block that opens nothing ends in exactly one section
    (front matter, a chapter or an appendix), those read between a book
    heading that ends the front matter and the first chapter or appendix
    heading apart, which end in none: the items of the sections are, up to
    order, the items of [kept Front body]. *)
Theorem partition_keeps_exactly (body : list block) :
  all_content (extractDocumentStructure body) ≡ₚ map item_of (kept Front body).
Proof.
  unfold extractDocumentStructure.
  apply (each_kept Front None body (PState (Structure [] [] [] []) None true)).
  done.
Qed.

(* ------------------------------------------------------------------ *)
(** ** What a pattern can consume and capture *)

Lemma consumed_refl q st : consumed q 0 st st.
Proof. exists []. cbn. split; [done|]. split; [lia|done]. Qed.

Lemma forallb_weaken {A : Type} (q q' : A -> bool) (l : list A) :
  (forall c, q c = true -> q' c = true) -> forallb q l = true -> forallb q' l = true.
Proof.
  intros H. induction l as [|x l IH]; [done|]. cbn.
  rewrite !andb_true_iff. intros [? ?]. split; auto.
Qed.

Lemma consumed_weaken q q' n n' st st' :
  (forall c, q c = true -> q' c = true) -> n' <= n ->
  consumed q n st st' -> consumed q' n' st st'.
Proof.
  intros Hq Hn (c & E & Ep & Hc & Hl). exists c.
  split; [done|]. split; [done|]. split; [by eapply forallb_weaken|lia].
Qed.

Lemma consumed_trans q n1 n2 st st' st'' :
  consumed q n1 st st' -> consumed q n2 st' st'' -> consumed q (n1 + n2) st st''.
Proof.
  intros (c & E & Ep & Hc & Hl) (c' & E' & Ep' & Hc' & Hl'). exists (c ++ c').
  rewrite <- app_assoc, <- E', length_app, forallb_app, Hc, Hc'.
  split; [done|]. split; [lia|]. split; [done|lia].
Qed.

Lemma star_loop_consumed step q n :
  (forall st st', In st' (step st) -> consumed q 0 st st') ->
  forall st st', In st' (Rx.star_loop step n st) -> consumed q 0 st st'.
Proof.
  intros H. induction n as [|n IH]; intros st st' Hin; cbn [Rx.star_loop Rx.lazy_loop] in Hin.
  - destruct Hin as [<-|[]]. apply consumed_refl.
  - apply in_app_iff in Hin as [Hin|[<-|[]]]; [|apply consumed_refl].
    apply in_flat_map in Hin as (st1 & H1 & Hin).
    destruct (length (Rx.rest st1) <? length (Rx.rest st)); [|done].
    apply (consumed_trans q 0 0 st st1 st'); auto.
Qed.

Lemma lazy_loop_consumed step q n :
  (forall st st', In st' (step st) -> consumed q 0 st st') ->
  forall st st', In st' (Rx.lazy_loop step n st) -> consumed q 0 st st'.
Proof.
  intros H. induction n as [|n IH]; intros st st' Hin; cbn [Rx.star_loop Rx.lazy_loop] in Hin.
  - destruct Hin as [<-|[]]. apply consumed_refl.
  - destruct Hin as [<-|Hin]; [apply consumed_refl|].
    apply in_flat_map in Hin as (st1 & H1 & Hin).
    destruct (length (Rx.rest st1) <? length (Rx.rest st)); [|done].
    apply (consumed_trans q 0 0 st st1 st'); auto.
Qed.

(** A match consumes a prefix of the subject, made of code units of the
    alphabet of the pattern, and no shorter than [min_len]. *)
Lemma run_consumes r :
  ref_free r = true ->
  forall st st', In st' (Rx.run r st) -> consumed (alphabet r) (min_len r) st st'.
Proof.
  induction r as [|p|a IHa b IHb|a IHa b IHb|a IHa|a IHa|i a IHa|i| |];
    intros Hr st st' Hin; cbn [ref_free] in Hr; cbn [Rx.run] in Hin.
  - destruct Hin as [<-|[]]. apply consumed_refl.
  - destruct (Rx.rest st) as [|c t] eqn:E; [done|].
    destruct (p c) eqn:Ep; [|done]. destruct Hin as [<-|[]].
    exists [c]. cbn. rewrite Ep. split; [done|]. split; [lia|]. split; [done|lia].
  - apply andb_true_iff in Hr as [Ha Hb].
    apply in_flat_map in Hin as (st1 & H1 & H2). cbn [alphabet min_len].
    apply (consumed_trans _ _ _ st st1 st').
    + eapply consumed_weaken; [| |apply IHa; eauto]; [|lia].
      intros c ->. done.
    + eapply consumed_weaken; [| |apply IHb; eauto]; [|lia].
      intros c ->. apply orb_true_r.
  - apply andb_true_iff in Hr as [Ha Hb]. cbn [alphabet min_len].
    apply in_app_iff in Hin as [Hin|Hin].
    + eapply consumed_weaken; [| |apply IHa; eauto]; [|lia].
      intros c ->. done.
    + eapply consumed_weaken; [| |apply IHb; eauto]; [|lia].
      intros c ->. apply orb_true_r.
  - cbn [alphabet min_len].
    eapply star_loop_consumed; [|exact Hin].
    intros s1 s2 H12. eapply consumed_weaken; [| |apply IHa; eauto]; [done|lia].
  - cbn [alphabet min_len].
    eapply lazy_loop_consumed; [|exact Hin].
    intros s1 s2 H12. eapply consumed_weaken; [| |apply IHa; eauto]; [done|lia].
  - cbn [alphabet min_len]. apply in_map_iff in Hin as (st1 & <- & H1).
    destruct (IHa Hr st st1 H1) as (c & E & Ep & Hc & Hl).
    exists c. cbn [Rx.rest Rx.pos]. done.
  - done.
  - destruct (Rx.pos st =? 0); [|done]. destruct Hin as [<-|[]].
    apply consumed_refl.
  - destruct (Rx.rest st); [|done]. destruct Hin as [<-|[]].
    apply consumed_refl.
Qed.

Lemma star_loop_sat (R : Rx.mstate -> Prop) step n :
  (forall st st', R st -> In st' (step st) -> R st') ->
  forall st st', R st -> In st' (Rx.star_loop step n st) -> R st'.
Proof.
  intros H. induction n as [|n IH]; intros st st' Hs Hin; cbn [Rx.star_loop Rx.lazy_loop] in Hin.
  - by destruct Hin as [<-|[]].
  - apply in_app_iff in Hin as [Hin|[<-|[]]]; [|done].
    apply in_flat_map in Hin as (st1 & H1 & Hin).
    destruct (length (Rx.rest st1) <? length (Rx.rest st)); [|done].
    eapply IH; [|exact Hin]. eauto.
Qed.

Lemma lazy_loop_sat (R : Rx.mstate -> Prop) step n :
  (forall st st', R st -> In st' (step st) -> R st') ->
  forall st st', R st -> In st' (Rx.lazy_loop step n st) -> R st'.
Proof.
  intros H. induction n as [|n IH]; intros st st' Hs Hin; cbn [Rx.star_loop Rx.lazy_loop] in Hin.
  - by destruct Hin as [<-|[]].
  - destruct Hin as [<-|Hin]; [done|].
    apply in_flat_map in Hin as (st1 & H1 & Hin).
    destruct (length (Rx.rest st1) <? length (Rx.rest st)); [|done].
    eapply IH; [|exact Hin]. eauto.
Qed.

(** The captures a match makes are texts its groups can consume. *)
Lemma run_caps (P : nat -> txt -> Prop) r :
  ref_free r = true -> groups_ok P r ->
  forall st st', caps_sat P (Rx.caps st) -> In st' (Rx.run r st) ->
                 caps_sat P (Rx.caps st').
Proof.
  induction r as [|p|a IHa b IHb|a IHa b IHb|a IHa|a IHa|i a IHa|i| |];
    intros Hr Hg st st' Hs Hin; cbn [ref_free groups_ok] in Hr, Hg;
    cbn [Rx.run] in Hin.
  - by destruct Hin as [<-|[]].
  - destruct (Rx.rest st) as [|c t]; [done|]. destruct (p c); [|done].
    by destruct Hin as [<-|[]].
  - apply andb_true_iff in Hr as [Ha Hb]. destruct Hg as [Ga Gb].
    apply in_flat_map in Hin as (st1 & H1 & H2). eauto.
  - apply andb_true_iff in Hr as [Ha Hb]. destruct Hg as [Ga Gb].
    apply in_app_iff in Hin as [Hin|Hin]; eauto.
  - eapply (star_loop_sat (fun s => caps_sat P (Rx.caps s))); [|exact Hs|exact Hin].
    intros s1 s2 H1 H12. eauto.
  - eapply (lazy_loop_sat (fun s => caps_sat P (Rx.caps s))); [|exact Hs|exact Hin].
    intros s1 s2 H1 H12. eauto.
  - destruct Hg as [Ga Gi]. apply in_map_iff in Hin as (st1 & <- & H1).
    cbn [Rx.caps]. intros j t [E|Hjt].
    + injection E as <- <-.
      destruct (run_consumes a Hr st st1 H1) as (c & E & Ep & Hc & Hl).
      rewrite Ep, E. replace (Rx.pos st + length c - Rx.pos st) with (length c) by lia.
      rewrite take_app_length. by apply Gi.
    + eapply (IHa Hr Ga st st1); eauto.
  - done.
  - destruct (Rx.pos st =? 0); [|done]. by destruct Hin as [<-|[]].
  - destruct (Rx.rest st); [|done]. by destruct Hin as [<-|[]].
Qed.

Lemma cap_In i t cs : Rx.cap i cs = Some t -> In (i, t) cs.
Proof.
  induction cs as [|[j u] cs IH]; [done|]. cbn.
  destruct (Nat.eqb_spec i j) as [->|]; [|auto].
  intros [= ->]. by left.
Qed.

Lemma search_from_Some_at r p s q st' :
  Rx.search_from r p s = Some (q, st') ->
  exists pre suf, s = pre ++ suf /\ q = p + length pre
                  /\ head (Rx.run r (Rx.MS q [] suf)) = Some st'.
Proof.
  revert p. induction s as [|c s IH]; intros p; cbn [Rx.search_from].
  - unfold Rx.at_pos. destruct (head _) eqn:E; [|done]. intros [= <- <-].
    exists [], []. cbn. split; [done|]. split; [lia|]. done.
  - unfold Rx.at_pos. destruct (head (Rx.run r (Rx.MS p [] (c :: s)))) eqn:E.
    + intros [= <- <-]. exists [], (c :: s). cbn. split; [done|]. split; [lia|done].
    + intros H. apply IH in H as (pre & suf & -> & -> & H).
      exists (c :: pre), suf. cbn. split; [done|]. split; [lia|done].
Qed.

(** A group reported by [match] is a text the group can consume. *)
Lemma group_sat (P : nat -> txt -> Prop) r i s t :
  ref_free r = true -> groups_ok P r ->
  Rx.group r i s = Some t -> P i t.
Proof.
  intros Hr Hg. unfold Rx.group, Rx.exec.
  destruct (Rx.search_from r 0 s) as [[q st']|] eqn:E; [|done].
  intros Hc. apply search_from_Some_at in E as (pre & suf & _ & _ & Hh).
  apply cap_In in Hc.
  eapply (run_caps P r Hr Hg (Rx.MS q [] suf) st'); [by intros ? ? []| |exact Hc].
  destruct (Rx.run r (Rx.MS q [] suf)); [done|]. injection Hh as ->. by left.
Qed.

(* ------------------------------------------------------------------ *)
(** ** converter.js: the identifiers of chapters and appendices *)

Lemma appendix_char_spec c :
  flat_map (fun x => if negb (is_word x || chr_eq x "-") then [] else [x])
    (if is_space (lower c) || chr_eq (lower c) "," then str "-" else [lower c])
  = appendix_char c.
Proof. destruct c as [[] [] [] [] [] [] [] []]; vm_compute; reflexivity. Qed.

Lemma appendix_char_safe c : forallb is_id_char (appendix_char c) = true.
Proof. destruct c as [[] [] [] [] [] [] [] []]; vm_compute; reflexivity. Qed.

Lemma appendixId_flat_map text : appendixId text = flat_map appendix_char text.
Proof.
  unfold appendixId, Rx.erase_all. rewrite !replace_all_chr.
  unfold toLowerCase. rewrite flat_map_flat_map.
  induction text as [|c text IH]; [done|].
  cbn [map flat_map]. by rewrite IH, appendix_char_spec.
Qed.

Lemma forallb_flat_map {A B : Type} (q : B -> bool) (f : A -> list B) l :
  (forall x, forallb q (f x) = true) -> forallb q (flat_map f l) = true.
Proof.
  intros H. induction l as [|x l IH]; [done|].
  cbn [flat_map]. by rewrite forallb_app, H, IH.
Qed.

(** [appendixId] reads the title one code unit at a time: white space and
    commas become hyphens, letters are lowered, digits, underscores and
    hyphens are kept, everything else is dropped; the identifier holds only
    lower-case letters, digits, underscores and hyphens. *)
Theorem appendixId_is_safe (text : txt) :
  appendixId text = flat_map appendix_char text
  /\ forallb is_id_char (appendixId text) = true.
Proof.
  split; [apply appendixId_flat_map|].
  rewrite appendixId_flat_map. apply forallb_flat_map, appendix_char_safe.
Qed.

Lemma chapter_token_accepts st :
  Rx.run (Rx.Grp 1 CHAPTER_TOKEN_RX) st <> []
  <-> exists c t, Rx.rest st = c :: t /\ is_word c = true.
Proof.
  rewrite run_grp, nonempty_map. unfold CHAPTER_TOKEN_RX.
  rewrite <- (run_plus_chr_nonempty is_word st). unfold Rx.Word. split.
  - rewrite run_seq. intros H E. by rewrite E in H.
  - intros H. apply run_seq_nonempty; [done|]. intros st'. apply run_opt_nonempty.
Qed.

Lemma CHAPTER_NUM_RX_test s :
  Rx.test CHAPTER_NUM_RX s = true <-> holds_chapter is_word s.
Proof.
  apply (chapter_pattern_test (Rx.Grp 1 CHAPTER_TOKEN_RX) is_word).
  - apply chapter_token_accepts.
  - apply is_word_no_space.
Qed.

(** The pattern that reads the chapter token is found in every heading the
    chapter test accepts, and in no other: the [else] branch that computes
    [chapterNum] without it is never taken for a chapter heading. *)
Theorem chapter_token_pattern_always_found (text : txt) :
  Rx.test CHAPTER_NUM_RX text = Rx.test CHAPTER_RX text.
Proof.
  pose proof (CHAPTER_NUM_RX_test text) as H1.
  pose proof (CHAPTER_RX_test text) as H2.
  destruct (Rx.test CHAPTER_NUM_RX text), (Rx.test CHAPTER_RX text); try done.
  - symmetry. apply H2, H1. done.
  - apply H1, H2. done.
Qed.

Lemma in_run_grp i a st st' :
  In st' (Rx.run (Rx.Grp i a) st) -> exists t cs, Rx.caps st' = (i, t) :: cs.
Proof.
  rewrite run_grp. intros H. apply in_map_iff in H as (st1 & <- & _).
  cbn [Rx.caps]. eauto.
Qed.

Lemma token_alphabet c :
  alphabet CHAPTER_TOKEN_RX c = true -> is_word c || chr_eq c "-" = true.
Proof. destruct c as [[] [] [] [] [] [] [] []]; vm_compute; done. Qed.

(** The token read from a chapter heading. *)
Lemma chapterNum_of_token text :
  Rx.test CHAPTER_RX text = true ->
  chapterNum_of text <> []
  /\ forallb (fun c => is_word c || chr_eq c "-") (chapterNum_of text) = true.
Proof.
  intros H. apply CHAPTER_RX_test, CHAPTER_NUM_RX_test in H.
  unfold chapterNum_of. rewrite H.
  assert (Hg : exists tok, Rx.group CHAPTER_NUM_RX 1 text = Some tok).
  { unfold Rx.test in H. unfold Rx.group.
    destruct (Rx.exec CHAPTER_NUM_RX text) as [[q st']|] eqn:E; [|done].
    apply search_from_Some_at in E as (pre & suf & _ & _ & Hh).
    assert (Hin : In st' (Rx.run CHAPTER_NUM_RX (Rx.MS q [] suf))).
    { destruct (Rx.run CHAPTER_NUM_RX (Rx.MS q [] suf)); [done|].
      injection Hh as ->. by left. }
    unfold CHAPTER_NUM_RX in Hin. cbn [Rx.seqs] in Hin.
    rewrite run_seq in Hin. apply in_flat_map in Hin as (s1 & _ & Hin).
    rewrite run_seq in Hin. apply in_flat_map in Hin as (s2 & _ & Hin).
    apply in_run_grp in Hin as (t & cs & ->). exists t. cbn [Rx.cap].
    by rewrite Nat.eqb_refl. }
  destruct Hg as [tok Hg]. rewrite Hg.
  apply (group_sat
           (fun _ c => forallb (alphabet CHAPTER_TOKEN_RX) c = true
                       /\ 1 <= length c)) in Hg as [Ha Hl].
  - split; [by destruct tok; [cbn in Hl; lia|]|].
    eapply forallb_weaken; [|exact Ha]. apply token_alphabet.
  - reflexivity.
  - cbn. repeat split; auto; intros c Hc Hlen; split; auto; lia.
Qed.

Lemma test_plus_chr_none q s :
  forallb (fun c => negb (q c)) s = true -> Rx.test (Rx.Plus (Rx.Chr q)) s = false.
Proof.
  intros H. unfold Rx.test, Rx.exec.
  enough (E : forall p, Rx.search_from (Rx.Plus (Rx.Chr q)) p s = None) by by rewrite E.
  induction s as [|c s IH]; intros p; cbn [Rx.search_from]; unfold Rx.at_pos;
    rewrite run_plus_chr; [done|].
  cbn [forallb] in H. apply andb_true_iff in H as [Hc Hs].
  apply negb_true_iff in Hc. rewrite Hc. cbn [head]. by apply IH.
Qed.

Lemma lower_token_char c :
  is_word c || chr_eq c "-" = true ->
  is_id_char (lower c) = true /\ is_space (lower c) = false.
Proof. destruct c as [[] [] [] [] [] [] [] []]; intros H; done. Qed.

Lemma chapterId_of_token tok :
  forallb (fun c => is_word c || chr_eq c "-") tok = true ->
  chapterId_of tok = str "chapter-" ++ toLowerCase tok
  /\ forallb is_id_char (chapterId_of tok) = true.
Proof.
  intros H. unfold chapterId_of.
  assert (Hs : forallb (fun c => negb (is_space c)) (toLowerCase tok) = true
               /\ forallb is_id_char (toLowerCase tok) = true).
  { induction tok as [|c tok IH]; [done|]. cbn [forallb] in H.
    apply andb_true_iff in H as [Hc Ht]. destruct (IH Ht) as [I1 I2].
    destruct (lower_token_char c Hc) as [L1 L2].
    cbn [toLowerCase map forallb]. fold (toLowerCase tok).
    by rewrite L1, L2, I1, I2. }
  destruct Hs as [Hs Hi].
  rewrite (test_false_replace_all (Rx.Plus Rx.Space)) by by apply test_plus_chr_none.
  split; [done|]. by rewrite forallb_app, Hi.
Qed.

(** The identifiers of the structure hold identifier characters only. *)
Lemma structure_id_chars (body : list block) :
  Forall (fun c => forallb is_id_char (ch_id c) = true)
         (chapters (extractDocumentStructure body))
  /\ Forall (fun a => forallb is_id_char (ap_id a) = true)
            (appendices (extractDocumentStructure body)).
Proof.
  unfold extractDocumentStructure.
  destruct (each_headings None body (PState (Structure [] [] [] []) None true))
    as [Hc Ha].
  cbn [st_structure chapters appendices map app] in Hc, Ha.
  split; apply List.Forall_forall.
  - intros c Hin. apply (in_map chapter_heading) in Hin. rewrite Hc in Hin.
    apply in_map_iff in Hin as (el & E & Hel). apply filter_In in Hel as [_ Ho].
    unfold opens_chapter in Ho. apply andb_true_iff in Ho as [_ Ho].
    destruct (chapterNum_of_token _ Ho) as [_ Hw].
    destruct (chapterId_of_token _ Hw) as [_ Hsafe].
    assert (E2 : ch_id c = chapterId_of (chapterNum_of (trim (b_text el))))
      by (apply (f_equal ch_id) in E; done).
    by rewrite E2.
  - intros a Hin. apply (in_map appendix_heading) in Hin. rewrite Ha in Hin.
    apply in_map_iff in Hin as (el & E & _).
    assert (E2 : ap_id a = str "appendix-" ++ appendixId (trim (b_text el)))
      by (apply (f_equal ap_id) in E; done).
    rewrite E2, forallb_app, appendixId_flat_map.
    rewrite (forallb_flat_map is_id_char appendix_char) by apply appendix_char_safe.
    done.
Qed.

(** Every chapter of the structure has a non-empty token made of word
    characters and hyphens, and the identifier [chapter-] followed by the
    token in lower case; every appendix has the identifier [appendix-]
    followed by [appendixId] of its title.  Both identifiers, which name
    the page files, hold only lower-case letters, digits, underscores and
    hyphens. *)
Theorem section_ids_are_safe (body : list block) :
  Forall (fun c =>
            numericId c <> []
            /\ forallb (fun x => is_word x || chr_eq x "-") (numericId c) = true
            /\ ch_id c = str "chapter-" ++ toLowerCase (numericId c)
            /\ forallb is_id_char (ch_id c) = true)
         (chapters (extractDocumentStructure body))
  /\ Forall (fun a =>
               ap_id a = str "appendix-" ++ appendixId (ap_title a)
               /\ forallb is_id_char (ap_id a) = true)
            (appendices (extractDocumentStructure body)).
Proof.
  destruct (structure_id_chars body) as [Sc Sa].
  rewrite List.Forall_forall in Sc, Sa.
  unfold extractDocumentStructure in *.
  destruct (each_headings None body (PState (Structure [] [] [] []) None true))
    as [Hc Ha].
  cbn [st_structure chapters appendices map app] in Hc, Ha.
  split; apply List.Forall_forall.
  - intros c Hin. pose proof (Sc c Hin) as Hsafe.
    apply (in_map chapter_heading) in Hin. rewrite Hc in Hin.
    apply in_map_iff in Hin as (el & E & Hel). apply filter_In in Hel as [_ Ho].
    unfold opens_chapter in Ho. apply andb_true_iff in Ho as [_ Ho].
    destruct (chapterNum_of_token _ Ho) as [Hne Hw].
    destruct (chapterId_of_token _ Hw) as [Hid _].
    assert (E1 : numericId c = chapterNum_of (trim (b_text el)))
      by (apply (f_equal numericId) in E; done).
    assert (E2 : ch_id c = chapterId_of (chapterNum_of (trim (b_text el))))
      by (apply (f_equal ch_id) in E; done).
    rewrite E1. rewrite E2 in Hsafe |- *. done.
  - intros a Hin. pose proof (Sa a Hin) as Hsafe.
    apply (in_map appendix_heading) in Hin. rewrite Ha in Hin.
    apply in_map_iff in Hin as (el & E & _).
    assert (E1 : ap_title a = trim (b_text el))
      by (apply (f_equal ap_title) in E; done).
    assert (E2 : ap_id a = str "appendix-" ++ appendixId (trim (b_text el)))
      by (apply (f_equal ap_id) in E; done).
    rewrite E1. split; [done|]. done.
Qed.

(* ------------------------------------------------------------------ *)
(** ** part_000: the keys of the footnote map *)

Lemma digits_groups_ok (c : txt) :
  forallb (alphabet (Rx.Plus Rx.Digit)) c = true ->
  min_len (Rx.Plus Rx.Digit) <= length c -> numeral c.
Proof.
  intros Ha Hl. split; [by destruct c; [cbn in Hl; lia|]|].
  eapply forallb_weaken; [|exact Ha].
  intros x. cbn. by rewrite orb_diag.
Qed.

Ltac groups_digits :=
  repeat match goal with
         | |- _ /\ _ => split
         | |- True => exact I
         | |- groups_ok _ (Rx.Plus _) => exact (conj I I)
         | |- groups_ok _ (Rx.Opt _) => cbn [Rx.Opt groups_ok]
         | |- groups_ok _ (Rx.Lit _) => by vm_compute
         | |- forall c, _ -> _ -> numeral c => apply digits_groups_ok
         end.

Lemma group_ID_NUM i s t : Rx.group ID_NUM_RX i s = Some t -> numeral t.
Proof.
  apply (group_sat (fun _ => numeral)); [reflexivity|].
  split; [done|]. apply digits_groups_ok.
Qed.

Lemma group_LEAD_NUM i s t : Rx.group LEAD_NUM_RX i s = Some t -> numeral t.
Proof.
  apply (group_sat (fun _ => numeral)); [reflexivity|].
  unfold LEAD_NUM_RX. cbn [Rx.seqs groups_ok].
  groups_digits.
Qed.

Lemma group_REF_NUM i s t : Rx.group REF_NUM_RX i s = Some t -> numeral t.
Proof.
  apply (group_sat (fun _ => numeral)); [reflexivity|].
  unfold REF_NUM_RX. cbn [Rx.seqs groups_ok].
  groups_digits.
Qed.

Lemma or_else_sat (P : txt -> Prop) a b n :
  (forall t, a = Some t -> P t) -> (forall t, b = Some t -> P t) ->
  or_else a b = Some n -> P n.
Proof.
  intros Ha Hb. unfold or_else, truthy.
  destruct a as [[|c t]|]; [apply Hb| |apply Hb].
  intros [= <-]. by apply Ha.
Qed.

Lemma truthy_Some o n : truthy o = Some n -> o = Some n.
Proof. unfold truthy. destruct o as [[|c t]|]; [done| |done]. by intros [= <-]. Qed.

Lemma child_entry_key el n t : child_entry el = Some (n, t) -> numeral n.
Proof.
  unfold child_entry.
  destruct (or_else _ _) as [num|] eqn:E; [|done].
  destruct (trim (Rx.replace_first _ _ _)); [done|]. intros [= <- _].
  eapply (or_else_sat numeral); [| |exact E]; intros u.
  - apply group_ID_NUM.
  - apply group_LEAD_NUM.
Qed.

Lemma footnote_entry_key el n t : footnote_entry el = Some (n, t) -> numeral n.
Proof.
  unfold footnote_entry.
  set (num1 := match attr_id el with [] => None | _ :: _ => _ end).
  assert (H1 : forall u, num1 = Some u -> numeral u).
  { subst num1. intros u. destruct (attr_id el); [done|]. apply group_ID_NUM. }
  set (num2 := match truthy num1 with Some x => Some x | None => _ end).
  assert (H2 : forall u, num2 = Some u -> numeral u).
  { subst num2. intros u. destruct (truthy num1) eqn:E.
    - intros [= <-]. apply truthy_Some in E. auto.
    - apply group_LEAD_NUM. }
  set (num3 := match truthy num2 with Some x => Some x | None => _ end).
  assert (H3 : forall u, num3 = Some u -> numeral u).
  { subst num3. intros u. destruct (truthy num2) eqn:E.
    - intros [= <-]. apply truthy_Some in E. auto.
    - apply or_else_sat; intros v; apply group_REF_NUM. }
  destruct (truthy num3) as [num|] eqn:E; [|done].
  destruct (trim (text el)); [done|].
  destruct (trim (Rx.replace_first _ _ _)); [done|]. intros [= <- _].
  apply truthy_Some in E. auto.
Qed.

(** [/^\d+$/] accepts numerals only. *)
Lemma test_ALL_DIGITS s : Rx.test ALL_DIGITS_RX s = true -> numeral s.
Proof.
  unfold Rx.test, Rx.exec.
  destruct (Rx.search_from ALL_DIGITS_RX 0 s) as [[q st']|] eqn:E; [|done].
  intros _. apply search_from_Some_at in E as (pre & suf & -> & -> & Hh).
  assert (Hin : In st' (Rx.run ALL_DIGITS_RX (Rx.MS (0 + length pre) [] suf))).
  { destruct (Rx.run ALL_DIGITS_RX _); [done|]. injection Hh as ->. by left. }
  unfold ALL_DIGITS_RX in Hin. cbn [Rx.seqs] in Hin.
  rewrite run_seq in Hin. apply in_flat_map in Hin as (s1 & Hb & Hin).
  cbn [Rx.run Rx.pos] in Hb.
  destruct (0 + length pre =? 0) eqn:Ep; [|done]. destruct Hb as [<-|[]].
  apply Nat.eqb_eq in Ep. destruct pre; [|cbn in Ep; lia]. cbn [app].
  rewrite run_seq in Hin. apply in_flat_map in Hin as (s2 & Hd & He).
  apply (run_consumes (Rx.Plus Rx.Digit)) in Hd as (c & Hr & _ & Hc & Hl);
    [|reflexivity].
  cbn [Rx.run] in He. destruct (Rx.rest s2) eqn:E2; [|done].
  cbn [Rx.rest] in Hr. rewrite app_nil_r in Hr. subst suf.
  by apply digits_groups_ok.
Qed.

Lemma supsub_entry_key elp n t : supsub_entry elp = Some (n, t) -> numeral n.
Proof.
  unfold supsub_entry.
  destruct (Rx.test ALL_DIGITS_RX (trim (text elp.1))) eqn:E; [|done].
  destruct (Rx.group _ _ _); [|done]. intros [= <- _].
  by apply test_ALL_DIGITS.
Qed.

Lemma last_for_In n v l : last_for n l = Some v -> In (n, v) l.
Proof.
  induction l as [|[k u] l IH]; [done|]. cbn [last_for].
  destruct (last_for n l) eqn:E.
  - intros [= <-]. right. by apply IH.
  - destruct (decide (k = n)) as [->|]; [|done]. intros [= <-]. by left.
Qed.

Lemma In_omap {A B : Type} (f : A -> option B) l y :
  In y (omap f l) -> exists x, In x l /\ f x = Some y.
Proof.
  induction l as [|x l IH]; [done|]. cbn [omap list_omap].
  destruct (f x) eqn:E.
  - intros [<-|H]; [exists x; split; [by left|done]|].
    destruct (IH H) as (x' & ? & ?). exists x'. split; [by right|done].
  - intros H. destruct (IH H) as (x' & ? & ?). exists x'. split; [by right|done].
Qed.

(** Every key of the footnote map of the pipeline is a numeral, a non-empty
    text of digits, whichever of the three passes wrote it: a key can
    always be written as a marker, and no other text is ever a key. *)
Theorem footnote_keys_are_numerals (rawDoc : list node) :
  Forall (fun kv => numeral kv.1) (map_to_list (footMap_of rawDoc)).
Proof.
  apply Forall_forall. intros [n t] H. apply elem_of_map_to_list in H.
  cbn [fst]. unfold footMap_of in H.
  destruct (parseAndCleanFootnotes rawDoc) as [cleaned ex] eqn:Ep.
  rewrite Map_of_entries_lookup, last_for_app, !last_for_map_to_list in H.
  assert (Hex : ex = (parseAndCleanFootnotes rawDoc).2) by by rewrite Ep.
  assert (H' : extractFootnotes cleaned !! n = Some t \/ ex !! n = Some t)
    by (destruct (extractFootnotes cleaned !! n); [left|right]; done).
  destruct H' as [H'|H'].
  - rewrite extractFootnotes_lookup in H'. apply last_for_In in H'.
    apply in_app_iff in H' as [H'|H'];
      apply In_omap in H' as (x & _ & Hx).
    + by eapply footnote_entry_key.
    + by eapply supsub_entry_key.
  - rewrite Hex, container_lookup in H'. apply last_for_In in H'.
    apply In_omap in H' as (x & _ & Hx). by eapply child_entry_key.
Qed.

(* ------------------------------------------------------------------ *)
(** ** part_000: sections and their identifiers *)

Lemma plus_chr_capture q st st' :
  In st' (Rx.run (Rx.Plus (Rx.Chr q)) st) ->
  take (Rx.pos st' - Rx.pos st) (Rx.rest st) <> []
  /\ forallb q (take (Rx.pos st' - Rx.pos st) (Rx.rest st)) = true.
Proof.
  intros H. apply (run_consumes (Rx.Plus (Rx.Chr q))) in H; [|reflexivity].
  destruct H as (c & E & Ep & Hc & Hl). rewrite Ep, E.
  replace (Rx.pos st + length c - Rx.pos st) with (length c) by lia.
  rewrite take_app_length. split; [destruct c; [cbn in Hl; lia|done]|].
  eapply forallb_weaken; [|exact Hc]. intros x. cbn. by rewrite orb_diag.
Qed.

(** The token [/chapter\s+(\d+|[a-z]+)/i] reports. *)
Lemma chapter_match_group title :
  Rx.exec CHAPTER_MATCH_RX title <> None ->
  exists tok, Rx.group CHAPTER_MATCH_RX 1 title = Some tok /\ chapter_token tok.
Proof.
  unfold Rx.group, Rx.exec.
  destruct (Rx.search_from CHAPTER_MATCH_RX 0 title) as [[q st']|] eqn:E; [|done].
  intros _. apply search_from_Some_at in E as (pre & suf & _ & _ & Hh).
  assert (Hin : In st' (Rx.run CHAPTER_MATCH_RX (Rx.MS q [] suf))).
  { destruct (Rx.run CHAPTER_MATCH_RX _); [done|]. injection Hh as ->. by left. }
  unfold CHAPTER_MATCH_RX in Hin. cbn [Rx.seqs] in Hin.
  rewrite run_seq in Hin. apply in_flat_map in Hin as (s1 & _ & Hin).
  rewrite run_seq in Hin. apply in_flat_map in Hin as (s2 & _ & Hin).
  rewrite run_grp in Hin. apply in_map_iff in Hin as (s3 & <- & Hin).
  cbn [Rx.caps Rx.cap]. rewrite Nat.eqb_refl. eexists. split; [reflexivity|].
  rewrite run_alt in Hin. apply in_app_iff in Hin as [Hin|Hin];
    apply plus_chr_capture in Hin as [Hne Hq]; split; auto.
Qed.

Lemma classify_title_token title :
  match classify_title title with
  | (true, Some num) => chapter_token num
  | (false, None) => True
  | _ => False
  end.
Proof.
  rewrite classify_title_spec.
  destruct (Rx.exec CHAPTER_MATCH_RX title) eqn:E.
  - destruct (chapter_match_group title) as (tok & -> & Ht); [by rewrite E|done].
  - destruct (starts_with_digit title) eqn:Ed; [|done].
    destruct title as [|c t]; [done|]. cbn in Ed. split.
    + cbn [take_while]. by rewrite Ed.
    + left. clear. induction (c :: t) as [|x l IH]; [done|].
      cbn [take_while]. destruct (is_digit x) eqn:Ex; [|done].
      cbn [forallb]. by rewrite Ex, IH.
Qed.

Lemma sections_from_classified k hs s :
  In s (sections_from k hs) ->
  (isChapter s, chapterNum s) = classify_title (sec_title s).
Proof.
  revert k. induction hs as [|[h after] hs IH]; intros k; [done|].
  cbn [sections_from].
  destruct (classify_title (trim (text h))) as [b n] eqn:E.
  intros [<-|H]; [by cbn; rewrite E|eauto].
Qed.

Lemma parseChapters_classified doc s :
  In s (parseChapters doc) ->
  (isChapter s, chapterNum s) = classify_title (sec_title s)
  \/ (headings doc = [] /\ isChapter s = false /\ chapterNum s = None
      /\ sec_title s = str "Full Document").
Proof.
  unfold parseChapters.
  destruct (sections_from 0 (headings doc)) as [|s0 l] eqn:E.
  - intros [<-|[]]. right. destruct (headings doc) as [|[h a] hs]; [done|].
    cbn in E. by destruct (classify_title _).
  - rewrite <- E. intros H. left. by eapply sections_from_classified.
Qed.

(** In every section [parseChapters] returns, [isChapter] holds exactly when
    [chapterNum] is set, and then [chapterNum] is a non-empty token of
    digits only or of letters only. *)
Theorem chapter_flag_matches_token (doc : list node) :
  Forall (fun s =>
            match isChapter s, chapterNum s with
            | true, Some num => chapter_token num
            | false, None => True
            | _, _ => False
            end)
         (parseChapters doc).
Proof.
  apply List.Forall_forall. intros s Hin.
  destruct (parseChapters_classified doc s Hin) as [E|(_ & -> & -> & _)]; [|done].
  pose proof (classify_title_token (sec_title s)) as H. rewrite <- E in H.
  exact H.
Qed.

Lemma string_of_uint_digits d :
  forallb is_digit (str (NilEmpty.string_of_uint d)) = true.
Proof. induction d; cbn; auto. Qed.

Lemma nat_to_txt_digits n : forallb is_digit (nat_to_txt n) = true.
Proof. apply string_of_uint_digits. Qed.

Lemma str_inj a b : str a = str b -> a = b.
Proof.
  intros H. apply (f_equal string_of_list_ascii) in H.
  unfold str in H. by rewrite !string_of_list_ascii_of_string in H.
Qed.

Lemma nat_to_txt_inj i j : nat_to_txt i = nat_to_txt j -> i = j.
Proof.
  intros H. apply str_inj in H. apply Unsigned.to_uint_inj.
  assert (E : Some (Nat.to_uint i) = Some (Nat.to_uint j))
    by (rewrite <- !NilEmpty.usu; by rewrite H).
  by injection E.
Qed.

Lemma digit_page_char c : is_digit c = true -> is_page_char c = true.
Proof. unfold is_page_char. intros ->. by rewrite !orb_true_r. Qed.

Lemma alpha_page_char c : is_alpha c = true -> is_page_char c = true.
Proof. unfold is_page_char, is_alpha. by intros ->. Qed.

Lemma chapter_token_page num :
  chapter_token num -> forallb is_page_char num = true.
Proof.
  intros [_ [H|H]]; (eapply forallb_weaken; [|exact H]);
    [apply digit_page_char|apply alpha_page_char].
Qed.

(** The identifier of a section without a chapter token. *)
Lemma generateId_unnumbered s i :
  truthy (chapterNum s) = None ->
  (no_keyword (sec_title s) = false
   /\ In (generateId s i)
        [str "preface"; str "prologue"; str "epilogue"; str "acknowledgments";
         str "dedication"; str "toc"])
  \/ (no_keyword (sec_title s) = true
      /\ generateId s i
         = if i =? 0 then str "front-matter" else str "section-" ++ nat_to_txt i).
Proof.
  intros H. unfold generateId, no_keyword. rewrite H.
  destruct (includes (str "preface") _); [left; split; [done|cbn; tauto]|].
  destruct (includes (str "prologue") _); [left; split; [done|cbn; tauto]|].
  destruct (includes (str "epilogue") _); [left; split; [done|cbn; tauto]|].
  destruct (includes (str "acknowledgment") _); [left; split; [done|cbn; tauto]|].
  destruct (includes (str "dedication") _); [left; split; [done|cbn; tauto]|].
  destruct (includes (str "contents") _); [left; split; [done|cbn; tauto]|].
  right. done.
Qed.

(** Whatever the index, the identifier of a section of [parseChapters] is
    not empty, is not [index] (the page of a section never takes the place
    of [index.html]) and holds only letters, digits and hyphens. *)
Theorem page_ids_are_safe (doc : list node) :
  Forall (fun s => forall i,
            generateId s i <> []
            /\ generateId s i <> str "index"
            /\ forallb is_page_char (generateId s i) = true)
         (parseChapters doc).
Proof.
  apply List.Forall_forall. intros s Hin i.
  assert (Ht : match chapterNum s with
               | Some num => chapter_token num
               | None => True
               end).
  { destruct (parseChapters_classified doc s Hin) as [E|(_ & _ & -> & _)]; [|done].
    pose proof (classify_title_token (sec_title s)) as H. rewrite <- E in H.
    destruct (isChapter s), (chapterNum s); done. }
  destruct (chapterNum s) as [num|] eqn:En.
  - assert (Hg : generateId s i = str "chapter-" ++ num).
    { unfold generateId. rewrite En. destruct Ht as [Hne _]. by destruct num. }
    rewrite Hg. split; [done|]. split; [done|].
    rewrite forallb_app. by rewrite (chapter_token_page num Ht).
  - destruct (generateId_unnumbered s i) as [[_ Hk]|[_ ->]]; [by rewrite En| |].
    + cbn [In] in Hk.
      destruct Hk as [<-|[<-|[<-|[<-|[<-|[<-|[]]]]]]]; done.
    + destruct (i =? 0); [done|]. split; [done|]. split; [done|].
      rewrite forallb_app.
      rewrite (forallb_weaken _ _ _ digit_page_char (nat_to_txt_digits i)). done.
Qed.

(** Two sections without a chapter token and without one of the words
    [generateId] looks for get different identifiers at different indices:
    their pages are different files. *)
Theorem unnamed_sections_get_distinct_ids (s1 s2 : section) (i j : nat) :
  chapterNum s1 = None -> chapterNum s2 = None ->
  no_keyword (sec_title s1) = true -> no_keyword (sec_title s2) = true ->
  i <> j -> generateId s1 i <> generateId s2 j.
Proof.
  intros E1 E2 K1 K2 Hij.
  destruct (generateId_unnumbered s1 i) as [[K _]|[_ ->]];
    [by rewrite E1|congruence|].
  destruct (generateId_unnumbered s2 j) as [[K _]|[_ ->]];
    [by rewrite E2|congruence|].
  destruct (Nat.eqb_spec i 0) as [->|Hi], (Nat.eqb_spec j 0) as [->|Hj];
    [done|done|done|].
  intros E. apply app_inv_head in E. by apply nat_to_txt_inj in E.
Qed.

Lemma unnamed_sections_get_distinct_ids_witness :
  (chapterNum (Section_ (str "Maps") false None (TextN []) [] 1) = None
   /\ chapterNum (Section_ (str "Notes") false None (TextN []) [] 2) = None
   /\ no_keyword (str "Maps") = true /\ no_keyword (str "Notes") = true
   /\ 1 <> 2)
  /\ generateId (Section_ (str "Maps") false None (TextN []) [] 1) 1
     <> generateId (Section_ (str "Notes") false None (TextN []) [] 2) 2.
Proof.
  assert (H1 : no_keyword (str "Maps") = true) by reflexivity.
  assert (H2 : no_keyword (str "Notes") = true) by reflexivity.
  assert (H3 : 1 <> 2) by lia.
  split; [done|].
  exact (unnamed_sections_get_distinct_ids
           (Section_ (str "Maps") false None (TextN []) [] 1)
           (Section_ (str "Notes") false None (TextN []) [] 2) 1 2
           eq_refl eq_refl H1 H2 H3).
Defined.

Lemma sections_from_map k hs :
  map sec_index (sections_from k hs) = seq k (length hs)
  /\ map sec_title (sections_from k hs) = map (fun h => trim (text h.1)) hs
  /\ map sec_content (sections_from k hs) = map (fun h => collect_content h.2) hs
  /\ map sec_heading (sections_from k hs) = map fst hs.
Proof.
  revert k. induction hs as [|[h after] hs IH]; intros k; [done|].
  cbn [sections_from]. destruct (classify_title (trim (text h))) as [b n].
  destruct (IH (S k)) as (I1 & I2 & I3 & I4).
  cbn [map length seq sec_index sec_title sec_content sec_heading fst snd].
  by rewrite I1, I2, I3, I4.
Qed.

Lemma collect_content_shape after :
  Forall (fun n => is_elem n = true /\ is_h1h2 n = false) (collect_content after).
Proof.
  induction after as [|n after IH]; [constructor|].
  cbn [collect_content]. destruct (is_elem n) eqn:E1; [|done].
  destruct (is_h1h2 n) eqn:E2; [constructor|]. by constructor.
Qed.

Lemma collect_content_up_to after :
  collect_content after = up_to_heading (List.filter is_elem after).
Proof.
  induction after as [|n after IH]; [done|].
  cbn [collect_content List.filter]. destruct (is_elem n); [|done].
  cbn [up_to_heading]. destruct (is_h1h2 n); [done|]. by rewrite IH.
Qed.

(** [parseChapters] never returns an empty array.  With headings it returns
    one section per [h1] or [h2], in document order, indexed 0, 1, 2, ...,
    titled by the trimmed text of the heading.  The content of a section is
    made of the siblings that follow its heading: of these the elements
    (the text between them is left out), in order, up to the first [h1] or
    [h2] among them and no further.  Without any heading [parseChapters]
    returns the single section [Full Document] that holds the whole
    document. *)
Theorem parseChapters_sections (doc : list node) :
  parseChapters doc <> []
  /\ length (parseChapters doc) = Nat.max 1 (length (headings doc))
  /\ map sec_index (parseChapters doc) = seq 0 (length (parseChapters doc))
  /\ (headings doc <> [] ->
      map sec_title (parseChapters doc)
        = map (fun h => trim (text h.1)) (headings doc)
      /\ map sec_heading (parseChapters doc) = map fst (headings doc)
      /\ map sec_content (parseChapters doc)
         = map (fun h => up_to_heading (List.filter is_elem h.2)) (headings doc)
      /\ Forall (fun s => Forall (fun n => is_elem n = true /\ is_h1h2 n = false)
                            (sec_content s))
                (parseChapters doc))
  /\ (headings doc = [] ->
      map sec_title (parseChapters doc) = [str "Full Document"]
      /\ map isChapter (parseChapters doc) = [false]
      /\ map sec_content (parseChapters doc) = [doc]).
Proof.
  unfold parseChapters.
  destruct (sections_from_map 0 (headings doc)) as (I1 & I2 & I3 & I4).
  assert (Hl : length (sections_from 0 (headings doc)) = length (headings doc))
    by (rewrite <- (length_map sec_index), I1; apply length_seq).
  destruct (sections_from 0 (headings doc)) as [|s0 l] eqn:E.
  - destruct (headings doc) as [|h hs]; [|done].
    cbn. repeat split; done.
  - assert (Hne : sections_from 0 (headings doc) <> []) by by rewrite E.
    rewrite <- E in *. clear E.
    destruct (headings doc) as [|h hs] eqn:Eh; [done|].
    split; [done|].
    split; [rewrite Hl; cbn [length]; lia|].
    split; [by rewrite Hl|]. split; [|done]. intros _.
    split; [done|]. split; [done|]. split.
    + rewrite I3. apply map_ext. intros a. apply collect_content_up_to.
    + apply List.Forall_forall. intros s Hin.
      apply (in_map sec_content) in Hin. rewrite I3 in Hin.
      apply in_map_iff in Hin as (x & <- & _). apply collect_content_shape.
Qed.

Lemma parseChapters_sections_witness :
  (headings [Elem (str "h1") None None [TextN (str " Chapter 1 ")];
             TextN (str "loose text");
             Elem (str "p") None None [TextN (str "Kept")];
             Elem (str "h2") None None [TextN (str "Next")];
             Elem (str "p") None None [TextN (str "Later")]] <> []
   /\ headings [Elem (str "p") None None [TextN (str "Only")]] = [])
  /\ map sec_title
       (parseChapters [Elem (str "h1") None None [TextN (str " Chapter 1 ")];
                       TextN (str "loose text");
                       Elem (str "p") None None [TextN (str "Kept")];
                       Elem (str "h2") None None [TextN (str "Next")];
                       Elem (str "p") None None [TextN (str "Later")]])
     = [str "Chapter 1"; str "Next"]
  /\ map sec_content
       (parseChapters [Elem (str "h1") None None [TextN (str " Chapter 1 ")];
                       TextN (str "loose text");
                       Elem (str "p") None None [TextN (str "Kept")];
                       Elem (str "h2") None None [TextN (str "Next")];
                       Elem (str "p") None None [TextN (str "Later")]])
     = [[Elem (str "p") None None [TextN (str "Kept")]];
        [Elem (str "p") None None [TextN (str "Later")]]]
  /\ map sec_content
       (parseChapters [Elem (str "p") None None [TextN (str "Only")]])
     = [[Elem (str "p") None None [TextN (str "Only")]]].
Proof.
  assert (H1 : headings [Elem (str "h1") None None [TextN (str " Chapter 1 ")];
                         TextN (str "loose text");
                         Elem (str "p") None None [TextN (str "Kept")];
                         Elem (str "h2") None None [TextN (str "Next")];
                         Elem (str "p") None None [TextN (str "Later")]] <> [])
    by discriminate.
  assert (H2 : headings [Elem (str "p") None None [TextN (str "Only")]] = [])
    by reflexivity.
  split; [done|].
  destruct (parseChapters_sections
              [Elem (str "h1") None None [TextN (str " Chapter 1 ")];
               TextN (str "loose text");
               Elem (str "p") None None [TextN (str "Kept")];
               Elem (str "h2") None None [TextN (str "Next")];
               Elem (str "p") None None [TextN (str "Later")]])
    as (_ & _ & _ & A & _).
  destruct (A H1) as (A1 & _ & A3 & _).
  split; [refine (eq_trans A1 _); vm_compute; reflexivity|].
  split; [refine (eq_trans A3 _); vm_compute; reflexivity|].
  exact (proj2 (proj2 (proj2 (proj2 (proj2 (proj2
           (parseChapters_sections _)))) H2))).
Defined.

(* ------------------------------------------------------------------ *)
(** ** converter.js: escapeRegExp *)

Lemma scan_chr_fun q f p s :
  Rx.scan (Rx.match_at (Rx.Chr q)) f 0 p s
  = flat_map (fun c => if q c then f [] [c] else [c]) s.
Proof.
  revert p. induction s as [|c t IH]; intros p; [done|].
  cbn [Rx.scan flat_map]. rewrite match_at_chr.
  destruct (q c); by rewrite IH.
Qed.

Lemma escapeRegExp_flat_map s : escapeRegExp s = flat_map escape_unit s.
Proof. unfold escapeRegExp, Rx.replace_all. by rewrite scan_chr_fun. Qed.

Lemma backslash_special : is_regexp_special "\" = true.
Proof. reflexivity. Qed.

Lemma special_not_backslash c : is_regexp_special c = false -> chr_eq c "\" = false.
Proof.
  intros H. destruct (chr_eq c "\") eqn:E; [|done].
  apply chr_eq_true in E as ->. by rewrite backslash_special in H.
Qed.

(** [escapeRegExp] puts one backslash before each special code unit and
    changes nothing else: its result is a pattern source in which every
    special code unit is escaped, the pattern made from it matches the
    given text literally and nothing else, and a text without special code
    units is returned as it is. *)
Theorem escapeRegExp_round_trip (s : txt) :
  escapeRegExp s = flat_map escape_unit s
  /\ well_escaped (escapeRegExp s) = true
  /\ unescape (escapeRegExp s) = s
  /\ RegExp_escaped (escapeRegExp s) = Rx.seqs (map Rx.Lit1 s)
  /\ (forallb (fun c => negb (is_regexp_special c)) s = true -> escapeRegExp s = s).
Proof.
  split; [apply escapeRegExp_flat_map|].
  assert (Hw : well_escaped (flat_map escape_unit s) = true
               /\ unescape (flat_map escape_unit s) = s).
  { induction s as [|c s [IH1 IH2]]; [done|].
    cbn [flat_map]. unfold escape_unit at 1 3.
    destruct (is_regexp_special c) eqn:E.
    - cbn [app well_escaped unescape]. rewrite chr_eq_refl, E, IH1, IH2. done.
    - cbn [app well_escaped unescape].
      rewrite (special_not_backslash c E), E, IH1, IH2. done. }
  destruct Hw as [Hw Hu]. unfold RegExp_escaped.
  rewrite escapeRegExp_flat_map, Hw, Hu. repeat split.
  clear Hw Hu. intros H. induction s as [|c s IH]; [done|].
  cbn [forallb] in H. apply andb_true_iff in H as [Hc Hs].
  apply negb_true_iff in Hc. cbn [flat_map]. unfold escape_unit at 1.
  rewrite Hc. cbn [app]. f_equal. by apply IH.
Qed.

Lemma escapeRegExp_round_trip_witness :
  forallb (fun c => negb (is_regexp_special c)) (str "rId7") = true
  /\ escapeRegExp (str "rId7") = str "rId7".
Proof.
  assert (H : forallb (fun c => negb (is_regexp_special c)) (str "rId7") = true)
    by reflexivity.
  split; [done|].
  exact (proj2 (proj2 (proj2 (proj2 (escapeRegExp_round_trip (str "rId7"))))) H).
Defined.

(* ------------------------------------------------------------------ *)
(** ** converter.js: processImageReferences *)

Lemma RegExp_escaped_escape s :
  RegExp_escaped (escapeRegExp s) = Rx.seqs (map Rx.Lit1 s).
Proof.
  unfold RegExp_escaped. f_equal. f_equal. rewrite escapeRegExp_flat_map.
  induction s as [|c s IH]; [done|].
  cbn [flat_map]. unfold escape_unit at 1.
  destruct (is_regexp_special c) eqn:E; cbn [app unescape].
  - by rewrite chr_eq_refl, IH.
  - by rewrite (special_not_backslash c E), IH.
Qed.

Lemma run_lits l K st :
  Rx.run (Rx.Seq (Rx.seqs (map Rx.Lit1 l)) K) st
  = if starts_with l (Rx.rest st)
    then Rx.run K (Rx.MS (Rx.pos st + length l) (Rx.caps st)
                     (drop (length l) (Rx.rest st)))
    else [].
Proof.
  revert st. induction l as [|a l IH]; intros [p cs s].
  - rewrite run_seq.
    cbn [map Rx.seqs Rx.run flat_map starts_with length drop Rx.pos Rx.caps Rx.rest].
    by rewrite app_nil_r, Nat.add_0_r.
  - destruct l as [|b l].
    + cbn [map Rx.seqs]. rewrite run_seq. unfold Rx.Lit1.
      destruct s as [|c s]; [rewrite run_chr_nil; reflexivity|]. rewrite run_chr_cons.
      cbn [Rx.pos Rx.caps Rx.rest starts_with length].
      destruct (chr_eq a c); [|done].
      rewrite flat_map_one. cbn [andb drop]. do 2 f_equal. lia.
    + change (Rx.seqs (map Rx.Lit1 (a :: b :: l)))
        with (Rx.Seq (Rx.Lit1 a) (Rx.seqs (map Rx.Lit1 (b :: l)))).
      rewrite run_seq, run_seq, flat_map_flat_map.
      change (Rx.Lit1 a) with (Rx.Chr (chr_eq a)).
      destruct s as [|c s]; [rewrite run_chr_nil; reflexivity|]. rewrite run_chr_cons.
      cbn [Rx.pos Rx.caps Rx.rest].
      change (starts_with (a :: b :: l) (c :: s))
        with (chr_eq a c && starts_with (b :: l) s).
      destruct (chr_eq a c); [|done].
      rewrite flat_map_one. rewrite <- run_seq, IH.
      cbn [andb Rx.pos Rx.caps Rx.rest]. destruct (starts_with (b :: l) s); [|done].
      cbn [length drop]. do 2 f_equal. lia.
Qed.

Lemma match_at_lits l p s :
  Rx.match_at (Rx.seqs (map Rx.Lit1 l)) p s = lit_at l s.
Proof.
  unfold Rx.match_at, Rx.at_pos, lit_at.
  pose proof (run_lits l Rx.Eps (Rx.MS p [] s)) as H.
  rewrite run_seq in H. cbn [Rx.pos Rx.caps Rx.rest] in H.
  assert (F : forall xs, flat_map (Rx.run Rx.Eps) xs = xs).
  { induction xs as [|x xs IH]; [done|].
    change (flat_map (Rx.run Rx.Eps) (x :: xs))
      with (x :: flat_map (Rx.run Rx.Eps) xs).
    by rewrite IH. }
  rewrite F in H. rewrite H.
  destruct (starts_with l s); [|done]. cbn [Rx.run head Rx.caps Rx.pos].
  do 2 f_equal. lia.
Qed.

Lemma strip_prefix_starts_with l s :
  starts_with l s = match Rx.strip_prefix l s with Some _ => true | None => false end.
Proof.
  revert s. induction l as [|a l IH]; intros s; [done|].
  destruct s as [|c s]; [done|]. cbn [starts_with Rx.strip_prefix].
  destruct (chr_eq a c); [apply IH|done].
Qed.

Lemma strip_prefix_drop l s r :
  Rx.strip_prefix l s = Some r -> r = drop (length l) s.
Proof.
  revert s. induction l as [|a l IH]; intros s; [by intros [= ->]|].
  destruct s as [|c s]; [done|]. cbn [Rx.strip_prefix length drop].
  destruct (chr_eq a c); [apply IH|done].
Qed.

Lemma match_at_IMAGE p s : Rx.match_at IMAGE_RX p s = image_at s.
Proof.
  unfold Rx.match_at, Rx.at_pos, image_at, IMAGE_RX, Rx.Lit. cbn [Rx.seqs].
  rewrite run_lits. cbn [Rx.pos Rx.caps Rx.rest].
  rewrite strip_prefix_starts_with.
  destruct (Rx.strip_prefix (str "rId") s) as [r|] eqn:E; [|done].
  apply strip_prefix_drop in E as <-. change (length (str "rId")) with 3.
  rewrite run_grp. unfold Rx.Digit. rewrite run_plus_chr.
  cbn [Rx.pos Rx.caps Rx.rest].
  destruct r as [|c t]; [done|]. cbn [take_while].
  destruct (is_digit c) eqn:Ec; [|done].
  destruct (head_chr_star is_digit (S (p + 3)) [] t) as [l ->].
  cbn [map head Rx.pos Rx.caps Rx.rest length].
  replace (S (p + 3) + length (take_while is_digit t) - (p + 3))
    with (S (length (take_while is_digit t))) by lia.
  cbn [take]. rewrite take_take_while_id.
  do 2 f_equal. lia.
Qed.

Section ExecAll.
Variable m : txt -> option (list (nat * txt) * nat).

Hypothesis m_len' : forall u cs len, m u = Some (cs, len) -> 0 < len <= length u.

Local Abbreviation ea k s := (exec_all (fun _ => m) k 0 s).

Lemma ea_pos k p s : exec_all (fun _ => m) k p s = ea k s.
Proof using Type.
  generalize 0. revert k p.
  induction s as [|c t IH]; intros k p p'; [done|].
  cbn [exec_all]. destruct k; [|apply IH].
  destruct (m (c :: t)) as [[cs [|len]]|]; by rewrite ?(IH _ (S p) (S p')).
Qed.

Lemma ea_skip a b : ea (length a) (a ++ b) = ea 0 b.
Proof using Type.
  enough (H : forall p, exec_all (fun _ => m) (length a) p (a ++ b) = ea 0 b)
    by apply H.
  induction a as [|c a IH]; intros p.
  - apply ea_pos.
  - cbn [length app exec_all]. apply IH.
Qed.

Lemma ea_hit s cs len :
  m s = Some (cs, len) -> ea 0 s = cs :: ea 0 (drop len s).
Proof using m_len'.
  intros E. pose proof (m_len' _ _ _ E) as Hl.
  destruct s as [|c t]; [simpl in Hl; lia|].
  cbn [exec_all]. rewrite E.
  destruct len as [|k]; [lia|]. f_equal.
  rewrite (ea_pos _ 1). cbn [drop length] in *.
  rewrite <- (take_drop k t) at 1.
  replace k with (length (take k t)) at 1 by (rewrite length_take; lia).
  apply ea_skip.
Qed.

Lemma ea_none a b :
  (forall u, u <> [] -> u `suffix_of` a -> m (u ++ b) = None) ->
  ea 0 (a ++ b) = ea 0 b.
Proof using Type.
  induction a as [|c a IH]; intros H; [done|].
  cbn [app exec_all].
  change (m (c :: a ++ b)) with (m ((c :: a) ++ b)).
  rewrite (H (c :: a)) by done. rewrite (ea_pos _ 1).
  apply IH. intros u Hu Hs. apply H; [done|]. by apply suffix_cons_r.
Qed.
End ExecAll.

Lemma exec_all_ext (m1 m2 : Rx.matcher) k p s :
  (forall p' s', m1 p' s' = m2 p' s') ->
  exec_all m1 k p s = exec_all m2 k p s.
Proof.
  intros H. revert k p. induction s as [|c t IH]; intros k p; [done|].
  cbn [exec_all]. destruct k; [|apply IH]. rewrite H.
  destruct (m2 p (c :: t)) as [[cs [|len]]|]; by rewrite ?IH.
Qed.

Lemma expand_no_dollar repl matched before after :
  no_dollar repl = true -> expand repl matched before after = repl.
Proof.
  induction repl as [|c r IH]; [done|]. cbn [no_dollar forallb].
  intros H. apply andb_true_iff in H as [Hc Hr]. apply negb_true_iff in Hc.
  cbn [expand]. rewrite Hc. f_equal. by apply IH.
Qed.

Lemma scan_string_const m repl subject k p s :
  no_dollar repl = true ->
  scan_string m repl subject k p s = Rx.scan m (fun _ _ => repl) k p s.
Proof.
  intros H. revert k p. induction s as [|c t IH]; intros k p.
  - cbn. destruct k; [|done]. destruct (m p []) as [[cs len]|]; [|done].
    by apply expand_no_dollar.
  - cbn [scan_string Rx.scan]. destruct k; [|apply IH].
    destruct (m p (c :: t)) as [[cs [|len]]|]; rewrite ?IH, ?expand_no_dollar; done.
Qed.

Lemma img_html_parts file imageId :
  img_html file imageId = IMG_P ++ file ++ IMG_Q ++ imageId ++ IMG_R.
Proof. unfold img_html, IMG_P, IMG_Q, IMG_R. by rewrite <- !app_assoc. Qed.

Lemma includes_suffix sub u a :
  u `suffix_of` a -> includes sub u = true -> includes sub a = true.
Proof.
  intros [k ->]. induction k as [|c k IH]; [done|].
  intros H. cbn [app includes]. rewrite (IH H). apply orb_true_r.
Qed.

Lemma includes_head sub s : includes sub s = false -> starts_with sub s = false.
Proof. destruct s; cbn [includes]; by intros [? _]%orb_false_iff. Qed.

Lemma starts_with_app_l a b s :
  starts_with (a ++ b) s = true -> starts_with a s = true.
Proof.
  revert s. induction a as [|x a IH]; intros s; [done|].
  destruct s as [|c s]; [done|]. cbn [app starts_with].
  intros [-> H]%andb_true_iff. by rewrite (IH _ H).
Qed.

Lemma starts_with_refl a r : starts_with a (a ++ r) = true.
Proof. induction a as [|x a IH]; [done|]. cbn. by rewrite chr_eq_refl. Qed.

(** No [rId] starts inside a text that holds none, when what follows
    cannot complete one. *)
Lemma no_rId_start a u rest :
  no_rId a = true -> u <> [] -> u `suffix_of` a -> head_safe rest = true ->
  starts_with (str "rId") (u ++ rest) = false.
Proof.
  intros Ha Hu Hs Hr. unfold no_rId in Ha. apply negb_true_iff in Ha.
  assert (Hi : includes (str "rId") u = false).
  { destruct (includes (str "rId") u) eqn:E; [|done].
    by rewrite (includes_suffix _ _ _ Hs E) in Ha. }
  apply includes_head in Hi.
  destruct u as [|c1 [|c2 [|c3 u]]]; [done| | |exact Hi].
  - change (chr_eq "r" c1 && starts_with (str "Id") rest = false).
    destruct rest as [|x rest]; [apply andb_false_r|].
    change (chr_eq "r" c1 && (chr_eq "I" x && starts_with (str "d") rest) = false).
    cbn [head_safe] in Hr.
    apply andb_true_iff in Hr as [Hx _]. apply negb_true_iff in Hx.
    assert (E : chr_eq "I" x = false).
    { apply chr_eq_false. apply chr_eq_false in Hx. congruence. }
    rewrite E. apply andb_false_r.
  - change (chr_eq "r" c1 && (chr_eq "I" c2 && starts_with (str "d") rest) = false).
    destruct rest as [|x rest]; [by rewrite !andb_false_r|].
    change (chr_eq "r" c1 && (chr_eq "I" c2 && (chr_eq "d" x && true)) = false).
    cbn [head_safe] in Hr.
    apply andb_true_iff in Hr as [_ Hx]. apply negb_true_iff in Hx.
    assert (E : chr_eq "d" x = false).
    { apply chr_eq_false. apply chr_eq_false in Hx. congruence. }
    rewrite E. by rewrite !andb_false_r.
Qed.

Lemma head_safe_rId n r : head_safe (str "rId" ++ n ++ r) = true.
Proof. reflexivity. Qed.

Lemma lit_at_len l u cs len :
  l <> [] -> lit_at l u = Some (cs, len) -> 0 < len <= length u.
Proof.
  unfold lit_at. intros Hl. destruct (starts_with l u) eqn:E; [|done].
  intros [= <- <-]. apply starts_with_app in E as [r ->].
  rewrite length_app. destruct l; [done|]. cbn [length]. lia.
Qed.

Lemma image_at_len u cs len : image_at u = Some (cs, len) -> 0 < len <= length u.
Proof.
  unfold image_at. destruct (Rx.strip_prefix (str "rId") u) as [r|] eqn:E; [|done].
  pose proof (strip_prefix_drop _ _ _ E) as ->.
  destruct (take_while is_digit (drop (length (str "rId")) u)) as [|d ds] eqn:Ed;
    [done|].
  intros [= <- <-]. split; [lia|].
  assert (Hl : length (d :: ds) <= length (drop (length (str "rId")) u)).
  { rewrite <- Ed. clear. induction (drop _ u) as [|c t IH]; [done|].
    cbn [take_while]. destruct (is_digit c); cbn [length]; lia. }
  rewrite length_drop in Hl. change (length (str "rId")) with 3 in *.
  cbn [length] in Hl. assert (3 <= length u); [|lia].
  assert (Hs : starts_with (str "rId") u = true)
    by (rewrite strip_prefix_starts_with; by rewrite E).
  apply starts_with_app in Hs as [r ->]. rewrite length_app. cbn. lia.
Qed.

Lemma take_while_digits_app d rest :
  forallb is_digit d = true -> starts_with_digit rest = false ->
  take_while is_digit (d ++ rest) = d.
Proof.
  intros Hd Hr. induction d as [|c t IH]; cbn [app take_while].
  - destruct rest as [|c r]; [done|]. cbn [starts_with_digit] in Hr. cbn [take_while]. by rewrite Hr.
  - cbn [forallb] in Hd. apply andb_true_iff in Hd as [Hc Ht].
    by rewrite Hc, IH.
Qed.

Section ImageScan.
Variable n : txt.
Variable e : txt.

Local Abbreviation rid := (str "rId" ++ n).
Local Abbreviation sci s :=
  (Rx.scan (fun _ => lit_at (str "rId" ++ n)) (fun _ _ => e) 0 0 s).
Local Abbreviation eai s := (exec_all (fun _ => image_at) 0 0 s).

Lemma rid_len u cs len :
  lit_at (str "rId" ++ n) u = Some (cs, len) -> 0 < len <= length u.
Proof using Type. by apply lit_at_len. Qed.

(** The literal pattern of an identifier over a text that holds no [rId],
    followed by the identifier. *)
Lemma sci_hit x rest :
  no_rId x = true -> sci (x ++ rid ++ rest) = x ++ e ++ sci rest.
Proof using Type.
  intros Hx. rewrite (sc_none (lit_at rid)).
  - f_equal. rewrite (sc_hit (lit_at rid) _ rid_len _ [] (length rid)).
    + by rewrite drop_app_length.
    + unfold lit_at. by rewrite starts_with_refl.
  - intros u Hu Hs. unfold lit_at.
    destruct (starts_with rid (u ++ rid ++ rest)) eqn:E; [|done].
    apply starts_with_app_l in E.
    by rewrite (no_rId_start x u (rid ++ rest) Hx Hu Hs) in E.
Qed.

Lemma sci_none x : no_rId x = true -> sci x = x.
Proof using Type.
  intros Hx. rewrite <- (app_nil_r x) at 1. rewrite (sc_none (lit_at rid)).
  - by rewrite (sc_nil (lit_at rid) _ rid_len), app_nil_r.
  - intros u Hu Hs. unfold lit_at.
    destruct (starts_with rid (u ++ [])) eqn:E; [|done].
    apply starts_with_app_l in E.
    by rewrite (no_rId_start x u [] Hx Hu Hs) in E.
Qed.

Lemma image_at_start u rest :
  starts_with (str "rId") (u ++ rest) = false -> image_at (u ++ rest) = None.
Proof using Type.
  unfold image_at. rewrite strip_prefix_starts_with.
  by destruct (Rx.strip_prefix (str "rId") (u ++ rest)).
Qed.

Lemma eai_hit x rest :
  no_rId x = true -> numeral n -> starts_with_digit rest = false ->
  eai (x ++ rid ++ rest) = [(1, n)] :: eai rest.
Proof using Type.
  intros Hx [Hne Hd] Hr. rewrite (ea_none image_at).
  - rewrite (ea_hit image_at image_at_len _ [(1, n)] (length rid)).
    + by rewrite drop_app_length.
    + unfold image_at. rewrite <- app_assoc.
      cbn [app Rx.strip_prefix str list_ascii_of_string].
      rewrite !chr_eq_refl.
      rewrite (take_while_digits_app n rest Hd Hr).
      destruct n as [|c t]; [done|]. done.
  - intros u Hu Hs. apply image_at_start.
    by apply (no_rId_start x u (rid ++ rest) Hx Hu Hs).
Qed.

Lemma eai_none x : no_rId x = true -> eai x = [].
Proof using Type.
  intros Hx. rewrite <- (app_nil_r x). rewrite (ea_none image_at); [done|].
  intros u Hu Hs. apply image_at_start.
  by apply (no_rId_start x u [] Hx Hu Hs).
Qed.
End ImageScan.

Lemma last_suffix (u a : txt) : u <> [] -> u `suffix_of` a -> last u = last a.
Proof.
  intros Hu [k ->]. induction k as [|c k IH]; [done|].
  cbn [app]. rewrite IH. destruct (k ++ u) eqn:E; [|done].
  by destruct k, u.
Qed.

Lemma no_rId_start_last a u rest :
  no_rId a = true -> u <> [] -> u `suffix_of` a -> last_safe a = true ->
  starts_with (str "rId") (u ++ rest) = false.
Proof.
  intros Ha Hu Hs Hl. unfold no_rId in Ha. apply negb_true_iff in Ha.
  assert (Hi : includes (str "rId") u = false).
  { destruct (includes (str "rId") u) eqn:E; [|done].
    by rewrite (includes_suffix _ _ _ Hs E) in Ha. }
  apply includes_head in Hi. unfold last_safe in Hl.
  rewrite <- (last_suffix u a Hu Hs) in Hl.
  destruct u as [|c1 [|c2 [|c3 u]]]; [done| | |exact Hi].
  - change (chr_eq "r" c1 && starts_with (str "Id") rest = false).
    cbn [last] in Hl. apply andb_true_iff in Hl as [Hx _].
    apply negb_true_iff in Hx.
    assert (E : chr_eq "r" c1 = false).
    { apply chr_eq_false. apply chr_eq_false in Hx. congruence. }
    by rewrite E.
  - change (chr_eq "r" c1 && (chr_eq "I" c2 && starts_with (str "d") rest) = false).
    cbn [last] in Hl. apply andb_true_iff in Hl as [_ Hx].
    apply negb_true_iff in Hx.
    assert (E : chr_eq "I" c2 = false).
    { apply chr_eq_false. apply chr_eq_false in Hx. congruence. }
    rewrite E. apply andb_false_r.
Qed.

Lemma no_rId_app x y :
  no_rId x = true -> no_rId y = true ->
  (forall u, u <> [] -> u `suffix_of` x -> starts_with (str "rId") (u ++ y) = false) ->
  no_rId (x ++ y) = true.
Proof.
  intros Hx Hy H. induction x as [|c x IH]; [done|].
  unfold no_rId in *. cbn [app includes].
  change (c :: x ++ y) with ((c :: x) ++ y). rewrite (H (c :: x)) by done.
  cbn [orb]. apply IH.
  - cbn [includes] in Hx. apply negb_true_iff, orb_false_iff in Hx as [_ Hx].
    by rewrite Hx.
  - intros u Hu Hs. apply H; [done|]. by apply suffix_cons_r.
Qed.

Lemma no_rId_app_head x y :
  no_rId x = true -> no_rId y = true -> head_safe y = true -> no_rId (x ++ y) = true.
Proof.
  intros Hx Hy Hh. apply no_rId_app; [done|done|].
  intros u Hu Hs. by apply (no_rId_start x).
Qed.

Lemma no_rId_app_last x y :
  no_rId x = true -> no_rId y = true -> last_safe x = true -> no_rId (x ++ y) = true.
Proof.
  intros Hx Hy Hl. apply no_rId_app; [done|done|].
  intros u Hu Hs. by apply (no_rId_start_last x).
Qed.

Lemma processImageReferences_unfold html m :
  processImageReferences html (Some m)
  = foldl (image_step m) html (exec_all (fun _ => image_at) 0 0 html).
Proof.
  unfold processImageReferences. f_equal. apply exec_all_ext, match_at_IMAGE.
Qed.

Lemma digits_no_dollar n : forallb is_digit n = true -> no_dollar n = true.
Proof.
  apply forallb_weaken. intros c. by destruct c as [[] [] [] [] [] [] [] []].
Qed.

Lemma img_html_no_dollar file n :
  no_dollar file = true -> forallb is_digit n = true ->
  no_dollar (img_html file (str "rId" ++ n)) = true.
Proof.
  intros Hf Hn. rewrite img_html_parts.
  pose proof (digits_no_dollar n Hn) as Hn'. unfold no_dollar in *.
  rewrite !forallb_app, Hf, Hn'. reflexivity.
Qed.

(** One round of the loop for a reference that resolves. *)
Lemma image_step_hit m h n file :
  m !! (str "rId" ++ n) = Some file -> file <> [] -> no_dollar file = true ->
  forallb is_digit n = true ->
  image_step m h [(1, n)]
  = Rx.scan (fun _ => lit_at (str "rId" ++ n))
      (fun _ _ => img_html file (str "rId" ++ n)) 0 0 h.
Proof.
  intros Hm Hf Hd Hn. unfold image_step.
  change (Rx.dollar 1 [(1, n)]) with n. rewrite Hm.
  destruct file as [|c file]; [done|]. cbn [truthy].
  rewrite RegExp_escaped_escape. unfold replace_all_string.
  rewrite scan_string_const by by apply img_html_no_dollar.
  apply scan_ext. intros p s. apply match_at_lits.
Qed.

(** Nothing is changed without a map, with a map that resolves nothing (an
    empty one for instance), or in a text that holds no [rId]. *)
Theorem image_references_unchanged :
  (forall html, processImageReferences html None = html)
  /\ (forall html m, (forall k, truthy (m !! k) = None) ->
        processImageReferences html (Some m) = html)
  /\ (forall html im, no_rId html = true -> processImageReferences html im = html).
Proof.
  split; [done|]. split.
  - intros html m H. unfold processImageReferences.
    induction (exec_all _ 0 0 html) as [|cs l IH] using rev_ind; [done|].
    rewrite foldl_app. cbn [foldl]. rewrite IH. unfold image_step. by rewrite H.
  - intros html [m|] H; [|done].
    rewrite processImageReferences_unfold, (eai_none html H). done.
Qed.

Lemma image_references_unchanged_witness :
  ((forall k, truthy ((∅ : gmap txt txt) !! k) = None)
   /\ no_rId (str "<p>plain</p>") = true)
  /\ processImageReferences (str "<p>rId7</p>") (Some ∅) = str "<p>rId7</p>"
  /\ processImageReferences (str "<p>plain</p>")
       (Some {[ str "rId7" := str "image1.png" ]})
     = str "<p>plain</p>".
Proof.
  assert (H1 : forall k, truthy ((∅ : gmap txt txt) !! k) = None)
    by (intros k; by rewrite lookup_empty).
  assert (H2 : no_rId (str "<p>plain</p>") = true) by reflexivity.
  split; [done|]. split.
  - exact (proj1 (proj2 image_references_unchanged) _ _ H1).
  - exact (proj2 (proj2 image_references_unchanged) _ _ H2).
Defined.

(** A reference [rIdN] that the map resolves to a file whose name holds no
    dollar, alone in a text, is replaced by the image tag of the file. *)
Theorem image_reference_replaced (m : gmap txt txt) (n file pre post : txt) :
  numeral n -> m !! (str "rId" ++ n) = Some file ->
  file <> [] -> no_dollar file = true ->
  no_rId pre = true -> no_rId post = true -> starts_with_digit post = false ->
  processImageReferences (pre ++ (str "rId" ++ n) ++ post) (Some m)
  = pre ++ img_html file (str "rId" ++ n) ++ post.
Proof.
  intros Hn Hm Hf Hd Hpre Hpost Hdig.
  rewrite processImageReferences_unfold.
  rewrite (eai_hit n pre post Hpre Hn Hdig), (eai_none post Hpost).
  cbn [foldl]. rewrite (image_step_hit m _ n file Hm Hf Hd (proj2 Hn)).
  rewrite (sci_hit n _ pre post Hpre), (sci_none n _ post Hpost). done.
Qed.

Lemma image_reference_replaced_witness :
  (numeral (str "7")
   /\ ({[ str "rId7" := str "image1.png" ]} : gmap txt txt) !! (str "rId" ++ str "7")
      = Some (str "image1.png")
   /\ str "image1.png" <> [] /\ no_dollar (str "image1.png") = true
   /\ no_rId (str "<p>") = true /\ no_rId (str "</p>") = true
   /\ starts_with_digit (str "</p>") = false)
  /\ processImageReferences (str "<p>" ++ (str "rId" ++ str "7") ++ str "</p>")
       (Some {[ str "rId7" := str "image1.png" ]})
     = str "<p>" ++ img_html (str "image1.png") (str "rId" ++ str "7") ++ str "</p>".
Proof.
  assert (H1 : numeral (str "7")) by (split; [discriminate|reflexivity]).
  assert (H2 : ({[ str "rId7" := str "image1.png" ]} : gmap txt txt)
                 !! (str "rId" ++ str "7") = Some (str "image1.png"))
    by (vm_compute; reflexivity).
  assert (H3 : str "image1.png" <> []) by discriminate.
  assert (H4 : no_dollar (str "image1.png") = true) by reflexivity.
  assert (H5 : no_rId (str "<p>") = true) by reflexivity.
  assert (H6 : no_rId (str "</p>") = true) by reflexivity.
  assert (H7 : starts_with_digit (str "</p>") = false) by reflexivity.
  split; [tauto|].
  exact (image_reference_replaced _ (str "7") (str "image1.png") (str "<p>")
           (str "</p>") H1 H2 H3 H4 H5 H6 H7).
Defined.

Lemma starts_with_digit_app_rId B n C :
  starts_with_digit B = false ->
  starts_with_digit (B ++ (str "rId" ++ n) ++ C) = false.
Proof. by destruct B. Qed.

(** A reference that stands twice in a text is replaced twice over: the
    first round of the loop puts the image tag at both places, and the
    round for the second match replaces the identifier the tags carry in
    [data-original-id] by the tag again, so that each place holds a tag
    inside the attribute of a tag. *)
Theorem image_referenced_twice_is_nested
    (m : gmap txt txt) (n file A B C : txt) :
  numeral n -> m !! (str "rId" ++ n) = Some file ->
  file <> [] -> no_dollar file = true -> no_rId file = true ->
  no_rId A = true -> no_rId B = true -> no_rId C = true ->
  starts_with_digit B = false -> starts_with_digit C = false ->
  processImageReferences
    (A ++ (str "rId" ++ n) ++ B ++ (str "rId" ++ n) ++ C) (Some m)
  = A ++ img_html file (img_html file (str "rId" ++ n))
      ++ B ++ img_html file (img_html file (str "rId" ++ n)) ++ C
  /\ processImageReferences
       (A ++ (str "rId" ++ n) ++ B ++ (str "rId" ++ n) ++ C) (Some m)
     <> A ++ img_html file (str "rId" ++ n)
          ++ B ++ img_html file (str "rId" ++ n) ++ C.
Proof.
  intros Hn Hm Hf Hd Hfile HA HB HC HdB HdC.
  assert (E : processImageReferences
                (A ++ (str "rId" ++ n) ++ B ++ (str "rId" ++ n) ++ C) (Some m)
              = A ++ img_html file (img_html file (str "rId" ++ n))
                  ++ B ++ img_html file (img_html file (str "rId" ++ n)) ++ C).
  { rewrite processImageReferences_unfold.
    rewrite (eai_hit n A _ HA Hn (starts_with_digit_app_rId B n C HdB)).
    rewrite (eai_hit n B C HB Hn HdC), (eai_none C HC).
    cbn [foldl]. rewrite !(image_step_hit m _ n file Hm Hf Hd (proj2 Hn)).
    rewrite (sci_hit n _ A _ HA), (sci_hit n _ B C HB), (sci_none n _ C HC).
    set (e := img_html file (str "rId" ++ n)).
    rewrite (img_html_parts file e).
    assert (Ee : e = IMG_P ++ file ++ IMG_Q ++ (str "rId" ++ n) ++ IMG_R)
      by apply img_html_parts.
    assert (H1 : no_rId (A ++ IMG_P ++ file ++ IMG_Q) = true).
    { apply no_rId_app_head; [done| |reflexivity].
      apply no_rId_app_last; [reflexivity| |reflexivity].
      apply no_rId_app_head; [done|reflexivity|reflexivity]. }
    assert (H2 : no_rId (IMG_R ++ B ++ IMG_P ++ file ++ IMG_Q) = true).
    { apply no_rId_app_last; [reflexivity| |reflexivity].
      apply no_rId_app_head; [done| |reflexivity].
      apply no_rId_app_last; [reflexivity| |reflexivity].
      apply no_rId_app_head; [done|reflexivity|reflexivity]. }
    assert (H3 : no_rId (IMG_R ++ C) = true)
      by (apply no_rId_app_last; [reflexivity|done|reflexivity]).
    transitivity
      (Rx.scan (fun _ => lit_at (str "rId" ++ n)) (fun _ _ => e) 0 0
         ((A ++ IMG_P ++ file ++ IMG_Q) ++ (str "rId" ++ n)
            ++ (IMG_R ++ B ++ IMG_P ++ file ++ IMG_Q) ++ (str "rId" ++ n)
            ++ (IMG_R ++ C))).
    { f_equal. rewrite Ee. by rewrite <- !app_assoc. }
    rewrite (sci_hit n e _ _ H1), (sci_hit n e _ _ H2), (sci_none n e _ H3).
    by rewrite <- !app_assoc. }
  split; [exact E|]. rewrite E. intros H.
  apply (f_equal length) in H. rewrite !img_html_parts in H.
  rewrite !length_app in H.
  assert (HP : 0 < length IMG_P) by (vm_compute; lia). lia.
Qed.

Lemma image_referenced_twice_is_nested_witness :
  (numeral (str "7")
   /\ ({[ str "rId7" := str "image1.png" ]} : gmap txt txt) !! (str "rId" ++ str "7")
      = Some (str "image1.png")
   /\ str "image1.png" <> [] /\ no_dollar (str "image1.png") = true
   /\ no_rId (str "image1.png") = true
   /\ no_rId (str "<p>") = true /\ no_rId (str " and ") = true
   /\ no_rId (str "</p>") = true
   /\ starts_with_digit (str " and ") = false
   /\ starts_with_digit (str "</p>") = false)
  /\ processImageReferences
       (str "<p>" ++ (str "rId" ++ str "7") ++ str " and "
          ++ (str "rId" ++ str "7") ++ str "</p>")
       (Some {[ str "rId7" := str "image1.png" ]})
     = str "<p>"
         ++ img_html (str "image1.png")
              (img_html (str "image1.png") (str "rId" ++ str "7"))
         ++ str " and "
         ++ img_html (str "image1.png")
              (img_html (str "image1.png") (str "rId" ++ str "7"))
         ++ str "</p>".
Proof.
  assert (H1 : numeral (str "7")) by (split; [discriminate|reflexivity]).
  assert (H2 : ({[ str "rId7" := str "image1.png" ]} : gmap txt txt)
                 !! (str "rId" ++ str "7") = Some (str "image1.png"))
    by (vm_compute; reflexivity).
  assert (H3 : str "image1.png" <> []) by discriminate.
  assert (H4 : no_dollar (str "image1.png") = true) by reflexivity.
  assert (H5 : no_rId (str "image1.png") = true) by reflexivity.
  assert (H6 : no_rId (str "<p>") = true) by reflexivity.
  assert (H7 : no_rId (str " and ") = true) by reflexivity.
  assert (H8 : no_rId (str "</p>") = true) by reflexivity.
  assert (H9 : starts_with_digit (str " and ") = false) by reflexivity.
  assert (H10 : starts_with_digit (str "</p>") = false) by reflexivity.
  split; [tauto|].
  exact (proj1 (image_referenced_twice_is_nested _ (str "7") (str "image1.png")
                  (str "<p>") (str " and ") (str "</p>")
                  H1 H2 H3 H4 H5 H6 H7 H8 H9 H10)).
Defined.

(* ------------------------------------------------------------------ *)
(** ** part_000: image files and image paths *)

Lemma search_bol_later r p s : Rx.search_from (Rx.Seq Rx.Bol r) (S p) s = None.
Proof.
  assert (E : forall q u, Rx.at_pos (Rx.Seq Rx.Bol r) (S q) u = None) by done.
  revert p. induction s as [|c t IH]; intros p; cbn [Rx.search_from];
    by rewrite E.
Qed.

Lemma exec_bol r s :
  Rx.exec (Rx.Seq Rx.Bol r) s
  = match Rx.at_pos r 0 s with Some st' => Some (0, st') | None => None end.
Proof.
  unfold Rx.exec.
  assert (E : Rx.at_pos (Rx.Seq Rx.Bol r) 0 s = Rx.at_pos r 0 s).
  { unfold Rx.at_pos. by rewrite run_seq, run_bol_0, flat_map_one. }
  destruct s as [|c t]; cbn [Rx.search_from]; rewrite E;
    destruct (Rx.at_pos r 0 _); try done.
  apply search_bol_later.
Qed.

Lemma at_pos_lits l p s :
  Rx.at_pos (Rx.seqs (map Rx.Lit1 l)) p s
  = if starts_with l s then Some (Rx.MS (p + length l) [] (drop (length l) s))
    else None.
Proof.
  unfold Rx.at_pos.
  pose proof (run_lits l Rx.Eps (Rx.MS p [] s)) as H.
  rewrite run_seq in H. cbn [Rx.pos Rx.caps Rx.rest] in H.
  assert (F : forall xs, flat_map (Rx.run Rx.Eps) xs = xs).
  { induction xs as [|x xs IH]; [done|].
    change (flat_map (Rx.run Rx.Eps) (x :: xs))
      with (x :: flat_map (Rx.run Rx.Eps) xs).
    by rewrite IH. }
  rewrite F in H. rewrite H. by destruct (starts_with l s).
Qed.

(** The replacement of a leading [../] by [./]. *)
Lemma replace_parent_dir s :
  Rx.replace_first PARENT_DIR_RX (fun _ _ => str "./") s
  = if starts_with (str "../") s then str "./" ++ drop 3 s else s.
Proof.
  unfold Rx.replace_first, PARENT_DIR_RX, Rx.Lit. cbn [Rx.seqs].
  rewrite exec_bol, at_pos_lits.
  destruct (starts_with (str "../") s); [|done]. reflexivity.
Qed.

Lemma fix_src_spec src :
  fix_src src
  = match src with
    | Some s => if starts_with (str "../") s then Some (str "./" ++ drop 3 s) else Some s
    | None => None
    end.
Proof.
  destruct src as [[|c s]|]; [done| |done]. unfold fix_src. cbn [truthy].
  rewrite replace_parent_dir.
  destruct (starts_with (str "http") (c :: s)) eqn:E;
    [|by destruct (starts_with (str "../") (c :: s))].
  destruct (starts_with (str "../") (c :: s)) eqn:E2; [|done].
  apply starts_with_app in E2 as [r E2]. by rewrite E2 in E.
Qed.

(** The pass on image paths is idempotent, never leaves a [src] that
    begins with [../], turns a leading [../] into [./], and leaves alone a
    missing or empty [src] and one that begins with [http]. *)
Theorem fix_src_normalises (src : option txt) :
  fix_src (fix_src src) = fix_src src
  /\ (forall s, fix_src src = Some s -> starts_with (str "../") s = false)
  /\ (forall r, fix_src (Some (str "../" ++ r)) = Some (str "./" ++ r))
  /\ (forall s, starts_with (str "http") s = true -> fix_src (Some s) = Some s)
  /\ fix_src None = None /\ fix_src (Some []) = Some [].
Proof.
  assert (H2 : forall s, starts_with (str "../") (str "./" ++ s) = false) by done.
  split; [|split; [|split; [|split; [|done]]]].
  - rewrite !fix_src_spec. destruct src as [s|]; [|done].
    destruct (starts_with (str "../") s) eqn:E; [by rewrite H2|by rewrite E].
  - intros s. rewrite fix_src_spec. destruct src as [r|]; [|done].
    destruct (starts_with (str "../") r) eqn:E; intros [= <-]; done.
  - intros r. rewrite fix_src_spec. reflexivity.
  - intros s Hs. unfold fix_src. destruct s; [done|]. cbn [truthy]. by rewrite Hs.
Qed.

Lemma fix_src_normalises_witness :
  (fix_src (Some (str "../images/a.png")) = Some (str "./images/a.png")
   /\ starts_with (str "http") (str "https://example.org/a.png") = true)
  /\ starts_with (str "../") (str "./images/a.png") = false
  /\ fix_src (Some (str "https://example.org/a.png"))
     = Some (str "https://example.org/a.png").
Proof.
  assert (H1 : fix_src (Some (str "../images/a.png")) = Some (str "./images/a.png"))
    by (vm_compute; reflexivity).
  assert (H2 : starts_with (str "http") (str "https://example.org/a.png") = true)
    by reflexivity.
  split; [done|]. split.
  - exact (proj1 (proj2 (fix_src_normalises (Some (str "../images/a.png")))) _ H1).
  - exact (proj1 (proj2 (proj2 (proj2 (fix_src_normalises None)))) _ H2).
Defined.

Lemma forallb_rev_true {A : Type} (q : A -> bool) (l : list A) :
  forallb q l = true -> forallb q (rev l) = true.
Proof.
  rewrite !List.forallb_forall. intros H x Hx. apply H. by apply in_rev.
Qed.

Lemma split_on_no_sep sep cur s :
  Forall (fun part => forallb (fun c => negb (chr_eq c sep)) part = true)
         (match split_on sep cur s with [] => [] | _ :: rest => rest end).
Proof.
  revert cur. induction s as [|c t IH]; intros cur; cbn [split_on].
  - constructor.
  - destruct (chr_eq c sep) eqn:E; [|apply IH].
    clear cur. assert (G : forall cur,
      forallb (fun c => negb (chr_eq c sep)) cur = true ->
      Forall (fun part => forallb (fun c => negb (chr_eq c sep)) part = true)
             (split_on sep cur t)).
    { clear IH E. induction t as [|x t IH]; intros cur Hc; cbn [split_on].
      - constructor; [|constructor]. by apply forallb_rev_true.
      - destruct (chr_eq x sep) eqn:Ex.
        + constructor; [by apply forallb_rev_true|]. by apply IH.
        + apply IH. cbn [forallb]. by rewrite Ex, Hc. }
    by apply G.
Qed.

Lemma split_on_plain sep cur a :
  forallb (fun c => negb (chr_eq c sep)) a = true ->
  split_on sep cur a = [rev cur ++ a].
Proof.
  revert cur. induction a as [|c a IH]; intros cur H; cbn [split_on].
  - by rewrite app_nil_r.
  - cbn [forallb] in H. apply andb_true_iff in H as [Hc Ha].
    apply negb_true_iff in Hc. rewrite Hc, IH by done.
    cbn [rev]. by rewrite <- app_assoc.
Qed.

Lemma split_on_first sep cur a b :
  forallb (fun c => negb (chr_eq c sep)) a = true ->
  split_on sep cur (a ++ sep :: b) = (rev cur ++ a) :: split_on sep [] b.
Proof.
  revert cur. induction a as [|c a IH]; intros cur H; cbn [app split_on].
  - by rewrite chr_eq_refl, app_nil_r.
  - cbn [forallb] in H. apply andb_true_iff in H as [Hc Ha].
    apply negb_true_iff in Hc. rewrite Hc, IH by done.
    cbn [rev]. by rewrite <- app_assoc.
Qed.

(** The extension of an image file is never empty and holds no slash: for
    a content type [a/b] it is [b], and it is [png] when the content type
    holds no slash or nothing after it. *)
Theorem image_ext_is_a_name (contentType : txt) :
  image_ext contentType <> []
  /\ forallb (fun c => negb (chr_eq c "/")) (image_ext contentType) = true
  /\ (forall a b,
        forallb (fun c => negb (chr_eq c "/")) a = true ->
        forallb (fun c => negb (chr_eq c "/")) b = true ->
        image_ext (a ++ str "/" ++ b)
        = match b with [] => str "png" | _ :: _ => b end)
  /\ (forall a, forallb (fun c => negb (chr_eq c "/")) a = true ->
        image_ext a = str "png").
Proof.
  split; [|split; [|split]].
  - unfold image_ext.
    destruct (split_on "/" [] contentType) as [|p0 [|[|c p1] ps]];
      cbn [lookup list_lookup truthy]; done.
  - unfold image_ext.
    pose proof (split_on_no_sep "/" [] contentType) as H.
    destruct (split_on "/" [] contentType) as [|p0 [|p1 ps]] eqn:E;
      cbn [lookup list_lookup truthy]; try done.
    apply Forall_cons in H as [H _].
    destruct p1 as [|c p1]; [done|]. by cbn [truthy].
  - intros a b Ha Hb. unfold image_ext.
    change (str "/" ++ b) with ("/"%char :: b).
    rewrite split_on_first, (split_on_plain _ _ b) by done.
    cbn [lookup list_lookup rev app]. by destruct b.
  - intros a Ha. unfold image_ext. by rewrite split_on_plain.
Qed.

Lemma image_ext_is_a_name_witness :
  (forallb (fun c => negb (chr_eq c "/")) (str "image") = true
   /\ forallb (fun c => negb (chr_eq c "/")) (str "jpeg") = true)
  /\ image_ext (str "image" ++ str "/" ++ str "jpeg") = str "jpeg"
  /\ image_ext (str "image") = str "png".
Proof.
  assert (H1 : forallb (fun c => negb (chr_eq c "/")) (str "image") = true)
    by reflexivity.
  assert (H2 : forallb (fun c => negb (chr_eq c "/")) (str "jpeg") = true)
    by reflexivity.
  split; [done|]. split.
  - exact (proj1 (proj2 (proj2 (image_ext_is_a_name []))) _ _ H1 H2).
  - exact (proj2 (proj2 (proj2 (image_ext_is_a_name []))) _ H1).
Defined.

Lemma convertImages_names v cts :
  map (fun ns => image_number ns.1) (convertImages v cts)
  = map nat_to_txt (seq (S v) (length cts))
  /\ Forall (fun ns => ns.2 = str "./images/" ++ ns.1
                       /\ starts_with (str "img-") ns.1 = true)
            (convertImages v cts)
  /\ length (convertImages v cts) = length cts.
Proof.
  revert v. induction cts as [|ct cts IH]; intros v; [by repeat constructor|].
  cbn [convertImages convertImage map length seq fst snd].
  destruct (IH (S v)) as (I1 & I2 & I3). rewrite I1, I3.
  split; [|split; [|done]].
  - f_equal. unfold image_number.
    change (drop 4 (str "img-" ++ nat_to_txt (S v) ++ str "." ++ image_ext ct))
      with (nat_to_txt (S v) ++ str "." ++ image_ext ct).
    apply take_while_digits_app; [apply nat_to_txt_digits|done].
  - constructor; [|done]. by split.
Qed.

(** The images of a document get file names that differ from one another
    (no image file takes the place of another), numbered from 1 in the
    order of the document; the [src] of each is [./images/] followed by
    the name, which the pass on image paths leaves as it is. *)
Theorem image_files_are_distinct (contentTypes : list txt) :
  List.NoDup (map fst (convertImages 0 contentTypes))
  /\ map (fun ns => image_number ns.1) (convertImages 0 contentTypes)
     = map nat_to_txt (seq 1 (length contentTypes))
  /\ Forall (fun ns => ns.2 = str "./images/" ++ ns.1
                       /\ fix_src (Some ns.2) = Some ns.2)
            (convertImages 0 contentTypes).
Proof.
  destruct (convertImages_names 0 contentTypes) as (H1 & H2 & H3).
  split; [|split; [done|]].
  - apply (List.NoDup_map_inv image_number). rewrite map_map, H1.
    apply List.NoDup_map_NoDup_ForallPairs; [|apply List.seq_NoDup].
    intros i j _ _. apply nat_to_txt_inj.
  - eapply Forall_impl; [exact H2|]. intros [name src] [E _].
    cbn [fst snd] in *. split; [done|]. rewrite E, fix_src_spec. reflexivity.
Qed.

(* ------------------------------------------------------------------ *)
(** ** part_000: the UI pass *)

Lemma match_at_UI p s : Rx.match_at UI_RX p s = ui_at s.
Proof.
  unfold Rx.match_at, Rx.at_pos, ui_at, UI_RX. cbn [Rx.seqs].
  change (Rx.Lit "[") with (Rx.Chr (chr_eq "[")).
  change (Rx.Lit "]") with (Rx.Chr (chr_eq "]")).
  rewrite run_seq. destruct s as [|c r]; [by rewrite run_chr_nil|].
  rewrite run_chr_cons. destruct (chr_eq "[" c); [|done].
  rewrite flat_map_one.
  rewrite (run_grp_plus_then (fun c => negb (chr_eq c "]"))).
  2:{ intros st x t Hr Hx. apply (run_chr_reject _ st x t Hr).
      apply negb_true_iff in Hx. apply chr_eq_false. apply chr_eq_false in Hx.
      congruence. }
  fold not_rbracket.
  destruct (take_while not_rbracket r) as [|d ds] eqn:Ed; [done|].
  destruct (drop_while not_rbracket r) as [|x t] eqn:Ex; [by rewrite run_chr_nil|].
  rewrite run_chr_cons.
  pose proof (drop_while_head _ _ _ _ Ex) as Hx. unfold not_rbracket in Hx.
  apply negb_false_iff, chr_eq_true in Hx as ->. rewrite chr_eq_refl.
  cbn [head Rx.caps Rx.pos]. do 2 f_equal. lia.
Qed.

Lemma ui_at_len u cs len : ui_at u = Some (cs, len) -> 0 < len <= length u.
Proof.
  unfold ui_at. destruct u as [|c r]; [done|]. destruct (chr_eq "[" c); [|done].
  destruct (take_while not_rbracket r) as [|d ds] eqn:Ed; [done|].
  destruct (drop_while not_rbracket r) as [|x t] eqn:Ex; [done|].
  intros [= <- <-]. split; [lia|].
  pose proof (take_drop_while not_rbracket r) as E. rewrite Ed, Ex in E.
  rewrite <- E. cbn [length]. rewrite length_app. cbn [length]. lia.
Qed.

Lemma ui_at_no_lbracket u rest :
  no_lbracket u = true -> u <> [] -> ui_at (u ++ rest) = None.
Proof.
  destruct u as [|c u]; [done|]. cbn [no_lbracket forallb app ui_at].
  intros [Hc _]%andb_true_iff _. apply negb_true_iff in Hc.
  assert (E : chr_eq "[" c = false).
  { apply chr_eq_false. apply chr_eq_false in Hc. congruence. }
  by rewrite E.
Qed.

Lemma replace_UI_scan s :
  Rx.replace_all UI_RX ui_callback s = Rx.scan (fun _ => ui_at) ui_callback 0 0 s.
Proof. apply scan_ext, match_at_UI. Qed.

(** The replacement of the UI pass leaves alone a text without [[]. *)
Lemma replace_UI_none s :
  no_lbracket s = true -> Rx.replace_all UI_RX ui_callback s = s.
Proof.
  intros H. rewrite replace_UI_scan. rewrite <- (app_nil_r s) at 1.
  rewrite (sc_none ui_at).
  - rewrite (sc_nil ui_at) by apply ui_at_len. apply app_nil_r.
  - intros u Hu Hs. apply ui_at_no_lbracket; [|done].
    by apply (suffix_forallb _ _ s).
Qed.

(** [/^\d+F?$/] accepts digits with an optional [F] after them. *)
Lemma test_FOOTREF c : Rx.test FOOTREF_RX c = is_footref c.
Proof.
  unfold Rx.test, FOOTREF_RX. cbn [Rx.seqs]. rewrite exec_bol.
  unfold Rx.at_pos, is_footref.
  change (Rx.Lit "F") with (Rx.Chr (chr_eq "F")). unfold Rx.Digit.
  rewrite (run_plus_then is_digit).
  2:{ intros st x t Hr Hx. rewrite run_seq, run_opt.
      rewrite (run_chr_reject _ st x t Hr) by by apply digit_not_F.
      cbn [app flat_map Rx.run]. by rewrite Hr. }
  destruct (take_while is_digit c) as [|d ds]; [done|].
  rewrite run_seq, run_opt.
  destruct (drop_while is_digit c) as [|f [|g t]].
  - by rewrite run_chr_nil.
  - rewrite run_chr_cons. by destruct (chr_eq "F" f).
  - rewrite run_chr_cons. by destruct (chr_eq "F" f).
Qed.

Lemma flat_map_In_nonempty {A B : Type} (F : A -> list B) l x :
  In x l -> F x <> [] -> flat_map F l <> [].
Proof.
  intros Hin Hx E. induction l as [|y l IH]; [done|].
  cbn [flat_map] in E. apply app_eq_nil in E as [E1 E2].
  destruct Hin as [->|Hin]; auto.
Qed.

(** The lazy run of [.] reaches the end of a text of one line. *)
Lemma lazy_dot_reaches c n p cs rest :
  one_line c = true -> length (c ++ rest) <= n ->
  In (Rx.MS (p + length c) cs rest)
     (Rx.lazy_loop (Rx.run Rx.Dot) n (Rx.MS p cs (c ++ rest))).
Proof.
  revert n p. induction c as [|x c IH]; intros n p Hc Hn.
  - cbn [app length]. rewrite Nat.add_0_r. destruct n; left; done.
  - cbn [one_line forallb] in Hc. apply andb_true_iff in Hc as [Hx Hc].
    destruct n as [|n]; [cbn in Hn; lia|].
    cbn [Rx.lazy_loop]. right. unfold Rx.Dot at 2. cbn [app].
    rewrite run_chr_cons, Hx. cbn [flat_map Rx.rest length].
    rewrite app_nil_r.
    assert (E : (length (c ++ rest) <? S (length (c ++ rest))) = true)
      by (apply Nat.ltb_lt; lia).
    rewrite E. replace (p + S (length c)) with (S p + length c) by lia.
    apply IH; [done|]. cbn [app length] in Hn. lia.
Qed.

(** The guard of the UI pass finds a bracketed text of one line. *)
Lemma test_UI_GUARD pre c post :
  one_line c = true ->
  Rx.test UI_GUARD_RX (pre ++ str "[" ++ c ++ str "]" ++ post) = true.
Proof.
  intros Hc. unfold Rx.test, Rx.exec.
  destruct (Rx.search_from UI_GUARD_RX 0 _) eqn:E; [done|]. exfalso.
  revert E. apply search_from_some.
  exists pre, (str "[" ++ c ++ str "]" ++ post). split; [done|].
  unfold Rx.at_pos, UI_GUARD_RX. cbn [Rx.seqs].
  change (Rx.Lit "[") with (Rx.Chr (chr_eq "[")).
  change (Rx.Lit "]") with (Rx.Chr (chr_eq "]")).
  cbn [str list_ascii_of_string app]. rewrite run_seq, run_chr_cons, chr_eq_refl.
  rewrite flat_map_one, run_seq.
  intros Hh. assert (Hnil : flat_map (Rx.run (Rx.Chr (chr_eq "]")))
                    (Rx.run (Rx.StarLazy Rx.Dot)
                       (Rx.MS (S (0 + length pre)) [] (c ++ "]"%char :: post))) = [])
    by (by destruct (flat_map _ _)).
  revert Hnil.
  apply (flat_map_In_nonempty _ _
           (Rx.MS (S (0 + length pre) + length c) [] ("]"%char :: post))).
  - cbn [Rx.run Rx.rest]. by apply lazy_dot_reaches.
  - by rewrite run_chr_cons, chr_eq_refl.
Qed.

Lemma take_while_until q a x rest :
  forallb q a = true -> q x = false ->
  take_while q (a ++ x :: rest) = a /\ drop_while q (a ++ x :: rest) = x :: rest.
Proof.
  intros Ha Hx. induction a as [|c a IH]; cbn [app take_while drop_while].
  - by rewrite Hx.
  - cbn [forallb] in Ha. apply andb_true_iff in Ha as [Hc Ha].
    rewrite Hc. destruct (IH Ha) as [-> ->]. done.
Qed.

(** The UI pass on the first bracketed text of a paragraph. *)
Lemma tagUI_first_bracket pre c post :
  no_lbracket pre = true -> c <> [] -> no_rbracket c = true -> one_line c = true ->
  tagUI (pre ++ str "[" ++ c ++ str "]" ++ post)
  = pre ++ (if is_footref c then str "[" ++ c ++ str "]" else ui_span_literal)
      ++ Rx.replace_all UI_RX ui_callback post.
Proof.
  intros Hpre Hc Hr Hl. unfold tagUI.
  rewrite (test_UI_GUARD pre c post Hl).
  destruct (pre ++ str "[" ++ c ++ str "]" ++ post) eqn:E.
  { by destruct pre. }
  rewrite <- E. clear E.
  rewrite !replace_UI_scan. rewrite (sc_none ui_at).
  2:{ intros u Hu Hs. apply ui_at_no_lbracket; [|done].
      by apply (suffix_forallb _ _ pre). }
  f_equal.
  assert (Hat : ui_at (str "[" ++ c ++ str "]" ++ post)
                = Some ([(1, c)], 2 + length c)).
  { cbn [str list_ascii_of_string app ui_at]. rewrite chr_eq_refl.
    destruct (take_while_until not_rbracket c "]" post Hr eq_refl) as [-> ->].
    by destruct c. }
  rewrite (sc_hit ui_at _ ui_at_len _ _ _ Hat).
  assert (Ed : drop (2 + length c) (str "[" ++ c ++ str "]" ++ post) = post).
  { cbn [str list_ascii_of_string app Nat.add drop].
    replace (S (length c)) with (length (c ++ ["]"%char]))
      by (rewrite length_app; cbn; lia).
    change (c ++ "]"%char :: post) with (c ++ ["]"%char] ++ post).
    rewrite app_assoc. by rewrite drop_app_length. }
  assert (Et : take (2 + length c) (str "[" ++ c ++ str "]" ++ post)
               = str "[" ++ c ++ str "]").
  { cbn [str list_ascii_of_string app Nat.add take]. f_equal.
    replace (S (length c)) with (length (c ++ ["]"%char]))
      by (rewrite length_app; cbn; lia).
    change (c ++ "]"%char :: post) with (c ++ ["]"%char] ++ post).
    rewrite app_assoc. by rewrite take_app_length. }
  rewrite Ed, Et. f_equal. unfold ui_callback.
  change (Rx.dollar 1 [(1, c)]) with c. by rewrite test_FOOTREF.
Qed.

(** The UI pass finds the first bracketed text of a paragraph (not empty,
    on one line) and leaves what stands before it: digits with an optional
    [F] are kept with their brackets, any other text is replaced by the
    fixed span, whatever the text was; the replacement goes on behind the
    closing bracket.  A paragraph without [[] is left as it is. *)
Theorem ui_pass_law (pre c post : txt) :
  no_lbracket pre = true -> c <> [] -> no_rbracket c = true -> one_line c = true ->
  tagUI (pre ++ str "[" ++ c ++ str "]" ++ post)
  = pre ++ (if is_footref c then str "[" ++ c ++ str "]" else ui_span_literal)
      ++ Rx.replace_all UI_RX ui_callback post
  /\ Rx.test FOOTREF_RX c = is_footref c
  /\ tagUI pre = pre.
Proof.
  intros Hpre Hc Hr Hl. split; [by apply tagUI_first_bracket|].
  split; [apply test_FOOTREF|].
  unfold tagUI. destruct pre as [|x pre]; [done|].
  destruct (Rx.test UI_GUARD_RX (x :: pre)); [|done].
  by apply replace_UI_none.
Qed.

Lemma ui_pass_law_witness :
  (no_lbracket (str "Press ") = true /\ str "Start" <> []
   /\ no_rbracket (str "Start") = true /\ one_line (str "Start") = true)
  /\ tagUI (str "Press " ++ str "[" ++ str "Start" ++ str "]" ++ str " now")
     = str "Press " ++ ui_span_literal ++ str " now".
Proof.
  assert (H1 : no_lbracket (str "Press ") = true) by reflexivity.
  assert (H2 : str "Start" <> []) by discriminate.
  assert (H3 : no_rbracket (str "Start") = true) by reflexivity.
  assert (H4 : one_line (str "Start") = true) by reflexivity.
  split; [tauto|].
  refine (eq_trans (proj1 (ui_pass_law (str "Press ") (str "Start") (str " now")
                             H1 H2 H3 H4)) _).
  vm_compute. reflexivity.
Defined.

Lemma digits_forallb (q : ascii -> bool) n :
  (forall c, is_digit c = true -> q c = true) ->
  forallb is_digit n = true -> forallb q n = true.
Proof. intros H. by apply forallb_weaken. Qed.

(** The two passes together on a marker without translation, on the HTML
    string the first pass writes.  The payload
    [[translation missing for n]] that [processConlangInText] writes in
    the [data-tr] attribute is a bracketed text, so the UI pass that
    follows writes the fixed span in its place, between the quotes of the
    attribute.  The span brings double quotes of its own: read as HTML,
    the attribute ends at the first of them, and its value is
    [<span class=], neither the payload nor the span. *)
Theorem missing_marker_payload_is_cut
    (fm : footmap) (n pre post : txt) (withF : bool) :
  numeral n -> truthy (fm !! n) = None ->
  no_digit pre = true -> no_digit post = true ->
  no_lbracket pre = true -> no_lbracket post = true ->
  tagUI (processConlangInText (pre ++ bracket_marker n withF ++ post) fm)
  = pre ++ span_html (str "conlang missing") ui_span_literal (n ++ str "F") ++ post
  /\ payload_of (span_html (str "conlang missing") ui_span_literal (n ++ str "F"))
     = str "<span class="
  /\ payload_of (processConlangInText (bracket_marker n withF) fm)
     = str "[translation missing for " ++ n ++ str "]".
Proof.
  intros [Hne Hd] Hf Hp1 Hp2 Hb1 Hb2.
  split; [|split; [vm_compute; reflexivity|]].
  2:{ pose proof (process_marker [] n withF [] fm Hne Hd) as E.
      cbn [app] in E. rewrite app_nil_r in E. rewrite E. clear E.
      rewrite (process_no_digit [] fm eq_refl), app_nil_r. cbn [app].
      rewrite (callback_missing fm true n Hne Hf).
      unfold payload_of, span_html.
      change (after_first _ _)
        with ((str "[translation missing for " ++ n ++ str "]")
                ++ dq :: str ">" ++ (n ++ str "F") ++ str "</span>").
      apply until_quote_app. rewrite !forallb_app.
      rewrite (digits_forallb _ n) by
        (first [exact Hd | intros c Hc; by destruct c as [[] [] [] [] [] [] [] []]]).
      reflexivity. }
  rewrite process_marker, !process_no_digit by done.
  rewrite (callback_missing fm true n Hne Hf). unfold span_html.
  transitivity
    (tagUI ((pre ++ str "<span class=" ++ [dq] ++ str "conlang missing" ++ [dq]
                 ++ str " data-tr=" ++ [dq])
            ++ str "[" ++ (str "translation missing for " ++ n) ++ str "]"
            ++ ([dq] ++ str ">" ++ (n ++ str "F") ++ str "</span>" ++ post))).
  { f_equal. by rewrite <- !app_assoc. }
  rewrite tagUI_first_bracket.
  - change (is_footref (str "translation missing for " ++ n)) with false.
    cbv iota. rewrite replace_UI_none.
    + by rewrite <- !app_assoc.
    + unfold no_lbracket in *. rewrite !forallb_app, Hb2.
      rewrite (digits_forallb _ n) by
        (first [exact Hd | intros c Hc; by destruct c as [[] [] [] [] [] [] [] []]]).
      reflexivity.
  - unfold no_lbracket in *. rewrite !forallb_app, Hb1. reflexivity.
  - done.
  - unfold no_rbracket. rewrite forallb_app.
    rewrite (digits_forallb _ n) by
      (first [exact Hd | intros c Hc; by destruct c as [[] [] [] [] [] [] [] []]]).
    reflexivity.
  - unfold one_line. rewrite forallb_app.
    rewrite (digits_forallb _ n) by
      (first [exact Hd | intros c Hc; by destruct c as [[] [] [] [] [] [] [] []]]).
    reflexivity.
Qed.

Lemma missing_marker_payload_is_cut_witness :
  (numeral (str "9") /\ truthy ((∅ : footmap) !! str "9") = None
   /\ no_digit (str "Hello ") = true /\ no_digit (str "!") = true
   /\ no_lbracket (str "Hello ") = true /\ no_lbracket (str "!") = true)
  /\ tagUI (processConlangInText (str "Hello " ++ bracket_marker (str "9") true ++ str "!") ∅)
     = str "Hello "
         ++ span_html (str "conlang missing") ui_span_literal (str "9" ++ str "F")
         ++ str "!"
  /\ payload_of
       (span_html (str "conlang missing") ui_span_literal (str "9" ++ str "F"))
     = str "<span class=".
Proof.
  assert (H1 : numeral (str "9")) by (split; [discriminate|reflexivity]).
  assert (H2 : truthy ((∅ : footmap) !! str "9") = None) by reflexivity.
  assert (H3 : no_digit (str "Hello ") = true) by reflexivity.
  assert (H4 : no_digit (str "!") = true) by reflexivity.
  assert (H5 : no_lbracket (str "Hello ") = true) by reflexivity.
  assert (H6 : no_lbracket (str "!") = true) by reflexivity.
  split; [tauto|].
  destruct (missing_marker_payload_is_cut ∅ (str "9") (str "Hello ") (str "!") true
              H1 H2 H3 H4 H5 H6) as (A & B & _).
  split; [exact A | exact B].
Defined.

(* ------------------------------------------------------------------ *)
(** ** converter.js: the links between the pages *)

Lemma id_char_no_slash c : is_id_char c = true -> negb (chr_eq c "/") = true.
Proof. by destruct c as [[] [] [] [] [] [] [] []]. Qed.

Lemma file_no_slash id :
  forallb is_id_char id = true ->
  forallb (fun c => negb (chr_eq c "/")) (id ++ str ".html") = true.
Proof.
  intros H. rewrite forallb_app.
  rewrite (forallb_weaken _ _ _ id_char_no_slash H). reflexivity.
Qed.

Lemma html_not_dotdot x : txt_eqb (x ++ str ".html") (str "..") = false.
Proof.
  unfold txt_eqb. apply bool_decide_eq_false. intros E.
  apply (f_equal length) in E. rewrite length_app in E. cbn in E. lia.
Qed.

(** A link to a file of the same directory. *)
Lemma resolve_sibling d x id :
  txt_eqb d (str "..") = false -> forallb is_id_char id = true ->
  resolve [d; x] (id ++ str ".html") = [d; id ++ str ".html"].
Proof.
  intros Hd Hid. unfold resolve. cbn [removelast app].
  rewrite (split_on_plain "/" [] _ (file_no_slash id Hid)).
  cbn [rev app normalize]. by rewrite Hd, html_not_dotdot.
Qed.

(** A link to the index page from a directory. *)
Lemma resolve_index d x :
  txt_eqb d (str "..") = false ->
  resolve [d; x] (str "../index.html") = [str "index.html"].
Proof.
  intros Hd. unfold resolve. cbn [removelast app].
  change (split_on "/" [] (str "../index.html")) with [str ".."; str "index.html"].
  cbn [app normalize]. by rewrite Hd.
Qed.

(** A link from a directory to a file of another directory [e]. *)
Lemma resolve_cousin d x e id :
  txt_eqb d (str "..") = false -> txt_eqb e (str "..") = false ->
  forallb (fun c => negb (chr_eq c "/")) e = true ->
  forallb is_id_char id = true ->
  resolve [d; x] (str "../" ++ e ++ str "/" ++ id ++ str ".html")
  = [e; id ++ str ".html"].
Proof.
  intros Hd He Hs Hid. unfold resolve. cbn [removelast app].
  change (str "../" ++ e ++ str "/" ++ id ++ str ".html")
    with (str ".." ++ "/"%char :: e ++ "/"%char :: id ++ str ".html").
  rewrite (split_on_first "/" [] (str "..")) by reflexivity.
  rewrite (split_on_first "/" [] e) by done.
  rewrite (split_on_plain "/" [] _ (file_no_slash id Hid)).
  cbn [rev app normalize tail]. rewrite Hd.
  change (txt_eqb (str "..") (str "..")) with true. cbv iota.
  cbn [tail normalize]. by rewrite He, html_not_dotdot.
Qed.

(** A link from the index page into a directory. *)
Lemma resolve_from_index e id :
  txt_eqb e (str "..") = false ->
  forallb (fun c => negb (chr_eq c "/")) e = true ->
  forallb is_id_char id = true ->
  resolve [str "index.html"] (e ++ str "/" ++ id ++ str ".html")
  = [e; id ++ str ".html"].
Proof.
  intros He Hs Hid. unfold resolve. cbn [removelast app].
  change (e ++ str "/" ++ id ++ str ".html")
    with (e ++ "/"%char :: id ++ str ".html").
  rewrite (split_on_first "/" [] e) by done.
  rewrite (split_on_plain "/" [] _ (file_no_slash id Hid)).
  cbn [rev app normalize]. by rewrite He, html_not_dotdot.
Qed.

Lemma adjacent_pairs_cons {A : Type} (x : A) l :
  adjacent_pairs (x :: l)
  = match l with [] => [] | y :: _ => (x, y) :: adjacent_pairs l end.
Proof. reflexivity. Qed.

Lemma adjacent_pairs_app {A : Type} (l1 l2 : list A) :
  adjacent_pairs (l1 ++ l2)
  = adjacent_pairs l1
      ++ match last l1, head l2 with
         | Some a, Some b => [(a, b)]
         | _, _ => []
         end
      ++ adjacent_pairs l2.
Proof.
  induction l1 as [|x l1 IH]; [by destruct l2|].
  destruct l1 as [|y l1].
  - cbn [app]. rewrite adjacent_pairs_cons. by destruct l2.
  - change ((x :: y :: l1) ++ l2) with (x :: (y :: l1) ++ l2).
    rewrite adjacent_pairs_cons. cbn [app] in *.
    rewrite IH. rewrite (adjacent_pairs_cons x (y :: l1)).
    change (last (x :: y :: l1)) with (last (y :: l1)). done.
Qed.

Lemma adjacent_pairs_map {A B : Type} (f : A -> B) l :
  adjacent_pairs (map f l) = map (fun p => (f p.1, f p.2)) (adjacent_pairs l).
Proof.
  induction l as [|x l IH]; [done|]. destruct l as [|y l]; [done|].
  change (map f (x :: y :: l)) with (f x :: map f (y :: l)).
  rewrite !adjacent_pairs_cons. cbn [map] in *. by rewrite IH.
Qed.

(** Neighbours know each other. *)
Lemma with_neighbours_adjacent {A : Type} (b : option A) xs :
  Forall (fun pp : (option A * A * option A) * (option A * A * option A) =>
            pp.1.2 = Some pp.2.1.2 /\ pp.2.1.1 = Some pp.1.1.2)
         (adjacent_pairs (with_neighbours b xs)).
Proof.
  revert b. induction xs as [|x xs IH]; intros b; [constructor|].
  destruct xs as [|y xs]; [constructor|].
  change (with_neighbours b (x :: y :: xs))
    with ((b, x, Some y) :: with_neighbours (Some x) (y :: xs)).
  rewrite adjacent_pairs_cons.
  change (with_neighbours (Some x) (y :: xs))
    with ((Some x, y, head xs) :: with_neighbours (Some y) xs) at 1.
  cbv iota. constructor; [done|]. apply IH.
Qed.

Lemma with_neighbours_head {A : Type} (b : option A) xs :
  head (with_neighbours b xs)
  = match xs with [] => None | x :: r => Some (b, x, head r) end.
Proof. by destruct xs. Qed.

Lemma with_neighbours_last {A : Type} (b : option A) xs :
  match last (with_neighbours b xs), last xs with
  | Some e, Some x => e.1.2 = x /\ e.2 = None
  | None, None => True
  | _, _ => False
  end.
Proof.
  revert b. induction xs as [|x xs IH]; intros b; [done|].
  destruct xs as [|y xs]; [done|].
  change (with_neighbours b (x :: y :: xs))
    with ((b, x, Some y) :: with_neighbours (Some x) (y :: xs)).
  change (last (x :: y :: xs)) with (last (y :: xs)).
  specialize (IH (Some x)).
  destruct (with_neighbours (Some x) (y :: xs)) as [|e l] eqn:E; [done|].
  change (last ((b, x, Some y) :: e :: l)) with (last (e :: l)). exact IH.
Qed.

Lemma with_neighbours_In {A : Type} (b : option A) xs e :
  In e (with_neighbours b xs) ->
  In e.1.2 xs
  /\ (e.1.1 = b \/ exists y, e.1.1 = Some y /\ In y xs)
  /\ (e.2 = None \/ exists y, e.2 = Some y /\ In y xs).
Proof.
  revert b. induction xs as [|x xs IH]; intros b; [done|].
  cbn [with_neighbours]. intros [<-|H].
  - cbn [fst snd]. split; [by left|]. split; [by left|].
    destruct xs as [|y xs]; [by left|]. right. exists y. split; [done|].
    right. by left.
  - destruct (IH _ H) as (H1 & H2 & H3). split; [by right|]. split.
    + right. destruct H2 as [->|(y & -> & Hy)].
      * exists x. split; [done|by left].
      * exists y. split; [done|by right].
    + destruct H3 as [->|(y & -> & Hy)]; [by left|].
      right. exists y. split; [done|by right].
Qed.

Lemma adjacent_pairs_In {A : Type} (l : list A) pp :
  In pp (adjacent_pairs l) -> In pp.1 l /\ In pp.2 l.
Proof.
  induction l as [|x l IH]; [done|]. destruct l as [|y l]; [done|].
  rewrite adjacent_pairs_cons. intros [<-|H].
  - split; [by left|right; by left].
  - destruct (IH H). split; by right.
Qed.

Section Pages.
Variable title : txt.
Variable body : list block.
Variable imageMap : option (gmap txt txt).

Local Abbreviation s := (extractDocumentStructure body).
Local Abbreviation fch :=
  (fun e : option chapter * chapter * option chapter =>
     let '(p, ch, n) := e in generateChapterHtml title ch s imageMap p n).
Local Abbreviation fap :=
  (fun e : option appendix * appendix * option appendix =>
     let '(p, ap, n) := e in generateAppendixHtml title ap s imageMap p n).
Local Abbreviation no_next :=
  (fun pg : page => pg_path pg = [str "index.html"] /\ chapters s = []).

Lemma chapter_id_chars c : In c (chapters s) -> forallb is_id_char (ch_id c) = true.
Proof using Type.
  destruct (structure_id_chars body) as [H _].
  rewrite List.Forall_forall in H. apply H.
Qed.

Lemma appendix_id_chars a : In a (appendices s) -> forallb is_id_char (ap_id a) = true.
Proof using Type.
  destruct (structure_id_chars body) as [_ H].
  rewrite List.Forall_forall in H. apply H.
Qed.

Lemma chapter_pages_chained :
  Forall (chained no_next)
    (adjacent_pairs (map fch (with_neighbours None (chapters s)))).
Proof using Type.
  rewrite adjacent_pairs_map. apply List.Forall_map.
  pose proof (with_neighbours_adjacent None (chapters s)) as H.
  rewrite List.Forall_forall in H |- *.
  intros [[[p1 x1] n1] [[p2 x2] n2]] Hin.
  destruct (H _ Hin) as [Hn Hp]. cbn [fst snd] in Hn, Hp. subst n1 p2.
  apply adjacent_pairs_In in Hin as [H1 H2]. cbn [fst snd] in H1, H2.
  apply with_neighbours_In in H1 as (H1 & _). apply with_neighbours_In in H2 as (H2 & _).
  cbn [fst snd] in H1, H2.
  split.
  - eexists. split; [reflexivity|]. cbn [fst snd pg_path generateChapterHtml].
    apply resolve_sibling; [done|by apply chapter_id_chars].
  - cbn [fst snd nav_next pg_path generateChapterHtml].
    apply resolve_sibling; [done|by apply chapter_id_chars].
Qed.

Lemma appendix_pages_chained :
  Forall (chained no_next)
    (adjacent_pairs (map fap (with_neighbours None (appendices s)))).
Proof using Type.
  rewrite adjacent_pairs_map. apply List.Forall_map.
  pose proof (with_neighbours_adjacent None (appendices s)) as H.
  rewrite List.Forall_forall in H |- *.
  intros [[[p1 x1] n1] [[p2 x2] n2]] Hin.
  destruct (H _ Hin) as [Hn Hp]. cbn [fst snd] in Hn, Hp. subst n1 p2.
  apply adjacent_pairs_In in Hin as [H1 H2]. cbn [fst snd] in H1, H2.
  apply with_neighbours_In in H1 as (H1 & _). apply with_neighbours_In in H2 as (H2 & _).
  cbn [fst snd] in H1, H2.
  split.
  - eexists. split; [reflexivity|]. cbn [fst snd pg_path generateAppendixHtml].
    apply resolve_sibling; [done|by apply appendix_id_chars].
  - cbn [fst snd nav_next pg_path generateAppendixHtml].
    apply resolve_sibling; [done|by apply appendix_id_chars].
Qed.
Lemma last_map {A B : Type} (f : A -> B) l : last (map f l) = option_map f (last l).
Proof.
  induction l as [|x l IH]; [done|]. destruct l as [|y l]; [done|].
  change (last (map f (x :: y :: l))) with (last (map f (y :: l))).
  by rewrite IH.
Qed.

Lemma head_map {A B : Type} (f : A -> B) l : head (map f l) = option_map f (head l).
Proof. by destruct l. Qed.

Lemma last_In {A : Type} (l : list A) x : last l = Some x -> In x l.
Proof.
  induction l as [|y l IH]; [done|]. destruct l as [|z l].
  - intros [= ->]. by left.
  - intros H. right. by apply IH.
Qed.

(** The last chapter page and the first appendix page. *)
Lemma boundary_chained :
  Forall (chained no_next)
    match last (map fch (with_neighbours None (chapters s))),
          head (map fap (with_neighbours None (appendices s))) with
    | Some a, Some b => [(a, b)]
    | _, _ => []
    end.
Proof using Type.
  rewrite last_map, head_map, with_neighbours_head.
  pose proof (with_neighbours_last None (chapters s)) as Hl.
  destruct (last (with_neighbours None (chapters s))) as [[[p c] n]|] eqn:El;
    [|constructor].
  destruct (last (chapters s)) as [cl|] eqn:Ec; [|done].
  destruct Hl as [Hc Hn]. cbn [fst snd] in Hc, Hn. subst c n.
  destruct (appendices s) as [|a0 aps] eqn:Ea; [constructor|].
  cbn [option_map]. constructor; [|constructor].
  assert (Hin : In cl (chapters s)) by by apply last_In.
  assert (Ha0 : In a0 (appendices s)) by (rewrite Ea; by left).
  split.
  - eexists. split; [reflexivity|].
    cbn [fst snd pg_path generateAppendixHtml generateChapterHtml].
    rewrite Ec.
    apply (resolve_cousin (str "appendices") _ (str "chapters"));
      [done|done|done|by apply chapter_id_chars].
  - cbn [fst snd nav_next pg_path generateChapterHtml]. rewrite Ea.
    apply (resolve_cousin (str "chapters") _ (str "appendices"));
      [done|done|done|by apply appendix_id_chars].
Qed.

(** The index page and the page written after it. *)
Lemma index_chained :
  Forall (chained no_next)
    match map fch (with_neighbours None (chapters s))
            ++ map fap (with_neighbours None (appendices s)) with
    | [] => []
    | y :: _ => [(generateFrontMatterHtml title s, y)]
    end.
Proof using Type.
  destruct (chapters s) as [|c0 cs] eqn:Ec.
  - destruct (appendices s) as [|a0 aps] eqn:Ea; [constructor|].
    cbn [with_neighbours map app]. constructor; [|constructor].
    split.
    + eexists. split; [reflexivity|].
      cbn [fst snd pg_path generateAppendixHtml generateFrontMatterHtml].
      rewrite Ec. cbn [last]. by apply resolve_index.
    + cbn [fst snd nav_next generateFrontMatterHtml]. rewrite Ec. done.
  - cbn [with_neighbours map app]. constructor; [|constructor].
    assert (Hc0 : In c0 (chapters s)) by (rewrite Ec; by left).
    split.
    + eexists. split; [reflexivity|].
      cbn [fst snd pg_path generateChapterHtml generateFrontMatterHtml].
      by apply resolve_index.
    + cbn [fst snd nav_next pg_path generateFrontMatterHtml generateChapterHtml].
      rewrite Ec.
      apply (resolve_from_index (str "chapters"));
        [done|done|by apply chapter_id_chars].
Qed.

Lemma last_app_cases {A : Type} (l1 l2 : list A) :
  last (l1 ++ l2) = match last l2 with Some x => Some x | None => last l1 end.
Proof.
  induction l1 as [|x l1 IH]; [cbn [app]; by destruct (last l2)|].
  destruct l1 as [|y l1].
  - cbn [app]. destruct l2 as [|z l2]; [done|].
    change (last (x :: z :: l2)) with (last (z :: l2)).
    destruct (last (z :: l2)) eqn:E; [done|].
    exfalso. clear -E. revert z E. induction l2 as [|w l2 IH]; intros z E; [done|].
    by apply (IH w).
  - change (last ((x :: y :: l1) ++ l2)) with (last ((y :: l1) ++ l2)).
    by rewrite IH.
Qed.

(** The last page. *)
Lemma last_page_leads_home pg :
  last (generateHtmlFiles title s imageMap) = Some pg ->
  pg_path pg <> [str "index.html"] ->
  leads_to pg (nav_next pg) (generateFrontMatterHtml title s).
Proof using Type.
  unfold generateHtmlFiles. intros Hl Hp.
  assert (E : last (map fch (with_neighbours None (chapters s))
                    ++ map fap (with_neighbours None (appendices s))) = Some pg).
  { destruct (map _ (with_neighbours None (chapters s)) ++ _) as [|y l] eqn:E.
    - cbn in Hl. injection Hl as <-. done.
    - exact Hl. }
  clear Hl. rewrite last_app_cases, !last_map in E.
  pose proof (with_neighbours_last None (appendices s)) as Ha.
  pose proof (with_neighbours_last None (chapters s)) as Hc.
  destruct (last (with_neighbours None (appendices s))) as [[[p a] n]|] eqn:Ea.
  - destruct (last (appendices s)); [|done]. destruct Ha as [_ Hn].
    cbn [fst snd] in Hn. subst n. cbn [option_map] in E. injection E as <-.
    eexists. split; [reflexivity|]. by apply resolve_index.
  - cbn [option_map] in E.
    destruct (last (appendices s)) eqn:Ela; [done|].
    assert (Eap : appendices s = []).
    { destruct (appendices s) as [|a0 aps]; [done|]. exfalso. clear -Ela.
      revert a0 Ela. induction aps as [|w aps IH]; intros a0 E; [done|].
      by apply (IH w). }
    destruct (last (with_neighbours None (chapters s))) as [[[p c] n]|] eqn:Ec;
      [|done].
    destruct (last (chapters s)); [|done]. destruct Hc as [_ Hn].
    cbn [fst snd] in Hn. subst n. cbn [option_map] in E. injection E as <-.
    eexists. split.
    + cbn [nav_next generateChapterHtml]. rewrite Eap. reflexivity.
    + by apply resolve_index.
Qed.

(** The pages of a document are chained in the order they are written
    (index, chapters, appendices): the [prev] link of every page but the
    first leads to the file of the page before it, and the [next] link of
    every page but the last leads to the file of the page after it, the
    index page of a document without chapters apart, which has no [next]
    link even when appendices follow.  The index page has no [prev] link,
    the [next] link of the last page leads back to the index page, and
    there is one page for the index, one for each chapter and one for each
    appendix. *)
Theorem pages_are_chained :
  Forall (chained no_next)
         (adjacent_pairs (generateHtmlFiles title s imageMap))
  /\ nav_prev (generateFrontMatterHtml title s) = None
  /\ length (generateHtmlFiles title s imageMap)
     = 1 + length (chapters s) + length (appendices s)
  /\ (forall pg, last (generateHtmlFiles title s imageMap) = Some pg ->
        pg_path pg <> [str "index.html"] ->
        leads_to pg (nav_next pg) (generateFrontMatterHtml title s)).
Proof using Type.
  split; [|split; [done|split]]; [| |apply last_page_leads_home].
  - unfold generateHtmlFiles. rewrite adjacent_pairs_cons.
    pose proof index_chained as Hi.
    destruct (map _ (with_neighbours None (chapters s)) ++ _) as [|y l] eqn:E;
      [constructor|].
    apply List.Forall_cons; [by inversion Hi|].
    rewrite <- E. rewrite adjacent_pairs_app.
    rewrite !Forall_app. split; [apply chapter_pages_chained|].
    split; [apply boundary_chained|apply appendix_pages_chained].
  - unfold generateHtmlFiles. cbn [length].
    rewrite length_app, !length_map.
    assert (L : forall (A : Type) (b : option A) xs,
                  length (with_neighbours b xs) = length xs).
    { intros A b xs. revert b. induction xs as [|x xs IH]; intros b; [done|].
      cbn [with_neighbours length]. by rewrite IH. }
    by rewrite !L.
Qed.
End Pages.

Lemma pages_are_chained_witness :
  (last (generateHtmlFiles (str "Novel")
           (extractDocumentStructure
              [Block H1 (str "Chapter One") (str "Chapter One");
               Block P (str "Text") (str "Text")]) None)
   = Some (generateChapterHtml (str "Novel")
             (Chapter (str "Chapter One") (str "chapter-one") (str "One") []
                [Item (str "p") (str "Text")])
             (extractDocumentStructure
                [Block H1 (str "Chapter One") (str "Chapter One");
                 Block P (str "Text") (str "Text")]) None None None)
   /\ [str "chapters"; str "chapter-one.html"] <> [str "index.html"])
  /\ leads_to
       (generateChapterHtml (str "Novel")
          (Chapter (str "Chapter One") (str "chapter-one") (str "One") []
             [Item (str "p") (str "Text")])
          (extractDocumentStructure
             [Block H1 (str "Chapter One") (str "Chapter One");
              Block P (str "Text") (str "Text")]) None None None)
       (Some (str "../index.html"))
       (generateFrontMatterHtml (str "Novel")
          (extractDocumentStructure
             [Block H1 (str "Chapter One") (str "Chapter One");
              Block P (str "Text") (str "Text")])).
Proof.
  assert (Ha : last (generateHtmlFiles (str "Novel")
                 (extractDocumentStructure
                    [Block H1 (str "Chapter One") (str "Chapter One");
                     Block P (str "Text") (str "Text")]) None)
               = Some (generateChapterHtml (str "Novel")
                   (Chapter (str "Chapter One") (str "chapter-one") (str "One") []
                      [Item (str "p") (str "Text")])
                   (extractDocumentStructure
                      [Block H1 (str "Chapter One") (str "Chapter One");
                       Block P (str "Text") (str "Text")]) None None None))
    by (vm_compute; reflexivity).
  assert (Hb : [str "chapters"; str "chapter-one.html"] <> [str "index.html"])
    by discriminate.
  split; [done|].
  exact (proj2 (proj2 (proj2 (pages_are_chained (str "Novel")
           [Block H1 (str "Chapter One") (str "Chapter One");
            Block P (str "Text") (str "Text")] None))) _ Ha Hb).
Defined.
(* ------------------------------------------------------------------ *)
(** ** converter.js: cleanupArtifacts on a text node *)

Lemma artifact_at_nondigit c t : is_digit c = false -> artifact_at (c :: t) = None.
Proof. intros H. unfold artifact_at. cbn [take_while]. by rewrite H. Qed.

Lemma cleaned_no_digit t : no_digit t = true -> cleaned t = t.
Proof.
  intros Hd. rewrite cleaned_scan. rewrite <- (app_nil_r t) at 1.
  rewrite (sc_none artifact_at).
  - rewrite (sc_nil artifact_at) by apply artifact_at_len. apply app_nil_r.
  - intros u Hu Hs. rewrite app_nil_r.
    destruct (suffix_head_forallb _ u t Hu Hs Hd) as (c & r & -> & Hc).
    apply artifact_at_nondigit. by apply negb_true_iff in Hc.
Qed.

(** [cleanupArtifacts] touches a text node only when its text holds an
    artifact, never when it holds no digit.  The markup it then hands to
    [replaceWith] is what is left of the text when some of its code units
    are taken out, in the same order, and is shorter than the text.  (This
    markup is parsed as HTML: what the document holds afterwards is the
    parse of the string, not the string.) *)
Theorem cleanupArtifacts_markup (t : txt) :
  (forall markup, cleanupArtifacts t = ReplaceWith markup ->
     markup = cleaned t /\ markup `sublist_of` t
     /\ length markup < length t /\ Rx.test ARTIFACT_RX t = true)
  /\ (Rx.test ARTIFACT_RX t = false -> cleanupArtifacts t = Untouched)
  /\ (no_digit t = true -> cleanupArtifacts t = Untouched).
Proof.
  destruct (cleanupArtifacts_cases t) as [[-> E]|[-> E]].
  - split; [done|]. split; done.
  - split; [|split].
    + intros markup [= <-]. split; [done|]. split; [apply cleaned_sublist|].
      split; [by apply cleaned_shrinks|].
      destruct (Rx.test ARTIFACT_RX t) eqn:Et; [done|].
      by apply cleaned_fixed in Et.
    + intros Et. by apply cleaned_fixed in Et.
    + intros Hd. by apply cleaned_no_digit in Hd.
Qed.

Lemma artifact_at_with_reference n m post :
  numeral n -> numeral m ->
  artifact_at (n ++ str "F" ++ n ++ str "F" ++ str "[" ++ m ++ str "]" ++ post)
  = Some ([(1, n)], length n + 1 + length n + 1 + (1 + length m + 1)).
Proof.
  intros [Hn Hdn] [Hm Hdm]. unfold artifact_at.
  cbn [str list_ascii_of_string app].
  rewrite take_while_all, drop_while_all by done.
  destruct n as [|n0 n]; [done|].
  rewrite chr_eq_refl, strip_prefix_app. rewrite chr_eq_refl.
  unfold bracket_num_len. rewrite chr_eq_refl.
  rewrite take_while_all, drop_while_all by done.
  destruct m as [|m0 m]; [done|]. by rewrite chr_eq_refl.
Qed.

Lemma cleaned_with_reference n m pre post :
  numeral n -> numeral m -> no_digit pre = true ->
  cleaned (pre ++ n ++ str "F" ++ n ++ str "F" ++ str "[" ++ m ++ str "]" ++ post)
  = pre ++ cleaned post.
Proof.
  intros Hn Hm Hp. rewrite !cleaned_scan.
  rewrite (sc_none artifact_at).
  2:{ intros u Hu Hs.
      destruct (suffix_head_forallb _ u pre Hu Hs Hp) as (c & r & -> & Hc).
      apply artifact_at_nondigit. by apply negb_true_iff in Hc. }
  f_equal.
  rewrite (sc_hit artifact_at _ artifact_at_len _ _ _
             (artifact_at_with_reference n m post Hn Hm)).
  unfold Rx.erase_all at 1. cbn [app]. f_equal.
  rewrite !app_assoc.
  rewrite drop_app_length'; [done|].
  rewrite !length_app. cbn [str list_ascii_of_string length]. lia.
Qed.

(** An artifact [nFnF] followed by a bracketed numeral [[m]] is deleted
    together with it, after a text without digits: the node is replaced by
    the markup that holds the text before the artifact and what
    [cleanupArtifacts] leaves of the text after the bracketed numeral. *)
Theorem artifact_with_reference_removed (n m pre post : txt) :
  numeral n -> numeral m -> no_digit pre = true ->
  cleanupArtifacts
    (pre ++ n ++ str "F" ++ n ++ str "F" ++ str "[" ++ m ++ str "]" ++ post)
  = ReplaceWith (pre ++ cleaned post).
Proof.
  intros Hn Hm Hp.
  apply cleanupArtifacts_replaced; [by apply cleaned_with_reference|].
  pose proof (sublist_length _ _ (cleaned_sublist post)) as H.
  rewrite !length_app. simpl. lia.
Qed.

Lemma artifact_with_reference_removed_witness :
  (numeral (str "123") /\ numeral (str "42") /\ no_digit (str "see ") = true)
  /\ cleanupArtifacts
       (str "see " ++ str "123" ++ str "F" ++ str "123" ++ str "F"
          ++ str "[" ++ str "42" ++ str "]" ++ str ".")
     = ReplaceWith (str "see " ++ cleaned (str ".")).
Proof.
  assert (H1 : numeral (str "123")) by (split; [discriminate|reflexivity]).
  assert (H2 : numeral (str "42")) by (split; [discriminate|reflexivity]).
  assert (H3 : no_digit (str "see ") = true) by reflexivity.
  split; [tauto|].
  exact (artifact_with_reference_removed (str "123") (str "42") (str "see ")
           (str ".") H1 H2 H3).
Defined.

Lemma cleanupArtifacts_markup_witness :
  (cleanupArtifacts (str "a 7F7F[3] b") = ReplaceWith (str "a  b")
   /\ Rx.test ARTIFACT_RX (str "[3F] 7F") = false
   /\ no_digit (str "plain text") = true)
  /\ str "a  b" `sublist_of` str "a 7F7F[3] b"
  /\ cleanupArtifacts (str "[3F] 7F") = Untouched
  /\ cleanupArtifacts (str "plain text") = Untouched.
Proof.
  assert (H1 : cleanupArtifacts (str "a 7F7F[3] b") = ReplaceWith (str "a  b"))
    by (vm_compute; reflexivity).
  assert (H2 : Rx.test ARTIFACT_RX (str "[3F] 7F") = false)
    by (vm_compute; reflexivity).
  assert (H3 : no_digit (str "plain text") = true) by reflexivity.
  split; [done|].
  split; [exact (proj1 (proj2 (proj1 (cleanupArtifacts_markup _) _ H1)))|].
  split; [exact (proj1 (proj2 (cleanupArtifacts_markup _)) H2)|].
  exact (proj2 (proj2 (cleanupArtifacts_markup _)) H3).
Defined.
